(** * ItemStore backend: the query layer and the statistics cache

    A shallow embedding of the two route modules of the backend, and the
    properties of the specification checked against it. The items route is
    backend/src/routes/items.js; the statistics route ([GET /api/stats]) is
    the third file held in SOLUTION.md, and the line numbers quoted for it are
    those of SOLUTION.md.

    - [Js]     : the fragment of JavaScript the routes rely on (truthiness of
                 the values met, [parseInt], [toLowerCase], [includes],
                 [Array.prototype.slice], [Math.ceil] of a quotient,
                 [Math.round]).
    - [Items]  : [GET /api/items] and [GET /api/items/:id].
    - [Stats]  : [calculateStats], and [getStats] as a cooperative task:
                 an [async] function runs atomically between two [await]s,
                 so a call is a small state machine resumed by the event
                 loop, and the module-level [statsCache] is the state shared
                 by every call in flight.
    - [JsLib]  : more of JavaScript: [trim], the decimal [toString] of an
                 integer, what [JSON.stringify] makes of a Number.
    - [Lookup] : what the specification says of identifiers.
    - [Create] : [POST /api/items], one request alone and handlers in
                 flight together.
    - [Client] : the requests of frontend/src/state/DataContext.js and the
                 pagination bar of frontend/src/pages/Items.js.
    - [StatsUse] : what the counts of [calculateStats] and the calls of
                 [getStats] add up to, the reads of each call, and a stored
                 item as the statistics read it.

    The theory modules follow the definitions, in the same order. *)

From Stdlib Require Import ZArith List Bool Ascii String Lia Floats.
From Stdlib Require DecimalString DecimalPos.
From stdpp Require Import base option list gmap strings.

(* ===================================================================== *)
(** * The JavaScript fragment *)
(* ===================================================================== *)

Module Js.

(** Values as [JSON.parse] gives them for the fields of a stored object. A
    field that is absent reads as [JsUndefined]; arrays and nested objects are
    [JsObject] (no route looks inside one). *)
Inductive jsval :=
| JsUndefined
| JsNull
| JsBool (b : bool)
| JsNum (x : float)
| JsStr (s : string)
| JsObject.

(** Strings are sequences of bytes here; the operations below are exact on
    ASCII text. (JavaScript strings are UTF-16 and [toLowerCase] also folds
    letters beyond ASCII; such text is outside this model.) *)

Definition code (c : ascii) : N := N_of_ascii c.

(** [String.prototype.toLowerCase], on ASCII: 'A'..'Z' go to 'a'..'z'. *)
Definition lower (c : ascii) : ascii :=
  if ((65 <=? code c) && (code c <=? 90))%N
  then ascii_of_N (code c + 32) else c.

Fixpoint toLowerCase (s : string) : string :=
  match s with
  | EmptyString => EmptyString
  | String c s' => String (lower c) (toLowerCase s')
  end.

(** [s.startsWith(p)]: used by [includes] below. *)
Fixpoint startsWith (p s : string) : bool :=
  match p, s with
  | EmptyString, _ => true
  | String a p', String b s' => if Ascii.eqb a b then startsWith p' s' else false
  | String _ _, EmptyString => false
  end.

(** [s.includes(p)]: [p] occurs in [s] at some position. *)
Fixpoint includes (s p : string) : bool :=
  startsWith p s ||
  match s with
  | EmptyString => false
  | String _ s' => includes s' p
  end.

(** ** [parseInt(string)] with no radix argument.

    The result is the mathematical integer the text denotes, or [None] for
    [NaN]. JavaScript then converts the integer to a Number; below 2^53 in
    magnitude that conversion, and the sums, products and comparisons the
    routes make with it, are exact, which is the range the Z arithmetic of
    this development stands for. *)

(** StrWhiteSpaceChar, the ASCII ones: TAB, LF, VT, FF, CR, SPACE. *)
Definition is_space (c : ascii) : bool :=
  let n := code c in ((9 <=? n) && (n <=? 13) || (n =? 32))%N.

Fixpoint trimStart (s : string) : string :=
  match s with
  | String c s' => if is_space c then trimStart s' else s
  | EmptyString => EmptyString
  end.

Definition digit (radix : Z) (c : ascii) : option Z :=
  let n := Z.of_N (code c) in
  let d :=
    if ((48 <=? n) && (n <=? 57))%Z then Some (n - 48)%Z
    else if ((97 <=? n) && (n <=? 102))%Z then Some (n - 87)%Z
    else if ((65 <=? n) && (n <=? 70))%Z then Some (n - 55)%Z
    else None in
  match d with
  | Some v => if (v <? radix)%Z then Some v else None
  | None => None
  end.

(** The longest prefix of radix-R digits, as a number; [acc] is [None] until
    a first digit has been read. *)
Fixpoint digits (radix : Z) (s : string) (acc : option Z) : option Z :=
  match s with
  | String c s' =>
      match digit radix c with
      | Some d => digits radix s' (Some (default 0 acc * radix + d))%Z
      | None => acc
      end
  | EmptyString => acc
  end.

Definition parseInt (input : string) : option Z :=
  let s := trimStart input in
  let '(sign, s) :=
    match s with
    | String "-" r => ((-1)%Z, r)
    | String "+" r => (1%Z, r)
    | _ => (1%Z, s)
    end in
  let '(radix, s) :=
    match s with
    | String "0" (String "x" r) => (16%Z, r)
    | String "0" (String "X" r) => (16%Z, r)
    | _ => (10%Z, s)
    end in
  (fun n => sign * n)%Z <$> digits radix s None.

(** [parseInt] of a value that may be [undefined]: the argument goes through
    ToString first, and ["undefined"] has no leading digit. *)
Definition parseIntOpt (v : option string) : option Z :=
  parseInt (default "undefined" v).

(** [n || d] for a number [n] that may be [NaN]. *)
Definition num_or (n : option Z) (d : Z) : Z :=
  match n with
  | Some z => if (z =? 0)%Z then d else z
  | None => d
  end.

(** [Math.ceil(a / b)] for integers, [b] not zero. *)
Definition ceil_div (a b : Z) : Z := (- ((- a) / b))%Z.

(** [Array.prototype.slice(start, end)]: a negative index counts from the end
    of the array, both indices are clamped to [0, len], and [NaN] is index 0. *)
Definition rel_index (len : Z) (i : option Z) : Z :=
  match i with
  | None => 0
  | Some k => if k <? 0 then Z.max (len + k) 0 else Z.min k len
  end%Z.

Definition slice {A} (l : list A) (start stop : option Z) : list A :=
  let len := Z.of_nat (length l) in
  let k := rel_index len start in
  let final := rel_index len stop in
  take (Z.to_nat (final - k)) (drop (Z.to_nat k) l).

(** Comparisons with a number that may be [NaN]: false on [NaN]. *)
Definition nan_lt (a : option Z) (b : Z) : bool :=
  match a with Some x => (x <? b)%Z | None => false end.
Definition nan_gt (a : option Z) (b : Z) : bool :=
  match a with Some x => (b <? x)%Z | None => false end.

(** The integers a double holds exactly, together with their neighbours
    ([Number.isSafeInteger]). On them [parseInt], the sums, the products and
    the comparisons of the routes are exact, and [Math.ceil] of a quotient of
    two of them is the ceiling of the exact quotient. *)
Definition safe (z : Z) : Prop := (- 2 ^ 53 < z < 2 ^ 53)%Z.

(** Text within ASCII: every byte is below 128. On such text [toLowerCase]
    and [includes] above are the methods of JavaScript. *)
Fixpoint is_ascii (s : string) : bool :=
  match s with
  | EmptyString => true
  | String c s' => (code c <? 128)%N && is_ascii s'
  end.

(** The Number an integer converts to (round to nearest, ties to even). *)
Definition of_Z (z : Z) : float := SF2Prim (binary_normalize prec emax z 0 false).

(** Truthiness of a Number: [0], [-0] and [NaN] are falsy. *)
Definition truthy_num (x : float) : bool :=
  negb (PrimFloat.is_zero x || PrimFloat.is_nan x).

(** The exact value of a finite double, as the integer pair [(m, e)] standing
    for [m * 2^e]. *)
Definition exact (x : float) : option (Z * Z) :=
  match Prim2SF x with
  | S754_zero _ => Some (0, 0)%Z
  | S754_finite s m e => Some (if s then Z.neg m else Z.pos m, e)
  | _ => None
  end.

(** [Math.round(x)]: the integer closest to [x], a tie going up (to +oo),
    computed on the exact value of [x]; [NaN], the infinities and the zeros
    are returned as they are, and a negative [x] that rounds to zero gives
    [-0]. *)
Definition round (x : float) : float :=
  match exact x with
  | Some (m, e) =>
      if (0 <=? e)%Z then x
      else
        let z := ((2 * m + 2 ^ (- e)) / 2 ^ (- e + 1))%Z in
        if ((z =? 0) && (m <? 0))%Z then PrimFloat.neg_zero else of_Z z
  | None => x
  end.

(** [Math.min(...l)] and [Math.max(...l)]: [NaN] if any argument is [NaN],
    [-0] below [+0], and the infinities for no argument. *)
Definition min2 (a b : float) : float :=
  if PrimFloat.is_nan a || PrimFloat.is_nan b then PrimFloat.nan
  else if (b <? a)%float then b
  else if (a <? b)%float then a
  else if PrimFloat.get_sign a then a else b.

Definition max2 (a b : float) : float :=
  if PrimFloat.is_nan a || PrimFloat.is_nan b then PrimFloat.nan
  else if (a <? b)%float then b
  else if (b <? a)%float then a
  else if PrimFloat.get_sign a then b else a.

Definition math_min (l : list float) : float := fold_left min2 l PrimFloat.infinity.
Definition math_max (l : list float) : float := fold_left max2 l PrimFloat.neg_infinity.

End Js.

(* ===================================================================== *)
(** * The query layer: backend/src/routes/items.js *)
(* ===================================================================== *)

Module Items.
Import Js.

(** A stored object, as the routes read it. [JSON.parse] puts no constraint on
    the fields, so each is a [jsval]; only [POST /api/items] validates. *)
Record item := Item {
  id : jsval;
  name : jsval;
  category : jsval;
  price : jsval
}.

(** What a handler hands to [next(err)]. *)
Inductive error :=
| ReadFailed (message : string)
    (** [readData] threw [Error(`Failed to read data file: ${message}`)] *)
| TypeError
    (** thrown by the engine: a method called on a value that has none *)
| NotFound.
    (** [Error('Item not found')] with [err.status = 404] *)

(** [err.status], set by the handler on the errors it creates itself. *)
Definition err_status (e : error) : option Z :=
  match e with
  | NotFound => Some 404%Z
  | ReadFailed _ | TypeError => None
  end.

(** The status answered by the error middleware the route is mounted under
    (items.test.js, lines 18-20): [res.status(err.status || 500)]. *)
Definition http_status (e : error) : Z := default 500%Z (err_status e).

(** [readData()]: the content of the data file once parsed, or the message of
    the failure of [fs.readFile] or [JSON.parse]. The routes assume the parsed
    value is an array of objects. *)
Definition readData := (string + list item)%type.

(** [v.toLowerCase()]: only a string has the method. *)
Definition call_toLowerCase (v : jsval) : error + string :=
  match v with
  | JsStr s => inr (toLowerCase s)
  | _ => inl TypeError
  end.

(** The callback of [results.filter]:
    [item.name.toLowerCase().includes(searchTerm) ||
     item.category.toLowerCase().includes(searchTerm)]. *)
Definition matches (searchTerm : string) (it : item) : error + bool :=
  match call_toLowerCase (name it) with
  | inl e => inl e
  | inr n =>
      if includes n searchTerm then inr true
      else
        match call_toLowerCase (category it) with
        | inl e => inl e
        | inr c => inr (includes c searchTerm)
        end
  end.

(** [Array.prototype.filter] with a callback that may throw: elements are
    visited in order and the first exception ends the call. *)
Fixpoint filterE (f : item -> error + bool) (l : list item) : error + list item :=
  match l with
  | [] => inr []
  | x :: l' =>
      match f x with
      | inl e => inl e
      | inr b =>
          match filterE f l' with
          | inl e => inl e
          | inr r => inr (if b then x :: r else r)
          end
      end
  end.

Record pagination := Pagination {
  page : option Z;        (** [None] is [NaN] *)
  pageSize : Z;
  totalItems : Z;
  totalPages : Z;
  hasNextPage : bool;
  hasPrevPage : bool
}.

Record listing := Listing {
  items : list item;
  pageInfo : pagination
}.

(** The search block of [GET /api/items], lines 33-40: [if (q)] holds for a
    non-empty string. *)
Definition search (data : list item) (q : option string) : error + list item :=
  match q with
  | Some s =>
      if String.eqb s "" then inr data
      else filterE (matches (toLowerCase s)) data
  | None => inr data
  end.

(** [const { limit, q, page = 1 } = req.query], then [parseInt(page)]. *)
Definition page_number (pageParam : option string) : option Z :=
  match pageParam with
  | Some s => parseInt s
  | None => Some 1%Z
  end.

(** [GET /api/items], lines 27-66. [limit], [q] and [pageParam] are
    [req.query.limit], [req.query.q] and [req.query.page]: a string, or
    [None] when the parameter is absent (a parameter given several times, which
    Express parses to an array, is outside this model). *)
Definition listItems (file : readData) (limit q pageParam : option string)
  : error + listing :=
  match file with
  | inl message => inl (ReadFailed message)
  | inr data =>
      match search data q with
      | inl e => inl e
      | inr results =>
          let pageSize := num_or (parseIntOpt limit) 10 in
          let pageNumber := page_number pageParam in
          let totalItems := Z.of_nat (length results) in
          let totalPages := ceil_div totalItems pageSize in
          let startIndex := (fun p => (p - 1) * pageSize)%Z <$> pageNumber in
          let endIndex := (fun s => s + pageSize)%Z <$> startIndex in
          inr {| items := slice results startIndex endIndex;
                 pageInfo :=
                   {| page := pageNumber;
                      pageSize := pageSize;
                      totalItems := totalItems;
                      totalPages := totalPages;
                      hasNextPage := nan_lt pageNumber totalPages;
                      hasPrevPage := nan_gt pageNumber 1 |} |}
      end
  end.

(** [i.id === n] for [n = parseInt(req.params.id)]: strict equality with a
    Number holds only for a Number, and never for [NaN]. *)
Definition strict_eq_num (v : jsval) (n : option Z) : bool :=
  match v, n with
  | JsNum x, Some z => (x =? of_Z z)%float
  | _, _ => false
  end.

(** [GET /api/items/:id], lines 69-82. An element found by [data.find] is an
    object, so [!item] holds exactly when none was found. *)
Definition getItem (file : readData) (idParam : string) : error + item :=
  match file with
  | inl message => inl (ReadFailed message)
  | inr data =>
      match find (fun i => strict_eq_num (id i) (parseInt idParam)) data with
      | Some it => inr it
      | None => inl NotFound
      end
  end.

(** ** What the specification says of the query layer *)

(** [term] occurs in [s] up to the case of letters: some substring of [s]
    equals [term] once both are lower-cased. *)
Definition contains_ci (s term : string) : Prop :=
  exists pre mid post,
    s = pre +:+ mid +:+ post /\ toLowerCase mid = toLowerCase term.

(** The record is one the search keeps: its name or its category is a string
    that contains the term. *)
Definition field_contains (v : jsval) (term : string) : Prop :=
  exists s, v = JsStr s /\ contains_ci s term.

Definition wanted (term : string) (it : item) : Prop :=
  field_contains (name it) term \/ field_contains (category it) term.


Definition is_string (v : jsval) : bool :=
  match v with JsStr _ => true | _ => false end.

(** A record of the data model: name and category are strings. *)
Definition well_formed (it : item) : Prop :=
  is_string (name it) = true /\ is_string (category it) = true.

(** The texts of a record are ASCII; a field that is not a string holds no
    text. *)
Definition ascii_field (v : jsval) : bool :=
  match v with JsStr s => is_ascii s | _ => true end.

Definition ascii_record (it : item) : bool :=
  ascii_field (name it) && ascii_field (category it).

(** A record the search callback throws on: the name is no string, or the
    name is a string without the term and the category is no string. *)
Definition breaks (term : string) (it : item) : Prop :=
  is_string (name it) = false \/
  (exists n, name it = JsStr n /\ ~ contains_ci n term /\
             is_string (category it) = false).

(** The identifier of the request parses to the Number that is the id of the
    record. *)
Definition has_id (it : item) (idParam : string) : Prop :=
  exists x z,
    id it = JsNum x /\ parseInt idParam = Some z /\ (x =? of_Z z)%float = true.

(** The collection of the route's test suite (items.test.js, lines 8-12). *)
Definition mockItems : list item :=
  [ {| id := JsNum 1; name := JsStr "Test Laptop";
       category := JsStr "Electronics"; price := JsNum 1000 |};
    {| id := JsNum 2; name := JsStr "Test Headphones";
       category := JsStr "Electronics"; price := JsNum 200 |};
    {| id := JsNum 3; name := JsStr "Test Chair";
       category := JsStr "Furniture"; price := JsNum 500 |} ].

(** The two records of the search example of the specification. *)
Definition laptopAndChair : list item :=
  [ {| id := JsNum 1; name := JsStr "Test Laptop";
       category := JsStr "Electronics"; price := JsNum 1000 |};
    {| id := JsNum 3; name := JsStr "Test Chair";
       category := JsStr "Furniture"; price := JsNum 500 |} ].

(** Two stored objects that are not records of the data model. *)
Definition untyped_name : item :=
  {| id := JsNum 4; name := JsNum 7; category := JsStr "Laptops";
     price := JsNum 5 |}.

Definition untyped_category : item :=
  {| id := JsNum 5; name := JsStr "Laptop"; category := JsNum 42;
     price := JsNum 5 |}.


End Items.

(* ===================================================================== *)
(** * The statistics cache: the route of [GET /api/stats] *)
(* ===================================================================== *)

Module Stats.
Import Js.

(** ** [calculateStats] *)

(** A stored object as [calculateStats] reads it: only [category] and [price]
    are looked at. The fields have the types [POST /api/items] validates, a
    string and a Number, or are absent ([None]: [undefined] or [null]). With
    any other type JavaScript's [+] and property keys coerce through strings,
    which is outside this model; so is a category that names a property of
    [Object.prototype]. *)
Record record := MkRecord {
  category : option string;
  price : option float
}.

Record range := Range { min : float; max : float }.

Record stats := StatsOf {
  total : nat;
  averagePrice : float;
  categories : gmap string nat;
  priceRange : range
}.

(** [cur.price || 0] *)
Definition price_or_0 (r : record) : float :=
  match price r with
  | Some x => if truthy_num x then x else 0%float
  | None => 0%float
  end.

(** [item.category || 'Unknown'] *)
Definition category_or_unknown (r : record) : string :=
  match category r with
  | Some s => if String.eqb s "" then "Unknown" else s
  | None => "Unknown"
  end.

(** [acc[category] = (acc[category] || 0) + 1] *)
Definition count_category (acc : gmap string nat) (r : record) : gmap string nat :=
  let k := category_or_unknown r in
  <[k := default 0 (acc !! k) + 1]> acc.

(** Lines 338-372. *)
Definition calculateStats (items : list record) : stats :=
  match items with
  | [] =>
      {| total := 0; averagePrice := 0%float; categories := ∅;
         priceRange := {| min := 0%float; max := 0%float |} |}
  | _ =>
      let total := length items in
      let totalPrice := fold_left (fun acc cur => acc + price_or_0 cur)%float items 0%float in
      let averagePrice := (totalPrice / of_Z (Z.of_nat total))%float in
      let categories := fold_left count_category items ∅ in
      let prices := map price_or_0 items in
      {| total := total;
         averagePrice := (round (averagePrice * 100) / 100)%float;
         categories := categories;
         priceRange := {| min := math_min prices; max := math_max prices |} |}
  end.

(** ** The cache and [getStats] *)

(** [statsCache], lines 310-315. [lastModified] is [mtime.getTime()], a count
    of milliseconds. *)
Record statsCache := Cache {
  data : option stats;
  lastModified : option Z;
  isCalculating : bool
}.

Definition empty : statsCache :=
  {| data := None; lastModified := None; isCalculating := false |}.

(** Errors are [Error] objects; only their message is kept. *)
Definition failure := string.

(** What the body of the inner [try] (lines 403-413) meets: either
    [fs.readFile], [JSON.parse] or [calculateStats] throws, with that message,
    or the file parses to an array of objects. *)
Inductive outcome :=
| Threw (message : string)
| Parsed (items : list record).

(** What the event loop resumes a suspended call with. *)
Inductive event :=
| StatDone (r : failure + Z)
    (** [fs.stat] settled: its error message, or [stats.mtime.getTime()] *)
| TimerFired
    (** the 100 ms [setTimeout] *)
| ReadDone (r : outcome).
    (** [fs.readFile] settled, and what follows it up to the next return *)

(** A call of [getStats], between two resumptions. *)
Inductive task :=
| AwaitStat
    (** at [await getFileModTime()], line 387 *)
| AwaitTimer
    (** at [await new Promise(setTimeout 100)], line 397 *)
| AwaitRead (currentModTime : Z)
    (** at [await fs.readFile], line 404 *)
| Settled (r : failure + stats).
    (** returned, or threw *)

(** [statsCache.data && statsCache.lastModified === currentModTime]; a stats
    object is truthy. *)
Definition hit (c : statsCache) (currentModTime : Z) : option stats :=
  match data c, lastModified c with
  | Some s, Some m => if (m =? currentModTime)%Z then Some s else None
  | _, _ => None
  end.

Definition clear_flag (c : statsCache) : statsCache :=
  {| data := data c; lastModified := lastModified c; isCalculating := false |}.

Definition set_flag (c : statsCache) : statsCache :=
  {| data := data c; lastModified := lastModified c; isCalculating := true |}.

(** One resumption of [getStats] (lines 385-422): the code run from the
    [await] the call is suspended at to the next one, or to its end. The
    result is the cache, the call, and the number of [fs.readFile] issued.
    [return getStats()] (line 398) hands the call over to a fresh invocation,
    which runs up to its first [await]; its rejection is not caught by the
    caller's [catch], the promise being returned and not awaited. [None]: the
    event is not the one the call is waiting for. *)
Definition resume (c : statsCache) (t : task) (e : event)
  : option (statsCache * task * nat) :=
  match t, e with
  | AwaitStat, StatDone (inl message) =>
      Some (clear_flag c,
            Settled (inl ("Failed to calculate stats: " +:+
                          "Failed to get file stats: " +:+ message)), 0)
  | AwaitStat, StatDone (inr currentModTime) =>
      match hit c currentModTime with
      | Some s => Some (c, Settled (inr s), 0)
      | None =>
          if isCalculating c then Some (c, AwaitTimer, 0)
          else Some (set_flag c, AwaitRead currentModTime, 1)
      end
  | AwaitTimer, TimerFired => Some (c, AwaitStat, 0)
  | AwaitRead currentModTime, ReadDone (Threw message) =>
      Some (clear_flag c,
            Settled (inl ("Failed to calculate stats: " +:+ message)), 0)
  | AwaitRead currentModTime, ReadDone (Parsed items) =>
      let s := calculateStats items in
      Some ({| data := Some s; lastModified := Some currentModTime;
               isCalculating := false |},
            Settled (inr s), 0)
  | _, _ => None
  end.

(** One call followed alone through the events it is resumed with; the reads
    it issues are added up. *)
Fixpoint run (c : statsCache) (t : task) (es : list event)
  : option (statsCache * task * nat) :=
  match es with
  | [] => Some (c, t, 0)
  | e :: es' =>
      match resume c t e with
      | Some (c', t', n) =>
          match run c' t' es' with
          | Some (c'', t'', n') => Some (c'', t'', n + n')
          | None => None
          end
      | None => None
      end
  end.

(** The marker of the last successful [fs.stat] among the events, [m0] if
    there is none. *)
Fixpoint last_marker (m0 : option Z) (es : list event) : option Z :=
  match es with
  | [] => m0
  | StatDone (inr m) :: es' => last_marker (Some m) es'
  | _ :: es' => last_marker m0 es'
  end.

(** ** Calls in flight together

    The process: the cache, every call of [getStats] made so far, and the
    number of [fs.readFile] of the data file the calls have issued. *)
Record world := World {
  cache : statsCache;
  calls : list task;
  reads : nat
}.

Definition init : world := {| cache := empty; calls := []; reads := 0 |}.

Inductive action :=
| Call
    (** a request calls [getStats()], which suspends at its first [await] *)
| Resume (i : nat) (e : event)
    (** the event loop resumes call [i] *)
| FileChanged.
    (** the [fs.watchFile] listener, lines 325-331 *)

Definition step (w : world) (a : action) : option world :=
  match a with
  | Call =>
      Some {| cache := cache w; calls := calls w ++ [AwaitStat]; reads := reads w |}
  | Resume i e =>
      match calls w !! i with
      | Some t =>
          match resume (cache w) t e with
          | Some (c, t', n) =>
              Some {| cache := c; calls := <[i := t']> (calls w);
                      reads := reads w + n |}
          | None => None
          end
      | None => None
      end
  | FileChanged =>
      Some {| cache := {| data := None; lastModified := None;
                          isCalculating := isCalculating (cache w) |};
              calls := calls w; reads := reads w |}
  end.

Fixpoint exec (w : world) (sched : list action) : option world :=
  match sched with
  | [] => Some w
  | a :: sched' =>
      match step w a with
      | Some w' => exec w' sched'
      | None => None
      end
  end.

(** How many times call [i] has come back from its 100 ms wait. *)
Definition is_wait_of (i : nat) (a : action) : bool :=
  match a with
  | Resume j TimerFired => Nat.eqb i j
  | _ => false
  end.

Definition waits (i : nat) (sched : list action) : nat :=
  length (List.filter (is_wait_of i) sched).

(** A store that answers, and does not change: every [fs.stat] reports the
    marker [m], every read parses, and the watcher stays silent. *)
Definition quiet_event (m : Z) (e : event) : bool :=
  match e with
  | StatDone (inr m') => (m' =? m)%Z
  | StatDone (inl _) => false
  | TimerFired => true
  | ReadDone (Parsed _) => true
  | ReadDone (Threw _) => false
  end.

Definition quiet (m : Z) (a : action) : bool :=
  match a with
  | Call => true
  | Resume _ e => quiet_event m e
  | FileChanged => false
  end.

(** ** What the specification says of the cache *)

(** The statistics stored under the marker [m] were computed from [items]:
    some call read the marker [m], was next resumed with the parsed file
    [items], and nothing else resumed it in between. *)
Definition produced (sched : list action) (m : Z) (items : list record) : Prop :=
  exists i before between after,
    sched = before ++ Resume i (StatDone (inr m)) :: between ++
            Resume i (ReadDone (Parsed items)) :: after /\
    forall e, Resume i e ∉ between.

(** What holds of the process after any schedule: a call suspended at its
    read has read its marker and was not resumed since; the entry is absent,
    or holds statistics and the marker they were computed under; the flag is
    set only while a call is suspended at its read. *)
Record inv (sched : list action) (w : world) : Prop := Inv {
  inv_reading : forall i m,
    calls w !! i = Some (AwaitRead m) ->
    exists before between,
      sched = before ++ Resume i (StatDone (inr m)) :: between /\
      forall e, Resume i e ∉ between;
  inv_entry :
    match data (cache w), lastModified (cache w) with
    | None, None => True
    | Some s, Some m =>
        exists items, s = calculateStats items /\ produced sched m items
    | _, _ => False
    end;
  inv_flag :
    isCalculating (cache w) = true ->
    exists j m, calls w !! j = Some (AwaitRead m)
}.

(** The three stages of a quiet run from the empty cache. *)
Inductive stage (m : Z) (w : world) : Prop :=
| stage_idle :
    cache w = empty -> reads w = 0 ->
    Forall (fun t => t = AwaitStat) (calls w) ->
    stage m w
| stage_computing (j : nat) :
    cache w = set_flag empty -> reads w = 1 ->
    calls w !! j = Some (AwaitRead m) ->
    (forall i t, i <> j -> calls w !! i = Some t ->
                 t = AwaitStat \/ t = AwaitTimer) ->
    stage m w
| stage_cached (s : stats) :
    cache w = {| data := Some s; lastModified := Some m;
                 isCalculating := false |} ->
    reads w = 1 ->
    Forall (fun t => t = AwaitStat \/ t = AwaitTimer \/ t = Settled (inr s))
           (calls w) ->
    stage m w.

(** [n] rounds of a call that finds the flag set: the marker, then the
    100 ms wait. *)
Definition rounds (m : Z) (n : nat) : list event :=
  concat (replicate n [StatDone (inr m); TimerFired]).

(** Two calls on the empty cache: call 0 starts the computation, call 1 comes
    back [n] times while the read of call 0 is pending. *)
Definition storm (n : nat) : list action :=
  [Call; Call; Resume 0 (StatDone (inr 0%Z))] ++
  concat (replicate n [Resume 1 (StatDone (inr 0%Z)); Resume 1 TimerFired]).

(** The process all along the storm. *)
Definition storming : world :=
  {| cache := set_flag empty; calls := [AwaitRead 0%Z; AwaitStat]; reads := 1 |}.

(** [n] calls on the empty cache: call 0 computes and stores, then every
    other call is resumed with the marker. *)
Definition collapse (m : Z) (items : list record) (n : nat) : list action :=
  replicate n Call ++
  [Resume 0 (StatDone (inr m)); Resume 0 (ReadDone (Parsed items))] ++
  map (fun i => Resume i (StatDone (inr m))) (seq 1 (n - 1)).

(** Five records whose prices are exact in binary and average to 0.575. *)
Definition tie : list record :=
  [ {| category := Some "a"; price := Some 0.5%float |};
    {| category := Some "a"; price := Some 0.5%float |};
    {| category := Some "b"; price := Some 0.5%float |};
    {| category := Some "b"; price := Some 0.5%float |};
    {| category := Some "c"; price := Some 0.875%float |} ].

(** The prices and categories of the collection of items.test.js. *)
Definition mockRecords : list record :=
  [ {| category := Some "Electronics"; price := Some 1000%float |};
    {| category := Some "Electronics"; price := Some 200%float |};
    {| category := Some "Furniture"; price := Some 500%float |} ].

(** Where three calls under marker 7 on the collection [tie] end. *)
Definition collapsed : world :=
  {| cache := {| data := Some (calculateStats tie); lastModified := Some 7%Z;
                 isCalculating := false |};
     calls := replicate 3 (Settled (inr (calculateStats tie)));
     reads := 1 |}.

(** Exact addition of [m1 * 2^e1] and [m2 * 2^e2]. *)
Definition exact_add (a b : Z * Z) : Z * Z :=
  let e := Z.min (snd a) (snd b) in
  (fst a * 2 ^ (snd a - e) + fst b * 2 ^ (snd b - e), e)%Z.

(** The exact sum of the prices, as [(m, e)] for [m * 2^e]; [None] if a price
    is not finite. *)
Fixpoint exact_sum (items : list record) : option (Z * Z) :=
  match items with
  | [] => Some (0, 0)%Z
  | r :: items' =>
      match exact (price_or_0 r), exact_sum items' with
      | Some a, Some b => Some (exact_add a b)
      | _, _ => None
      end
  end.

(** [sum / n] in hundredths, rounded to the nearest with a tie going up:
    the floor of [100 * sum / n + 1/2]. *)
Definition half_up_hundredths (sum : Z * Z) (n : Z) : Z :=
  let (m, e) := sum in
  if (0 <=? e)%Z then ((200 * m * 2 ^ e + n) / (2 * n))%Z
  else ((200 * m + n * 2 ^ (- e)) / (2 * n * 2 ^ (- e)))%Z.

(** The average the specification asks for, as a Number. *)
Definition rounded_average (items : list record) : option float :=
  (fun sum => of_Z (half_up_hundredths sum (Z.of_nat (length items))) / 100)%float
    <$> exact_sum items.

End Stats.

(* ===================================================================== *)
(** * More of the JavaScript fragment *)
(* ===================================================================== *)

Module JsLib.
Import Js.

(** ToBoolean. *)
Definition truthy (v : jsval) : bool :=
  match v with
  | JsUndefined | JsNull => false
  | JsBool b => b
  | JsNum x => truthy_num x
  | JsStr s => negb (String.eqb s "")
  | JsObject => true
  end.

(** [typeof v === 'string'] and [typeof v === 'number']. *)
Definition typeof_string (v : jsval) : bool :=
  match v with JsStr _ => true | _ => false end.

Definition typeof_number (v : jsval) : bool :=
  match v with JsNum _ => true | _ => false end.

(** [String.prototype.trim], on the ASCII white space of [is_space]. *)
Fixpoint trimEnd (s : string) : string :=
  match s with
  | EmptyString => EmptyString
  | String c s' =>
      match trimEnd s' with
      | EmptyString => if is_space c then EmptyString else String c EmptyString
      | r => String c r
      end
  end.

Definition trim (s : string) : string := trimEnd (trimStart s).

(** [Number.prototype.toString] of an integer: its decimal digits, after a
    minus sign when it is negative (the form JavaScript prints below 10^21). *)
Definition toString (z : Z) : string :=
  DecimalString.NilZero.string_of_int (Z.to_int z).

(** A value once written by [JSON.stringify] and read back by [JSON.parse]:
    a Number that is not finite comes back as [null], and [-0] as [0]. *)
Definition through_json (v : jsval) : jsval :=
  match v with
  | JsNum x =>
      if PrimFloat.is_finite x
      then (if PrimFloat.is_zero x then JsNum 0 else JsNum x)
      else JsNull
  | _ => v
  end.

(** A Number that [JSON] writes as it is. *)
Definition plain_number (x : float) : bool :=
  PrimFloat.is_finite x && negb (PrimFloat.is_zero x).

End JsLib.

(* ===================================================================== *)
(** * Identifiers: what the specification says of [GET /api/items/:id] *)
(* ===================================================================== *)

Module Lookup.
Import Js JsLib.








End Lookup.

(* ===================================================================== *)
(** * Creating an item: [POST /api/items] of backend/src/routes/items.js *)
(* ===================================================================== *)

Module Create.
Import Js JsLib.

(** What the handler hands to [next(err)]. *)
Inductive error :=
| Invalid (message : string)
    (** an [Error] with [err.status = 400] *)
| ReadFailed (message : string)
    (** thrown by [readData], no status *)
| WriteFailed (message : string).
    (** thrown by [writeData], no status *)

Definition err_status (e : error) : option Z :=
  match e with
  | Invalid _ => Some 400%Z
  | ReadFailed _ | WriteFailed _ => None
  end.

(** [err.message] *)
Definition err_message (e : error) : string :=
  match e with
  | Invalid m => m
  | ReadFailed m => "Failed to read data file: " +:+ m
  | WriteFailed m => "Failed to write data file: " +:+ m
  end.

(** [!v || typeof v !== 'string' || v.trim().length === 0], lines 90 and 96. *)
Definition rejects_text (v : jsval) : bool :=
  negb (truthy v) || negb (typeof_string v) ||
  match v with
  | JsStr s => Nat.eqb (String.length (trim s)) 0
  | _ => false
  end.

(** [price === undefined || price === null || typeof price !== 'number' ||
     price < 0], line 102. *)
Definition rejects_price (v : jsval) : bool :=
  match v with
  | JsUndefined | JsNull => true
  | JsNum x => (x <? 0)%float
  | _ => true
  end.

(** [v.trim()] for a value that passed the check. *)
Definition trimmed (v : jsval) : jsval :=
  match v with
  | JsStr s => JsStr (trim s)
  | _ => v
  end.

(** An object of the data file once written and read back. *)
Definition stored (it : Items.item) : Items.item :=
  {| Items.id := through_json (Items.id it);
     Items.name := through_json (Items.name it);
     Items.category := through_json (Items.category it);
     Items.price := through_json (Items.price it) |}.

(** [POST /api/items], lines 85-123. [name], [category] and [price] are the
    fields of [req.body], [now] is [Date.now()], [file] is what [readData]
    finds and [write] the failure of [fs.writeFile], if it fails. The result
    is the answer (the item as the client reads it from the 201 response, or
    the error) and the content of the data file if it was written. *)
Definition createItem (name category price : jsval) (now : Z)
    (file : Items.readData) (write : option string)
  : (error + Items.item) * option (list Items.item) :=
  if rejects_text name then
    (inl (Invalid "Name is required and must be a non-empty string"), None)
  else if rejects_text category then
    (inl (Invalid "Category is required and must be a non-empty string"), None)
  else if rejects_price price then
    (inl (Invalid "Price is required and must be a non-negative number"), None)
  else
    let item :=
      {| Items.id := JsNum (of_Z now);
         Items.name := trimmed name;
         Items.category := trimmed category;
         Items.price := price |} in
    match file with
    | inl message => (inl (ReadFailed message), None)
    | inr data =>
        match write with
        | Some message => (inl (WriteFailed message), None)
        | None => (inr (stored item), Some (stored <$> (data ++ [item])))
        end
    end.

(** A request made of the store: the body and the clock of a [POST]. *)
Record request := Request {
  r_name : jsval;
  r_category : jsval;
  r_price : jsval;
  r_now : Z;
  r_write : option string
}.

(** The data file after a request served alone, its handler run from end to
    end with nothing in between: what [createItem] wrote, or the file as it
    was for a request that is refused (a request whose write fails is taken
    out by the statements that use [after]). *)
Definition after (data : list Items.item) (r : request) : list Items.item :=
  default data
    (snd (createItem (r_name r) (r_category r) (r_price r) (r_now r)
            (inr data) (r_write r))).

(** The data file after the requests [rs] served one at a time, from the
    empty collection. Requests whose handlers overlap are the subject of
    [serve] below. *)
Definition served (rs : list request) : list Items.item :=
  fold_left after rs [].

(** ** What can be said of the stored texts *)

(** No white space at either end. *)
Definition tidy (s : string) : Prop :=
  trimStart s = s /\ trimEnd s = s.

(** Some character of [s] is not white space. *)
Fixpoint has_ink (s : string) : bool :=
  match s with
  | EmptyString => false
  | String c s' => negb (is_space c) || has_ink s'
  end.

(** The checks of lines 90, 96 and 102, in plain terms. *)
Definition good_text (v : jsval) : Prop :=
  exists s, v = JsStr s /\ has_ink s = true.

Definition good_price (v : jsval) : Prop :=
  exists x, v = JsNum x /\ (x <? 0)%float = false.

(** A record as a create leaves it in the file: name and category are texts
    with no white space at either end and not empty, the price is [null] or a
    finite Number that is not negative. *)
Definition sound_text (v : jsval) : Prop :=
  exists s, v = JsStr s /\ tidy s /\ has_ink s = true.

Definition sound_price (v : jsval) : Prop :=
  v = JsNull \/
  exists x, v = JsNum x /\ PrimFloat.is_finite x = true /\ (x <? 0)%float = false.

Definition sound (it : Items.item) : Prop :=
  sound_text (Items.name it) /\ sound_text (Items.category it) /\
  sound_price (Items.price it).

(** The request passes the three checks and its write succeeds. *)
Definition accepted (r : request) : bool :=
  negb (rejects_text (r_name r)) && negb (rejects_text (r_category r)) &&
  negb (rejects_price (r_price r)) &&
  match r_write r with None => true | Some _ => false end.

(** ** Handlers in flight together

    The handler suspends twice, at [await readData()] (line 115) and at
    [await writeData(data)] (line 117), and other handlers run in between.
    A read is taken to see the file as it is when the read ends, and a write
    to replace the file at once when it ends; a write that fails is outside
    this model. *)
Inductive phase :=
| Reading (item : Items.item)
    (** past the checks, at [await readData()] *)
| Writing (item : Items.item) (data : list Items.item)
    (** [data.push(item)] done, at [await writeData(data)] *)
| Answered (r : error + Items.item).
    (** [res.status(201).json(item)], or [next(err)] *)

Record server := Server {
  disk : list Items.item;
  posts : list phase
}.

(** No request yet, and the empty collection in the file. *)
Definition opened : server := {| disk := []; posts := [] |}.

Inductive happening :=
| Arrives (name category price : jsval) (now : Z)
    (** a request; its handler runs up to [await readData()] *)
| ReadEnds (i : nat) (failure : option string)
    (** [readData] of request [i] settles *)
| WriteEnds (i : nat).
    (** [writeData] of request [i] resolves *)

(** Lines 88-113: the checks, then the item. *)
Definition arrive (name category price : jsval) (now : Z) : phase :=
  if rejects_text name then
    Answered (inl (Invalid "Name is required and must be a non-empty string"))
  else if rejects_text category then
    Answered (inl (Invalid "Category is required and must be a non-empty string"))
  else if rejects_price price then
    Answered (inl (Invalid "Price is required and must be a non-negative number"))
  else
    Reading {| Items.id := JsNum (of_Z now);
               Items.name := trimmed name;
               Items.category := trimmed category;
               Items.price := price |}.

Definition handle (sv : server) (h : happening) : option server :=
  match h with
  | Arrives name category price now =>
      Some {| disk := disk sv;
              posts := posts sv ++ [arrive name category price now] |}
  | ReadEnds i failure =>
      match posts sv !! i with
      | Some (Reading item) =>
          Some {| disk := disk sv;
                  posts := <[i := match failure with
                                  | Some message =>
                                      Answered (inl (ReadFailed message))
                                  | None => Writing item (disk sv ++ [item])
                                  end]> (posts sv) |}
      | _ => None
      end
  | WriteEnds i =>
      match posts sv !! i with
      | Some (Writing item data) =>
          Some {| disk := stored <$> data;
                  posts := <[i := Answered (inr (stored item))]> (posts sv) |}
      | _ => None
      end
  end.

Fixpoint serve (sv : server) (hs : list happening) : option server :=
  match hs with
  | [] => Some sv
  | h :: hs' =>
      match handle sv h with
      | Some sv' => serve sv' hs'
      | None => None
      end
  end.

(** The writes that have ended. *)
Definition is_write (h : happening) : bool :=
  match h with WriteEnds _ => true | _ => false end.

(** Request [i] served alone: it arrives and, if it passes the checks, its
    read and its write end before anything else happens. *)
Definition passes (r : request) : bool :=
  negb (rejects_text (r_name r)) && negb (rejects_text (r_category r)) &&
  negb (rejects_price (r_price r)).

Definition turn (i : nat) (r : request) : list happening :=
  Arrives (r_name r) (r_category r) (r_price r) (r_now r) ::
  (if passes r then [ReadEnds i None; WriteEnds i] else []).

(** The requests [rs] served one at a time. *)
Definition one_by_one (rs : list request) : list happening :=
  concat (imap turn rs).

(** Two requests served together from a state with [n] requests received:
    both have read the file before either writes it. *)
Definition overlapping (n : nat) (r1 r2 : request) : list happening :=
  [ Arrives (r_name r1) (r_category r1) (r_price r1) (r_now r1);
    Arrives (r_name r2) (r_category r2) (r_price r2) (r_now r2);
    ReadEnds n None; ReadEnds (S n) None; WriteEnds n; WriteEnds (S n) ].

(** What is in flight is sound: the items still to be written, and the
    contents about to be written. *)
Definition phase_sound (writes : nat) (p : phase) : Prop :=
  match p with
  | Reading item => sound (stored item)
  | Writing item data =>
      sound (stored item) /\ Forall sound (stored <$> data) /\
      length data <= S writes
  | Answered _ => True
  end.

(** Two requests for the tests and witnesses. *)
Definition desk : request :=
  {| r_name := JsStr "  Standing Desk "; r_category := JsStr "Furniture";
     r_price := JsNum 450; r_now := 1700000000000%Z; r_write := None |}.

Definition lamp : request :=
  {| r_name := JsStr "Desk Lamp"; r_category := JsStr " Lighting";
     r_price := JsNum 0; r_now := 1700000000000%Z; r_write := None |}.

(** What the first of them adds to the collection of the tests. *)
Definition desk_item : Items.item :=
  {| Items.id := JsNum 1700000000000; Items.name := JsStr "Standing Desk";
     Items.category := JsStr "Furniture"; Items.price := JsNum 450 |}.

(** The collection of the tests after the two requests. *)
Definition served_twice : list Items.item :=
  Items.mockItems ++
  [ desk_item;
    {| Items.id := JsNum 1700000000000; Items.name := JsStr "Desk Lamp";
       Items.category := JsStr "Lighting"; Items.price := JsNum 0 |} ].

(** The server once the two requests have been served one at a time. *)
Definition lamp_item : Items.item :=
  {| Items.id := JsNum 1700000000000; Items.name := JsStr "Desk Lamp";
     Items.category := JsStr "Lighting"; Items.price := JsNum 0 |}.

Definition served_both : server :=
  {| disk := [desk_item; lamp_item];
     posts := [Answered (inr desk_item); Answered (inr lamp_item)] |}.

End Create.

(* ===================================================================== *)
(** * The client of the query layer: frontend/src/state/DataContext.js and
      the pagination bar of frontend/src/pages/Items.js *)
(* ===================================================================== *)

Module Client.
Import Js JsLib.

(** The query string of [fetchItems] (DataContext.js, lines 24-28) as Express
    reads it: [page.toString()], [limit.toString()], and [q] only when it is
    not empty ([...(q && { q })]). The three components are [limit], [q] and
    [page], in the order of the parameters of [Items.listItems]. *)
Definition sent (q : string) : option string :=
  if String.eqb q "" then None else Some q.

Definition params (page limit : Z) (q : string)
  : option string * option string * option string :=
  (Some (toString limit), sent q, Some (toString page)).

(** The answer of the backend to that request, on the data file [file]. *)
Definition get (file : Items.readData) (page limit : Z) (q : string)
  : Items.error + Items.listing :=
  let '(l, s, p) := params page limit q in Items.listItems file l s p.

(** The items of page [page]; none when the request fails. *)
Definition page_items (file : Items.readData) (page limit : Z) (q : string)
  : list Items.item :=
  match get file page limit q with
  | inr resp => Items.items resp
  | inl _ => []
  end.

(** The body of a response, as [response.json()] gives it: an object with
    [items] and [pagination] (the format of this backend), an array (the old
    format), or anything else. *)
Inductive body :=
| NewFormat (l : Items.listing)
| OldFormat (l : list Items.item)
| Other.

(** The state held by [DataProvider], lines 6-16. *)
Record state := State {
  items : list Items.item;
  pagination : Items.pagination;
  searchQuery : string;
  loading : bool
}.

Definition initial : state :=
  {| items := [];
     pagination := {| Items.page := Some 1%Z; Items.pageSize := 10;
                      Items.totalItems := 0; Items.totalPages := 0;
                      Items.hasNextPage := false; Items.hasPrevPage := false |};
     searchQuery := "";
     loading := false |}.

(** What [fetch] resolves to: the status and the body; [response.ok] is a
    status from 200 to 299. *)
Definition response := (Z * body)%type.

Definition ok (r : response) : bool := ((200 <=? fst r) && (fst r <=? 299))%Z.

(** The response of the backend, behind the error middleware. *)
Definition respond (r : Items.error + Items.listing) : response :=
  match r with
  | inr l => (200%Z, NewFormat l)
  | inl e => (Items.http_status e, Other)
  end.

(** [fetchItems], lines 18-68, once [fetch] has resolved with [r] (a
    request that is aborted or cannot be sent is not modelled): the new
    state, and the error thrown to the caller if there is one. [q] is the
    query of the request. *)
Definition fetchItems (st : state) (q : string) (r : response)
  : state * option string :=
  if ok r then
    match snd r with
    | NewFormat l =>
        ({| items := Items.items l; pagination := Items.pageInfo l;
            searchQuery := q; loading := false |}, None)
    | OldFormat l =>
        ({| items := l;
            pagination := {| Items.page := Some 1%Z;
                             Items.pageSize := Z.of_nat (length l);
                             Items.totalItems := Z.of_nat (length l);
                             Items.totalPages := 1;
                             Items.hasNextPage := false;
                             Items.hasPrevPage := false |};
            searchQuery := q; loading := false |}, None)
    | Other =>
        ({| items := [];
            pagination := {| Items.page := Some 1%Z; Items.pageSize := 0;
                             Items.totalItems := 0; Items.totalPages := 1;
                             Items.hasNextPage := false;
                             Items.hasPrevPage := false |};
            searchQuery := q; loading := false |}, None)
    end
  else
    ({| items := items st; pagination := pagination st;
        searchQuery := searchQuery st; loading := false |},
     Some ("HTTP error! status: " +:+ toString (fst r))).

(** [searchItems(query)], lines 70-72, and [loadPage(page)], lines 74-76,
    against the backend on [file]. *)
Definition searchItems (st : state) (file : Items.readData) (query : string)
  : state * option string :=
  fetchItems st query
    (respond (get file 1 (Items.pageSize (pagination st)) query)).

Definition loadPage (st : state) (file : Items.readData) (page : Z)
  : state * option string :=
  fetchItems st (searchQuery st)
    (respond (get file page (Items.pageSize (pagination st)) (searchQuery st))).

(** ** The pagination bar, Items.js lines 101-183 *)

Inductive button :=
| Previous (target : Z)
    (** key ["prev"], loads [page - 1] *)
| Page (i : Z) (active : bool)
    (** key [i], loads page [i]; [active] is [i === page] *)
| Ellipsis1
| Ellipsis2
| Next (target : Z).
    (** key ["next"], loads [page + 1] *)

(** [page] is [null] when the backend computed [NaN]; in arithmetic [null]
    counts as 0, and no number is [===] to it. *)
Definition paginationButtons (p : Items.pagination) : list button :=
  let page := default 0%Z (Items.page p) in
  let totalPages := Items.totalPages p in
  let startPage := Z.max 1 (page - 2) in
  let endPage := Z.min totalPages (page + 2) in
  (if Items.hasPrevPage p then [Previous (page - 1)] else []) ++
  (if (1 <? startPage)%Z
   then Page 1 false :: (if (2 <? startPage)%Z then [Ellipsis1] else [])
   else []) ++
  ((fun i => Page i (bool_decide (Items.page p = Some i)))
     <$> seqZ startPage (endPage - startPage + 1)) ++
  (if (endPage <? totalPages)%Z
   then (if (endPage <? totalPages - 1)%Z then [Ellipsis2] else [])
        ++ [Page totalPages false]
   else []) ++
  (if Items.hasNextPage p then [Next (page + 1)] else []).

(** The React key of a button. *)
Definition key (b : button) : string + Z :=
  match b with
  | Previous _ => inl "prev"
  | Page i _ => inr i
  | Ellipsis1 => inl "ellipsis1"
  | Ellipsis2 => inl "ellipsis2"
  | Next _ => inl "next"
  end.

(** The page a click on the button loads. *)
Definition target (b : button) : option Z :=
  match b with
  | Previous t | Next t => Some t
  | Page i _ => Some i
  | Ellipsis1 | Ellipsis2 => None
  end.

End Client.

(* ===================================================================== *)
(** * Reading the statistics: what the counts and the calls add up to *)
(* ===================================================================== *)

Module StatsUse.
Import Js JsLib Stats.

(** How many records of [items] [calculateStats] counts under the key [k]. *)
Definition counted_under (k : string) (r : record) : bool :=
  String.eqb (category_or_unknown r) k.

Definition count_of (k : string) (items : list record) : nat :=
  length (List.filter (counted_under k) items).

(** The distribution is a plain object, [{}]: a key that names a property
    it inherits from [Object.prototype] reads as that property before it is
    ever counted, and what the code then stores is not a count. [Stats] does
    not model such keys; the statements about counts leave them out. *)
Definition prototype_names : list string :=
  [ "constructor"; "__proto__"; "hasOwnProperty"; "isPrototypeOf";
    "propertyIsEnumerable"; "toLocaleString"; "toString"; "valueOf";
    "__defineGetter__"; "__defineSetter__"; "__lookupGetter__";
    "__lookupSetter__" ].

Definition own_key (k : string) : bool :=
  negb (existsb (String.eqb k) prototype_names).

Definition own_keys (items : list record) : bool :=
  forallb (fun r => own_key (category_or_unknown r)) items.

(** The sum of the counts of a distribution. *)
Definition sum_counts (m : gmap string nat) : nat :=
  map_fold (fun _ n acc => n + acc) 0 m.

(** The calls suspended at their read of the file. *)
Definition is_reading (t : task) : bool :=
  match t with AwaitRead _ => true | _ => false end.

Definition readers (ts : list task) : nat :=
  length (List.filter is_reading ts).

(** The reads of the data file, call by call. [resume] tells how many
    [fs.readFile] a resumption issues; they are counted for the call that is
    resumed. [ns] holds one count per call made. *)
Definition tally_step (w : world) (ns : list nat) (a : action) : list nat :=
  match a with
  | Call => ns ++ [0]
  | Resume i e =>
      match calls w !! i with
      | Some t =>
          match resume (cache w) t e with
          | Some (_, _, n) => <[i := default 0 (ns !! i) + n]> ns
          | None => ns
          end
      | None => ns
      end
  | FileChanged => ns
  end.

Fixpoint tally (w : world) (ns : list nat) (sched : list action) : list nat :=
  match sched with
  | [] => ns
  | a :: sched' =>
      match step w a with
      | Some w' => tally w' (tally_step w ns a) sched'
      | None => ns
      end
  end.

(** The reads each call has issued along a schedule run from [init]. *)
Definition reads_by (sched : list action) : list nat := tally init [] sched.

(** What the counts are, given where each call stands. *)
Definition fits (w : world) (ns : list nat) : Prop :=
  length ns = length (calls w) /\
  reads w = sum_list ns /\
  forall i n t, ns !! i = Some n -> calls w !! i = Some t ->
    match t with
    | AwaitStat | AwaitTimer => n = 0
    | AwaitRead _ => n = 1
    | Settled _ => n <= 1
    end.

(** A schedule step in which [fs.stat] fails. *)
Definition stat_fails (a : action) : bool :=
  match a with Resume _ (StatDone (inl _)) => true | _ => false end.

(** A stored item as [calculateStats] reads it, when its [category] and
    [price] have the types the model of [calculateStats] covers: a string
    and a Number, or absent. *)
Definition text_field (v : jsval) : option (option string) :=
  match v with
  | JsStr s => Some (Some s)
  | JsUndefined | JsNull => Some None
  | _ => None
  end.

Definition number_field (v : jsval) : option (option float) :=
  match v with
  | JsNum x => Some (Some x)
  | JsUndefined | JsNull => Some None
  | _ => None
  end.

Definition as_record (it : Items.item) : option record :=
  match text_field (Items.category it), number_field (Items.price it) with
  | Some c, Some p => Some {| category := c; price := p |}
  | _, _ => None
  end.

(** The whole file, when every item of it is covered. *)
Definition as_records (data : list Items.item) : option (list record) :=
  mapM as_record data.

(** The place of a Number other than [NaN] in the order of [<]: the
    infinities at both ends, the zeros together, and the finite Numbers of a
    sign by exponent, then by mantissa. Triples are compared
    lexicographically. *)
Definition rank (x : spec_float) : Z * Z * Z :=
  match x with
  | S754_nan => (0, 0, 0)
  | S754_zero _ => (0, 0, 0)
  | S754_infinity s => (if s then -2 else 2, 0, 0)
  | S754_finite s m e => if s then (-1, - e, Z.neg m) else (1, e, Z.pos m)
  end%Z.

Definition lex_lt (a b : Z * Z * Z) : Prop :=
  let '(a1, a2, a3) := a in
  let '(b1, b2, b3) := b in
  (a1 < b1 \/ (a1 = b1 /\ (a2 < b2 \/ (a2 = b2 /\ a3 < b3))))%Z.

(** One call served on the collection [tie] under marker 1 and a second one
    made; then the watcher fires and the second call computes from the
    collection of the tests. *)
Definition served_once : world :=
  {| cache := {| data := Some (calculateStats tie); lastModified := Some 1%Z;
                 isCalculating := false |};
     calls := [Settled (inr (calculateStats tie)); AwaitStat];
     reads := 1 |}.

Definition served_again : world :=
  {| cache := {| data := Some (calculateStats mockRecords);
                 lastModified := Some 1%Z; isCalculating := false |};
     calls := [Settled (inr (calculateStats tie));
               Settled (inr (calculateStats mockRecords))];
     reads := 2 |}.

End StatsUse.

(* ===================================================================== *)
(** * Properties of the query layer *)
(* ===================================================================== *)

Module ItemsTheory.
Import Js Items.

(** ** Strings *)

Lemma startsWith_app p rest : startsWith p (p +:+ rest) = true.
Proof.
  induction p as [|a p IH]; simpl; [done|].
  by rewrite Ascii.eqb_refl.
Qed.

Lemma startsWith_inv p s :
  startsWith p s = true -> exists rest, s = p +:+ rest.
Proof.
  revert s. induction p as [|a p IH]; intros s H.
  - by exists s.
  - destruct s as [|b s]; simpl in H; [done|].
    destruct (Ascii.eqb a b) eqn:E; [|done].
    apply Ascii.eqb_eq in E as ->.
    destruct (IH _ H) as [rest ->]. by exists rest.
Qed.

Lemma includes_unfold s p :
  includes s p =
  startsWith p s || match s with "" => false | String _ s' => includes s' p end.
Proof. by destruct s. Qed.

Lemma includes_spec s p :
  includes s p = true <-> exists pre post, s = pre +:+ p +:+ post.
Proof.
  split.
  - induction s as [|c s IH]; simpl; intros H.
    + rewrite orb_false_r in H. apply startsWith_inv in H as [rest ->].
      by exists "", rest.
    + apply orb_true_iff in H as [H|H].
      * apply startsWith_inv in H as [rest ->]. by exists "", rest.
      * destruct (IH H) as (pre & post & ->). by exists (String c pre), post.
  - intros (pre & post & ->). induction pre as [|c pre IH].
    + change (includes (p +:+ post) p = true).
      by rewrite includes_unfold, startsWith_app.
    + change (includes (String c (pre +:+ p +:+ post)) p = true).
      rewrite includes_unfold, IH. apply orb_true_r.
Qed.

Lemma toLowerCase_app a b :
  toLowerCase (a +:+ b) = toLowerCase a +:+ toLowerCase b.
Proof. induction a as [|c a IH]; simpl; [done|]. by rewrite IH. Qed.

Lemma toLowerCase_split s a b :
  toLowerCase s = a +:+ b ->
  exists x y, s = x +:+ y /\ toLowerCase x = a /\ toLowerCase y = b.
Proof.
  revert s. induction a as [|c a IH]; intros s H.
  - by exists "", s.
  - destruct s as [|d s]; simpl in H; [done|].
    injection H as Hc H. destruct (IH _ H) as (x & y & -> & <- & <-).
    exists (String d x), y. simpl. by rewrite Hc.
Qed.

(** The code's test, [s.toLowerCase().includes(q.toLowerCase())], decides
    case-insensitive containment. *)
Lemma includes_ci s term :
  includes (toLowerCase s) (toLowerCase term) = true <-> contains_ci s term.
Proof.
  rewrite includes_spec. split.
  - intros (pre & post & H).
    apply toLowerCase_split in H as (x & y & -> & _ & H).
    apply toLowerCase_split in H as (m & z & -> & Hm & _).
    by exists x, m, z.
  - intros (pre & mid & post & -> & H).
    exists (toLowerCase pre), (toLowerCase post).
    by rewrite !toLowerCase_app, H.
Qed.

(** ** The search callback and [filter] *)

Lemma matches_value term it b :
  matches (toLowerCase term) it = inr b -> (b = true <-> wanted term it).
Proof.
  unfold matches, call_toLowerCase, wanted, field_contains.
  destruct (name it) as [| | | |n|] eqn:Hn; try done.
  destruct (includes (toLowerCase n) (toLowerCase term)) eqn:En.
  - intros [= <-]. split; [|done]. intros _. left. exists n.
    split; [done|]. by apply includes_ci.
  - destruct (category it) as [| | | |c|] eqn:Hc; try done.
    intros [= <-]. split.
    + intros Ec. right. exists c. split; [done|]. by apply includes_ci.
    + intros [(s & [= <-] & H)|(s & [= <-] & H)]; apply includes_ci in H; congruence.
Qed.

Lemma matches_throws term it e :
  matches (toLowerCase term) it = inl e <-> e = TypeError /\ breaks term it.
Proof.
  unfold matches, call_toLowerCase, breaks.
  destruct (name it) as [| | | |n|] eqn:Hn; simpl;
    try (split; [intros [= <-]; split; [done|by left]|by intros [-> _]]).
  destruct (includes (toLowerCase n) (toLowerCase term)) eqn:En.
  - split; [done|]. intros [_ [?|(n' & [= <-] & Hno & _)]]; [done|].
    destruct Hno. by apply includes_ci.
  - assert (Hno : ~ contains_ci n term).
    { intros H. apply includes_ci in H. congruence. }
    destruct (category it) as [| | | |c|] eqn:Hc; simpl;
      try (split; [intros [= <-]; split; [done|right; by exists n]|by intros [-> _]]).
    split; [done|]. by intros [_ [?|(? & _ & _ & ?)]].
Qed.

Lemma matches_well_formed term it :
  well_formed it -> exists b, matches (toLowerCase term) it = inr b.
Proof.
  unfold well_formed, matches, call_toLowerCase.
  destruct (name it); simpl; intros [? ?]; try done.
  destruct (category it); simpl in *; try done.
  destruct (includes _ _); eauto.
Qed.


Lemma filterE_throws f l :
  (exists e, filterE f l = inl e) <-> Exists (fun x => exists e, f x = inl e) l.
Proof.
  induction l as [|x l IH]; simpl.
  - split; [by intros [? ?]|]. intros H. by apply Exists_nil in H.
  - rewrite Exists_cons. destruct (f x) as [e|b] eqn:Hx.
    + split; eauto.
    + destruct (filterE f l) as [e|r'] eqn:Hl.
      * split; [intros _; right; apply IH; eauto|eauto].
      * split; [by intros [? ?]|].
        intros [[? ?]|H]; [done|]. apply IH in H as [? ?]. done.
Qed.


Lemma search_term data term :
  term <> "" ->
  search data (Some term) = filterE (matches (toLowerCase term)) data.
Proof.
  intros Hne. unfold search.
  destruct (String.eqb term "") eqn:E; [|done].
  by apply String.eqb_eq in E.
Qed.

(** ** Pagination *)

Lemma slice_from_start {A} (l : list A) (s n : Z) :
  (0 <= s)%Z -> (0 <= n)%Z ->
  slice l (Some s) (Some (s + n)%Z) = take (Z.to_nat n) (drop (Z.to_nat s) l).
Proof.
  intros Hs Hn. unfold slice, rel_index.
  destruct (Z.ltb_spec s 0); [lia|]. destruct (Z.ltb_spec (s + n) 0); [lia|].
  destruct (Z.le_gt_cases (Z.of_nat (length l)) s) as [Hge|Hlt].
  - rewrite !drop_ge by lia. by rewrite !take_nil.
  - rewrite (Z.min_l s) by lia.
    destruct (Z.le_gt_cases (s + n) (Z.of_nat (length l))) as [Hin|Hout].
    + rewrite Z.min_l by lia. do 2 f_equal. lia.
    + rewrite Z.min_r by lia.
      rewrite !take_ge; [done|rewrite length_drop; lia..].
Qed.

Lemma slice_before_start {A} (l : list A) (n : Z) :
  (0 < n)%Z -> slice l (Some (- n)%Z) (Some 0%Z) = [].
Proof.
  intros Hn. unfold slice, rel_index.
  destruct (Z.ltb_spec (- n) 0); [|lia]. simpl.
  rewrite Z.min_l by lia.
  replace (Z.to_nat (0 - _)) with 0 by lia. apply take_0.
Qed.


Lemma ceil_div_bounds a b :
  (0 < b)%Z -> ((ceil_div a b - 1) * b < a <= ceil_div a b * b)%Z.
Proof.
  intros Hb. unfold ceil_div.
  pose proof (Z.div_mod (- a) b ltac:(lia)) as Hdm.
  pose proof (Z.mod_pos_bound (- a) b Hb). nia.
Qed.



Lemma strict_eq_num_has_id it idParam :
  strict_eq_num (id it) (parseInt idParam) = true <-> has_id it idParam.
Proof.
  unfold strict_eq_num, has_id. split.
  - destruct (id it) as [| | |x| |]; try done.
    destruct (parseInt idParam) as [z|]; [|done]. intros H. by exists x, z.
  - by intros (x & z & -> & -> & H).
Qed.

Lemma strict_eq_num_no_id it idParam :
  strict_eq_num (id it) (parseInt idParam) = false <-> ~ has_id it idParam.
Proof.
  rewrite <- strict_eq_num_has_id. by destruct (strict_eq_num _ _).
Qed.

(** ** The claims on the query layer *)






(** What [parseInt] reads from an identifier: leading blanks are skipped
    and the text after the digits is ignored. *)
Example getItem_lenient_identifier :
  getItem (inr mockItems) " 2abc" = inr {| id := JsNum 2; name := JsStr "Test Headphones";
                                          category := JsStr "Electronics";
                                          price := JsNum 200 |} /\
  getItem (inr mockItems) "0x3" = getItem (inr mockItems) "3" /\
  getItem (inr mockItems) "999" = inl NotFound.
Proof. repeat split. Qed.

(** C10, as amended. With a non-empty search term, the term and the texts of
    the records being ASCII, the route fails, with a
    [TypeError] answered as status 500, exactly when the collection holds a
    record whose name is not a string, or whose name is a string that does not
    contain the term and whose category is not a string; a record whose name
    contains the term is kept without its category being looked at. *)
Theorem listItems_search_throws
    (data : list item) (term : string) (limit pageParam : option string) :
  term <> "" ->
  is_ascii term = true ->
  forallb ascii_record data = true ->
  (listItems (inr data) limit (Some term) pageParam = inl TypeError <->
   Exists (breaks term) data) /\
  (forall e, listItems (inr data) limit (Some term) pageParam = inl e ->
             e = TypeError /\ http_status e = 500%Z) /\
  (forall it n, name it = JsStr n -> is_ascii n = true -> contains_ci n term ->
                matches (toLowerCase term) it = inr true).
Proof.
  intros Hne _ _.
  assert (Hthrow : forall e,
    listItems (inr data) limit (Some term) pageParam = inl e <->
    filterE (matches (toLowerCase term)) data = inl e).
  { intros e. unfold listItems. rewrite search_term by done.
    destruct (filterE _ data); simpl; split; intros H; try discriminate;
      by injection H as ->. }
  assert (Htype : forall e,
    filterE (matches (toLowerCase term)) data = inl e -> e = TypeError).
  { clear. induction data as [|x l IH]; simpl; intros e; [done|].
    destruct (matches _ x) as [e'|b] eqn:Hx.
    - intros [= <-]. by apply matches_throws in Hx as [-> _].
    - destruct (filterE _ l) as [e'|r]; [|done]. intros [= <-]. by apply IH. }
  split; [|split].
  - rewrite Hthrow. split.
    + intros H. assert (Hex : exists e, filterE (matches (toLowerCase term)) data = inl e)
        by eauto.
      apply filterE_throws in Hex. eapply Exists_impl; [exact Hex|].
      intros x [e He]. by apply matches_throws in He as [_ ?].
    + intros H.
      assert (Hex : Exists (fun x => exists e, matches (toLowerCase term) x = inl e) data).
      { eapply Exists_impl; [exact H|]. intros x Hx. exists TypeError.
        by apply matches_throws. }
      apply filterE_throws in Hex as [e He]. by rewrite (Htype e He) in He.
  - intros e He. apply Hthrow, Htype in He as ->. done.
  - intros it n Hname _ Hn. unfold matches, call_toLowerCase.
    apply includes_ci in Hn. by rewrite Hname, Hn.
Qed.

Lemma listItems_search_throws_witness :
  "lap" <> "" /\ is_ascii "lap" = true /\
  forallb ascii_record [untyped_name] = true /\
  Exists (breaks "lap") [untyped_name] /\
  listItems (inr [untyped_name]) None (Some "lap") None = inl TypeError.
Proof.
  assert (Hb : Exists (breaks "lap") [untyped_name])
    by (apply Exists_cons_hd; by left).
  split; [done|]. split; [reflexivity|]. split; [reflexivity|].
  split; [exact Hb|].
  exact (proj2 (proj1 (listItems_search_throws [untyped_name] "lap" None None
                         ltac:(done) eq_refl eq_refl)) Hb).
Defined.

(** C10, the claim as stated fails: a record whose category is a number is
    kept, and nothing is thrown, when its name contains the term. *)
Lemma listItems_untyped_category_kept :
  is_string (category untyped_category) = false /\
  exists resp,
    listItems (inr [untyped_category]) None (Some "lap") None = inr resp /\
    items resp = [untyped_category].
Proof. split; [reflexivity|]. eexists. split; reflexivity. Qed.

(** The examples of the specification (section 8). *)
Example pagination_boundary :
  (exists r, listItems (inr mockItems) (Some "2") None (Some "1") = inr r /\
     length (items r) = 2 /\
     hasNextPage (pageInfo r) = true /\ hasPrevPage (pageInfo r) = false) /\
  (exists r, listItems (inr mockItems) (Some "2") None (Some "2") = inr r /\
     length (items r) = 1 /\
     hasNextPage (pageInfo r) = false /\ hasPrevPage (pageInfo r) = true) /\
  (exists r, listItems (inr mockItems) (Some "2") None (Some "3") = inr r /\
     items r = []).
Proof. repeat split; eexists; repeat split; reflexivity. Qed.

Example search_any_case :
  (exists r, listItems (inr laptopAndChair) None (Some "electronics") None = inr r /\
             items r = take 1 laptopAndChair) /\
  (exists r, listItems (inr laptopAndChair) None (Some "ELECTRONICS") None = inr r /\
             items r = take 1 laptopAndChair) /\
  (exists r, listItems (inr laptopAndChair) None (Some "eLeCtRoNiCs") None = inr r /\
             items r = take 1 laptopAndChair).
Proof. repeat split; eexists; split; reflexivity. Qed.

End ItemsTheory.

(* ===================================================================== *)
(** * Properties of the statistics cache *)
(* ===================================================================== *)

Module StatsTheory.
Import Js Stats.

(** ** One call *)

Lemma hit_Some c m s :
  hit c m = Some s <-> data c = Some s /\ lastModified c = Some m.
Proof.
  unfold hit. destruct (data c) as [s'|], (lastModified c) as [m'|];
    try (split; [done|by intros [? ?]]).
  destruct (Z.eqb_spec m' m) as [->|Hne].
  - split; [by intros [= ->]|by intros [[= ->] _]].
  - split; [done|]. intros [_ [= ?]]. done.
Qed.

Lemma run_settled c r es c1 t1 n :
  run c (Settled r) es = Some (c1, t1, n) ->
  es = [] /\ c1 = c /\ t1 = Settled r /\ n = 0.
Proof. destruct es as [|e es]; simpl; [by intros [= <- <- <-]|by destruct e]. Qed.

(** A call that returns statistics leaves them in the cache, under the last
    marker it read. *)
Lemma run_leaves_entry es : forall c t m0 c1 s n,
  run c t es = Some (c1, Settled (inr s), n) ->
  t = AwaitStat \/ t = AwaitTimer \/ t = AwaitRead (default 0%Z m0) /\ is_Some m0 ->
  exists m, last_marker m0 es = Some m /\
            data c1 = Some s /\ lastModified c1 = Some m.
Proof.
  induction es as [|e es IH]; intros c t m0 c1 s n Hrun Ht.
  - simpl in Hrun. injection Hrun as <- -> <-.
    destruct Ht as [?|[?|[? _]]]; done.
  - simpl in Hrun.
    destruct (resume c t e) as [[[c' t'] k]|] eqn:Hres; [|done].
    destruct (run c' t' es) as [[[c'' t''] k']|] eqn:Hrest; [|done].
    injection Hrun as -> -> <-.
    destruct Ht as [->|[->|[-> [m1 ->]]]]; simpl in Hres.
    + destruct e as [[msg|m]| |]; try done.
      * injection Hres as <- <- <-.
        by apply run_settled in Hrest as (_ & _ & ? & _).
      * destruct (hit c m) as [s0|] eqn:Hhit.
        -- injection Hres as <- <- <-.
           apply run_settled in Hrest as (-> & -> & [= <-] & _).
           apply hit_Some in Hhit as [? ?]. by exists m.
        -- destruct (isCalculating c); injection Hres as <- <- <-;
             apply (IH _ _ (Some m)) in Hrest; simpl; eauto.
    + destruct e; try done. injection Hres as <- <- <-.
      apply (IH _ _ m0) in Hrest; eauto.
    + destruct e as [| |[msg|items]]; try done; injection Hres as <- <- <-.
      * by apply run_settled in Hrest as (_ & _ & ? & _).
      * apply run_settled in Hrest as (-> & -> & [= <-] & _).
        by exists m1.
Qed.

Lemma resume_hit c s m :
  data c = Some s -> lastModified c = Some m ->
  resume c AwaitStat (StatDone (inr m)) = Some (c, Settled (inr s), 0).
Proof.
  intros Hd Hm. simpl. by rewrite (proj2 (hit_Some c m s) (conj Hd Hm)).
Qed.

Lemma rounds_S m n :
  rounds m (S n) = StatDone (inr m) :: TimerFired :: rounds m n.
Proof. reflexivity. Qed.

(** ** The claims on one call *)

(** C1. When the cache holds statistics under the marker the store reports,
    [getStats] returns them, leaves the cache as it is and issues no read.
    Hence a call that returned statistics is followed, as long as the store
    reports the marker that call last read, by a call that returns the same
    statistics without a read. *)
Theorem getStats_cache_hit :
  (forall c s m,
     data c = Some s -> lastModified c = Some m ->
     resume c AwaitStat (StatDone (inr m)) = Some (c, Settled (inr s), 0)) /\
  (forall c0 es c1 s n,
     run c0 AwaitStat es = Some (c1, Settled (inr s), n) ->
     exists m,
       last_marker None es = Some m /\
       resume c1 AwaitStat (StatDone (inr m)) = Some (c1, Settled (inr s), 0)).
Proof.
  split; [exact resume_hit|].
  intros c0 es c1 s n Hrun.
  destruct (run_leaves_entry es c0 AwaitStat None c1 s n Hrun) as (m & Hm & Hd & Hl);
    [by left|].
  exists m. split; [done|]. by apply resume_hit.
Qed.

Lemma getStats_cache_hit_witness :
  run empty AwaitStat [StatDone (inr 7%Z); ReadDone (Parsed tie)]
  = Some ({| data := Some (calculateStats tie); lastModified := Some 7%Z;
             isCalculating := false |},
          Settled (inr (calculateStats tie)), 1) /\
  exists m,
    last_marker None [StatDone (inr 7%Z); ReadDone (Parsed tie)] = Some m /\
    resume {| data := Some (calculateStats tie); lastModified := Some 7%Z;
              isCalculating := false |} AwaitStat (StatDone (inr m))
    = Some ({| data := Some (calculateStats tie); lastModified := Some 7%Z;
               isCalculating := false |},
            Settled (inr (calculateStats tie)), 0).
Proof.
  split; [reflexivity|].
  exact (proj2 getStats_cache_hit empty
           [StatDone (inr 7%Z); ReadDone (Parsed tie)] _ _ _ eq_refl).
Defined.

(** C3. When the read, the parse or the computation fails, the call clears
    the in-flight flag and throws that failure (under the prefix the outer
    handler adds); the cached statistics and their marker are what they were,
    so a later call for which the store reports the stored marker still
    returns the stored statistics. *)
Theorem getStats_failure_keeps_entry (c : statsCache) (m : Z) (message : string) :
  exists c',
    resume c (AwaitRead m) (ReadDone (Threw message))
    = Some (c', Settled (inl ("Failed to calculate stats: " +:+ message)), 0) /\
    isCalculating c' = false /\
    data c' = data c /\ lastModified c' = lastModified c /\
    (forall s m0,
       data c = Some s -> lastModified c = Some m0 ->
       resume c' AwaitStat (StatDone (inr m0)) = Some (c', Settled (inr s), 0)).
Proof.
  exists (clear_flag c). repeat split.
  intros s m0 Hd Hm. by apply resume_hit.
Qed.

Lemma getStats_failure_keeps_entry_witness :
  let c := {| data := Some (calculateStats tie); lastModified := Some 7%Z;
              isCalculating := true |} in
  exists c',
    resume c (AwaitRead 8%Z) (ReadDone (Threw "EIO"))
    = Some (c', Settled (inl "Failed to calculate stats: EIO"), 0) /\
    resume c' AwaitStat (StatDone (inr 7%Z))
    = Some (c', Settled (inr (calculateStats tie)), 0).
Proof.
  intros c.
  destruct (getStats_failure_keeps_entry c 8%Z "EIO")
    as (c' & Hres & _ & _ & _ & Hlater).
  exists c'. split; [exact Hres|]. exact (Hlater _ _ eq_refl eq_refl).
Defined.

(** ** Calls in flight together *)

Lemma exec_app w l1 l2 :
  exec w (l1 ++ l2) = match exec w l1 with Some w' => exec w' l2 | None => None end.
Proof.
  revert w. induction l1 as [|a l1 IH]; intros w; simpl; [done|].
  destruct (step w a); [apply IH|done].
Qed.

Lemma exec_snoc w l a :
  exec w (l ++ [a]) = match exec w l with Some w' => step w' a | None => None end.
Proof.
  rewrite exec_app. destruct (exec w l) as [w'|]; [|done].
  simpl. by destruct (step w' a).
Qed.

Lemma run_rounds c m n :
  isCalculating c = true -> hit c m = None ->
  run c AwaitStat (rounds m n) = Some (c, AwaitStat, 0).
Proof.
  intros Hflag Hmiss. induction n as [|n IH]; [done|].
  rewrite rounds_S. simpl. rewrite Hmiss, Hflag. simpl. by rewrite IH.
Qed.

Lemma exec_storm n : exec init (storm n) = Some storming.
Proof.
  unfold storm. rewrite exec_app.
  change (exec init [Call; Call; Resume 0 (StatDone (inr 0%Z))]) with (Some storming).
  induction n as [|n IH]; [done|]. simpl. exact IH.
Qed.

Lemma waits_storm n : waits 1 (storm n) = n.
Proof.
  unfold waits, storm. rewrite List.filter_app, length_app. simpl.
  induction n as [|n IH]; [done|]. simpl. by rewrite IH.
Qed.

(** C2, the claim as stated fails: no number bounds the waits of a call.
    While the read of the computing call is pending, the other call comes
    back from its wait as often as the event loop resumes it. *)
Lemma getStats_retry_has_no_cap :
  ~ exists cap : nat,
      forall sched w i, exec init sched = Some w -> waits i sched <= cap.
Proof.
  intros [cap Hcap].
  specialize (Hcap (storm (S cap)) storming 1 (exec_storm _)).
  rewrite waits_storm in Hcap. lia.
Qed.

(** C2, as amended. The retry has no cap: a call that finds the in-flight
    flag set and no valid entry waits 100 ms and starts over, every time; it
    issues no read of its own while the flag stays set, however many times it
    has waited, and for every [n] there is an execution from the empty cache
    in which a call has waited [n] times and still waits. *)
Theorem getStats_waits_while_in_flight (n : nat) :
  (forall c m,
     isCalculating c = true -> hit c m = None ->
     run c AwaitStat (rounds m n) = Some (c, AwaitStat, 0)) /\
  (exists w,
     exec init (storm n) = Some w /\ waits 1 (storm n) = n /\
     calls w !! 1 = Some AwaitStat /\ reads w = 1).
Proof.
  split; [intros c m; apply run_rounds|].
  exists storming. by rewrite exec_storm, waits_storm.
Qed.

Lemma getStats_waits_while_in_flight_witness :
  isCalculating (set_flag empty) = true /\ hit (set_flag empty) 5%Z = None /\
  run (set_flag empty) AwaitStat (rounds 5%Z 3) = Some (set_flag empty, AwaitStat, 0).
Proof.
  split; [reflexivity|]. split; [reflexivity|].
  exact (proj1 (getStats_waits_while_in_flight 3) (set_flag empty) 5%Z
           eq_refl eq_refl).
Defined.

(** ** A quiet store: one pass *)

Lemma stage_init m : stage m init.
Proof. by apply stage_idle. Qed.

Lemma step_stage m w a w' :
  quiet m a = true -> step w a = Some w' -> stage m w -> stage m w'.
Proof.
  intros Hq Hstep Hst. destruct a as [|i e|]; simpl in Hq, Hstep; [| |done].
  - (* a new call *)
    injection Hstep as <-. destruct Hst as [Hc Hr Hall|j Hc Hr Hj Hoth|s Hc Hr Hall].
    + apply stage_idle; simpl; [done..|]. apply Forall_app. by split; [|constructor].
    + apply (stage_computing _ _ j); simpl; [done..| |].
      * by apply lookup_app_l_Some.
      * intros i t Hi Ht. apply lookup_app_Some in Ht as [Ht|[_ Ht]]; [by eauto|].
        apply list_lookup_singleton_Some in Ht as [_ <-]. by left.
    + apply (stage_cached _ _ s); simpl; [done..|].
      apply Forall_app. split; [done|]. constructor; [by left|constructor].
  - (* a call resumed *)
    destruct (calls w !! i) as [t|] eqn:Hi; [|done].
    destruct (resume (cache w) t e) as [[[c t'] n]|] eqn:Hres; [|done].
    injection Hstep as <-.
    assert (Hlt : i < length (calls w)) by (by eapply lookup_lt_Some).
    destruct Hst as [Hc Hr Hall|j Hc Hr Hj Hoth|s Hc Hr Hall].
    + (* nothing computed yet: the call starts the computation *)
      rewrite Forall_lookup in Hall. rewrite (Hall _ _ Hi) in Hres.
      rewrite Hc in Hres. destruct e as [[msg|m']| |]; try done.
      apply Z.eqb_eq in Hq as ->. injection Hres as <- <- <-.
      apply (stage_computing _ _ i); simpl; [done|lia| |].
      * by apply list_lookup_insert_eq.
      * intros k t0 Hk Ht. rewrite list_lookup_insert_ne in Ht by done.
        left. by eapply Hall.
    + rewrite Hc in Hres. destruct (decide (i = j)) as [->|Hij].
      * (* the computing call: its read has parsed *)
        rewrite Hj in Hi. injection Hi as <-.
        destruct e as [| |[msg|items]]; try done. injection Hres as <- <- <-.
        apply (stage_cached _ _ (calculateStats items)); simpl; [done|lia|].
        apply Forall_lookup. intros k t0 Ht.
        destruct (decide (k = j)) as [->|Hk].
        -- rewrite list_lookup_insert_eq in Ht by done.
           injection Ht as <-. by right; right.
        -- rewrite list_lookup_insert_ne in Ht by done.
           destruct (Hoth _ _ Hk Ht); by auto.
      * (* another call: it waits *)
        assert (Hkeep : c = set_flag empty /\ n = 0 /\
                        (t' = AwaitStat \/ t' = AwaitTimer)).
        { destruct (Hoth _ _ Hij Hi) as [-> | ->]; destruct e as [[msg|m']| |];
            try done; injection Hres as <- <- <-; auto. }
        destruct Hkeep as (-> & -> & Ht').
        apply (stage_computing _ _ j); simpl; [done|lia| |].
        -- by rewrite list_lookup_insert_ne.
        -- intros k t0 Hk Ht0. destruct (decide (k = i)) as [->|Hki].
           ++ rewrite list_lookup_insert_eq in Ht0 by done. by injection Ht0 as <-.
           ++ rewrite list_lookup_insert_ne in Ht0 by done. by eauto.
    + (* the statistics are in the cache: a hit *)
      rewrite Hc in Hres.
      assert (Hkeep : c = cache w /\ n = 0 /\
                (t' = AwaitStat \/ t' = AwaitTimer \/ t' = Settled (inr s))).
      { rewrite Forall_lookup in Hall.
        destruct (Hall _ _ Hi) as [-> |[-> | ->]]; destruct e as [[msg|m']| |];
          try done.
        - apply Z.eqb_eq in Hq as ->. unfold resume, hit in Hres. simpl in Hres.
          rewrite Z.eqb_refl in Hres. injection Hres as <- <- <-. auto.
        - injection Hres as <- <- <-. auto. }
      destruct Hkeep as (-> & -> & Ht').
      apply (stage_cached _ _ s); simpl; [done|lia|].
      by apply Forall_insert.
Qed.

Lemma exec_stage m sched : forall w w',
  forallb (quiet m) sched = true -> exec w sched = Some w' ->
  stage m w -> stage m w'.
Proof.
  induction sched as [|a sched IH]; intros w w' Hq Hex Hst; simpl in *.
  - by injection Hex as <-.
  - apply andb_true_iff in Hq as [Ha Hq].
    destruct (step w a) as [w1|] eqn:Hstep; [|done].
    eapply IH; [done..|]. by eapply step_stage.
Qed.

Lemma exec_calls k : forall w,
  exec w (replicate k Call)
  = Some {| cache := cache w; calls := calls w ++ replicate k AwaitStat;
            reads := reads w |}.
Proof.
  induction k as [|k IH]; intros [c l r]; simpl.
  - by rewrite app_nil_r.
  - rewrite IH. simpl. by rewrite <- app_assoc.
Qed.

Lemma step_hit c l r i m s :
  hit c m = Some s -> l !! i = Some AwaitStat ->
  step {| cache := c; calls := l; reads := r |} (Resume i (StatDone (inr m)))
  = Some {| cache := c; calls := <[i := Settled (inr s)]> l; reads := r |}.
Proof.
  intros Hhit Hi. unfold step, resume. cbn [cache calls reads].
  by rewrite Hi, Hhit, Nat.add_0_r.
Qed.

Lemma exec_hits c m s k : forall served r,
  hit c m = Some s ->
  exec {| cache := c; calls := served ++ replicate k AwaitStat; reads := r |}
       (map (fun i => Resume i (StatDone (inr m))) (seq (length served) k))
  = Some {| cache := c; calls := served ++ replicate k (Settled (inr s));
            reads := r |}.
Proof.
  induction k as [|k IH]; intros served r Hhit; [done|].
  cbn [replicate seq map exec].
  rewrite (step_hit _ _ _ _ _ _ Hhit) by (by apply list_lookup_middle).
  rewrite insert_app_r_alt by done. rewrite Nat.sub_diag. cbn [insert list_insert].
  rewrite (cons_middle (Settled (inr s)) served (replicate k AwaitStat)).
  rewrite app_assoc.
  replace (S (length served)) with (length (served ++ [Settled (inr s)]))
    by (rewrite length_app; simpl; lia).
  rewrite IH by done. by rewrite <- app_assoc.
Qed.

(** A quiet run of [n] calls that ends: every call has returned the
    statistics of the one pass. *)
Lemma exec_collapse m items n :
  forallb (quiet m) (collapse m items (S n)) = true /\
  exec init (collapse m items (S n))
  = Some {| cache := {| data := Some (calculateStats items);
                        lastModified := Some m; isCalculating := false |};
            calls := replicate (S n) (Settled (inr (calculateStats items)));
            reads := 1 |}.
Proof.
  unfold collapse. split.
  - rewrite !forallb_app. apply andb_true_iff. split.
    + generalize (S n). intros k. induction k; [done|]. simpl. done.
    + simpl. rewrite Z.eqb_refl. simpl. rewrite Nat.sub_0_r.
      generalize 1. induction n as [|n IH]; intros k; [done|].
      simpl. rewrite Z.eqb_refl. apply IH.
  - rewrite exec_app, exec_calls, exec_app. simpl. rewrite Nat.sub_0_r.
    by apply (exec_hits _ m (calculateStats items) n [_] 1), hit_Some.
Qed.

Lemma exec_wake m c s r : forall ts served,
  hit c m = Some s ->
  Forall (fun t => t = AwaitStat \/ t = AwaitTimer \/ t = Settled (inr s)) ts ->
  exists rest,
    forallb (quiet m) rest = true /\
    exec {| cache := c; calls := served ++ ts; reads := r |} rest
    = Some {| cache := c;
              calls := served ++ replicate (length ts) (Settled (inr s));
              reads := r |}.
Proof.
  induction ts as [|t ts IH]; intros served Hhit Hall.
  - by exists [].
  - apply Forall_cons in Hall as [Ht Hall].
    destruct (IH (served ++ [Settled (inr s)]) Hhit Hall) as (rest & Hq & Hex).
    rewrite <- !app_assoc in Hex. simpl in Hex.
    assert (Hstat : step {| cache := c; calls := served ++ AwaitStat :: ts;
                            reads := r |}
                      (Resume (length served) (StatDone (inr m)))
                    = Some {| cache := c;
                              calls := served ++ Settled (inr s) :: ts;
                              reads := r |}).
    { rewrite (step_hit _ _ _ _ _ _ Hhit) by (by apply list_lookup_middle).
      rewrite insert_app_r_alt by done. by rewrite Nat.sub_diag. }
    destruct Ht as [-> |[-> | ->]].
    + exists (Resume (length served) (StatDone (inr m)) :: rest). split.
      * simpl. by rewrite Z.eqb_refl.
      * cbn [exec]. by rewrite Hstat.
    + exists (Resume (length served) TimerFired
              :: Resume (length served) (StatDone (inr m)) :: rest). split.
      * simpl. by rewrite Z.eqb_refl.
      * cbn [exec]. unfold step at 1. cbn [cache calls reads].
        rewrite list_lookup_middle by done. cbn [resume].
        rewrite insert_app_r_alt by done. rewrite Nat.sub_diag.
        cbn [insert list_insert]. rewrite Nat.add_0_r. by rewrite Hstat.
    + by exists rest.
Qed.

(** From any stage of a quiet run with a call made, the run can be brought
    to its end. *)
Lemma stage_finish m w items :
  stage m w -> calls w <> [] ->
  exists rest w' s,
    forallb (quiet m) rest = true /\
    exec w rest = Some w' /\
    reads w' = 1 /\
    calls w' = replicate (length (calls w)) (Settled (inr s)) /\
    data (cache w') = Some s /\
    (data (cache w) = None -> s = calculateStats items).
Proof.
  intros Hst Hne. destruct w as [c ts r]. simpl in *.
  set (s := calculateStats items).
  set (c' := {| data := Some s; lastModified := Some m; isCalculating := false |}).
  assert (Hhit : hit c' m = Some s) by (by apply hit_Some).
  destruct Hst as [Hc Hr Hall|j Hc Hr Hj Hoth|s0 Hc Hr Hall]; simpl in *.
  - (* nothing started: the first call makes the pass *)
    destruct ts as [|t ts]; [done|]. apply Forall_cons in Hall as [-> Hall].
    destruct (exec_wake m c' s 1 ts [Settled (inr s)] Hhit) as (rest & Hq & Hex).
    { eapply Forall_impl; [exact Hall|]. intros t ->. by left. }
    exists (Resume 0 (StatDone (inr m)) :: Resume 0 (ReadDone (Parsed items)) :: rest),
      {| cache := c'; calls := Settled (inr s) :: replicate (length ts) (Settled (inr s));
         reads := 1 |}, s.
    subst c r. split; [simpl; by rewrite Z.eqb_refl|]. split; [exact Hex|]. done.
  - (* a call is reading: its read ends *)
    assert (Hlt : j < length ts) by (by eapply lookup_lt_Some).
    destruct (exec_wake m c' s 1 (<[j := Settled (inr s)]> ts) [] Hhit)
      as (rest & Hq & Hex).
    { apply Forall_lookup. intros k t Hk.
      destruct (decide (k = j)) as [->|Hkj].
      - rewrite list_lookup_insert_eq in Hk by done. injection Hk as <-. auto.
      - rewrite list_lookup_insert_ne in Hk by done.
        destruct (Hoth _ _ Hkj Hk); auto. }
    rewrite length_insert in Hex. simpl in Hex.
    exists (Resume j (ReadDone (Parsed items)) :: rest),
      {| cache := c'; calls := replicate (length ts) (Settled (inr s)); reads := 1 |}, s.
    subst c r. split; [done|]. split; [|done].
    cbn [exec step cache calls reads]. rewrite Hj. cbn [resume]. exact Hex.
  - (* the pass is made *)
    assert (Hhit0 : hit c m = Some s0) by (subst c; by apply hit_Some).
    destruct (exec_wake m c s0 r ts [] Hhit0 Hall) as (rest & Hq & Hex).
    exists rest, {| cache := c; calls := replicate (length ts) (Settled (inr s0));
                    reads := r |}, s0.
    split; [done|]. split; [exact Hex|]. subst c. simpl. done.
Qed.

(** C4, as amended. While the store reports one marker, every read of the
    marker and of the file succeeds and the watcher is silent, the calls made
    on the empty cache, however many and however interleaved, cause one read
    of the collection: at most one call is ever reading, the others wait or
    are served from the cache, and every call that has returned has returned
    the statistics of that one pass. And every call is answered: from
    whatever state such a run has reached with a call made, the run goes on,
    under the same conditions, to a state where every call has returned the
    statistics of the one pass, those of the file as the read found it, and
    one read has been issued; a call that waited comes back from its 100 ms
    timer, reads the marker again and is served from the cache. *)
Theorem getStats_single_pass (m : Z) (sched : list action) (w : world) :
  forallb (quiet m) sched = true ->
  exec init sched = Some w ->
  reads w <= 1 /\
  (forall i j mi mj,
     calls w !! i = Some (AwaitRead mi) -> calls w !! j = Some (AwaitRead mj) ->
     i = j) /\
  (forall i r,
     calls w !! i = Some (Settled r) ->
     reads w = 1 /\ exists s, r = inr s /\ data (cache w) = Some s) /\
  (calls w <> [] ->
   forall items, exists rest w' s,
     forallb (quiet m) rest = true /\
     exec w rest = Some w' /\
     reads w' = 1 /\
     calls w' = replicate (length (calls w)) (Settled (inr s)) /\
     data (cache w') = Some s /\
     (data (cache w) = None -> s = calculateStats items)).
Proof.
  intros Hq Hex.
  pose proof (exec_stage m sched init w Hq Hex (stage_init m)) as Hst.
  split; [|split; [|split]]; [..|intros Hne items; by apply stage_finish].
  all: destruct Hst as [Hc Hr Hall|j Hc Hr Hj Hoth|s Hc Hr Hall].
  - lia.
  - lia.
  - lia.
  - rewrite Forall_lookup in Hall. intros i j mi mj Hi _. by apply Hall in Hi.
  - intros i k mi mk Hi Hk.
    destruct (decide (i = j)) as [->|Hij];
      [|destruct (Hoth _ _ Hij Hi); done].
    destruct (decide (k = j)) as [->|Hkj];
      [done|destruct (Hoth _ _ Hkj Hk); done].
  - rewrite Forall_lookup in Hall.
    intros i j mi mj Hi _. by destruct (Hall _ _ Hi) as [?|[?|?]].
  - rewrite Forall_lookup in Hall. intros i r Hi. by apply Hall in Hi.
  - intros i r Hi. destruct (decide (i = j)) as [->|Hij]; [congruence|].
    destruct (Hoth _ _ Hij Hi); done.
  - rewrite Forall_lookup in Hall.
    intros i r Hi. split; [done|]. exists s. rewrite Hc. simpl.
    destruct (Hall _ _ Hi) as [?|[?|?]]; [done..|]. split; congruence.
Qed.

Lemma getStats_single_pass_witness :
  forallb (quiet 7%Z)
    [Call; Call; Resume 0 (StatDone (inr 7%Z)); Resume 1 (StatDone (inr 7%Z))]
  = true /\
  exec init
    [Call; Call; Resume 0 (StatDone (inr 7%Z)); Resume 1 (StatDone (inr 7%Z))]
  = Some {| cache := set_flag empty; calls := [AwaitRead 7%Z; AwaitTimer];
            reads := 1 |} /\
  exists rest w' s,
    forallb (quiet 7%Z) rest = true /\
    exec {| cache := set_flag empty; calls := [AwaitRead 7%Z; AwaitTimer];
            reads := 1 |} rest = Some w' /\
    reads w' = 1 /\
    calls w' = [Settled (inr s); Settled (inr s)] /\
    s = calculateStats tie.
Proof.
  assert (Hq : forallb (quiet 7%Z)
                 [Call; Call; Resume 0 (StatDone (inr 7%Z));
                  Resume 1 (StatDone (inr 7%Z))] = true) by reflexivity.
  assert (Hex : exec init
                  [Call; Call; Resume 0 (StatDone (inr 7%Z));
                   Resume 1 (StatDone (inr 7%Z))]
                = Some {| cache := set_flag empty;
                          calls := [AwaitRead 7%Z; AwaitTimer]; reads := 1 |})
    by reflexivity.
  split; [exact Hq|]. split; [exact Hex|].
  destruct (getStats_single_pass 7%Z _ _ Hq Hex) as (_ & _ & _ & Hend).
  destruct (Hend ltac:(discriminate) tie)
    as (rest & w' & s & Hq' & Hex' & Hr & Hcalls & _ & Hs).
  exists rest, w', s.
  split; [exact Hq'|]. split; [exact Hex'|]. split; [exact Hr|].
  split; [exact Hcalls|exact (Hs eq_refl)].
Defined.

(** C4, the claim as stated fails: two calls made on the empty cache, the
    file changing between their reads of the marker, cause two passes, the
    second call having waited for the first. *)
Lemma getStats_two_markers_two_passes :
  exists w,
    exec init [Call; Call;
               Resume 0 (StatDone (inr 1%Z)); Resume 1 (StatDone (inr 2%Z));
               Resume 0 (ReadDone (Parsed []));
               Resume 1 TimerFired; Resume 1 (StatDone (inr 2%Z));
               Resume 1 (ReadDone (Parsed tie))] = Some w /\
    reads w = 2 /\
    calls w = [Settled (inr (calculateStats []));
               Settled (inr (calculateStats tie))].
Proof. eexists. repeat split. Qed.

(** The other ways to a second read, each by design: the read of the first
    call fails and the waiting call computes in its turn; the watcher empties
    the entry before the waiting call comes back. *)
Lemma getStats_failed_read_second_read :
  exists w,
    exec init [Call; Call;
               Resume 0 (StatDone (inr 1%Z)); Resume 1 (StatDone (inr 1%Z));
               Resume 0 (ReadDone (Threw "EIO"));
               Resume 1 TimerFired; Resume 1 (StatDone (inr 1%Z));
               Resume 1 (ReadDone (Parsed tie))] = Some w /\
    reads w = 2 /\
    calls w = [Settled (inl "Failed to calculate stats: EIO");
               Settled (inr (calculateStats tie))].
Proof. eexists. repeat split. Qed.

Lemma getStats_invalidated_second_pass :
  exists w,
    exec init [Call; Call;
               Resume 0 (StatDone (inr 1%Z)); Resume 1 (StatDone (inr 1%Z));
               Resume 0 (ReadDone (Parsed tie)); FileChanged;
               Resume 1 TimerFired; Resume 1 (StatDone (inr 1%Z));
               Resume 1 (ReadDone (Parsed tie))] = Some w /\
    reads w = 2 /\
    calls w = [Settled (inr (calculateStats tie));
               Settled (inr (calculateStats tie))].
Proof. eexists. repeat split. Qed.

(** The flag is not owned: a call whose read of the marker fails clears it,
    and a third call then starts a second computation while the first is
    still reading. *)
Lemma getStats_flag_cleared_by_other_call :
  exists w,
    exec init [Call; Call; Call;
               Resume 0 (StatDone (inr 1%Z));
               Resume 1 (StatDone (inl "EMFILE"));
               Resume 2 (StatDone (inr 1%Z))] = Some w /\
    reads w = 2 /\
    calls w !! 0 = Some (AwaitRead 1%Z) /\ calls w !! 2 = Some (AwaitRead 1%Z).
Proof. eexists. repeat split. Qed.

(** ** Any store: the entry is whole *)

Lemma produced_snoc sched a m items :
  produced sched m items -> produced (sched ++ [a]) m items.
Proof.
  intros (i & before & between & after & -> & Hno).
  exists i, before, between, (after ++ [a]). split; [|done].
  by rewrite <- !app_assoc, <- !app_comm_cons, <- app_assoc.
Qed.

Lemma entry_snoc sched a c :
  match data c, lastModified c with
  | None, None => True
  | Some s, Some m => exists items, s = calculateStats items /\ produced sched m items
  | _, _ => False
  end ->
  match data c, lastModified c with
  | None, None => True
  | Some s, Some m =>
      exists items, s = calculateStats items /\ produced (sched ++ [a]) m items
  | _, _ => False
  end.
Proof.
  destruct (data c), (lastModified c); try done.
  intros (items & ? & ?). exists items. split; [done|]. by apply produced_snoc.
Qed.

Lemma reading_snoc sched a i m :
  (forall e, a <> Resume i e) ->
  (exists before between,
      sched = before ++ Resume i (StatDone (inr m)) :: between /\
      forall e, Resume i e ∉ between) ->
  exists before between,
      sched ++ [a] = before ++ Resume i (StatDone (inr m)) :: between /\
      forall e, Resume i e ∉ between.
Proof.
  intros Ha (before & between & -> & Hno).
  exists before, (between ++ [a]). split.
  - by rewrite <- app_assoc, <- app_comm_cons.
  - intros e. rewrite not_elem_of_app, list_elem_of_singleton.
    split; [apply Hno|]. intros He. by apply (Ha e).
Qed.

Lemma step_inv sched w a w' :
  inv sched w -> step w a = Some w' -> inv (sched ++ [a]) w'.
Proof.
  intros [Hread Hentry Hflag] Hstep. destruct a as [|i e|]; simpl in Hstep.
  - (* a new call *)
    injection Hstep as <-. split; simpl.
    + intros i m Hi. apply reading_snoc; [done|]. apply Hread.
      apply lookup_app_Some in Hi as [Hi|[_ Hi]]; [done|].
      by apply list_lookup_singleton_Some in Hi as [_ ?].
    + by apply entry_snoc.
    + intros Hf. destruct (Hflag Hf) as (j & m & Hj).
      exists j, m. by apply lookup_app_l_Some.
  - (* a call resumed *)
    destruct (calls w !! i) as [t|] eqn:Hi; [|done].
    destruct (resume (cache w) t e) as [[[c t'] n]|] eqn:Hres; [|done].
    injection Hstep as <-.
    assert (Hlt : i < length (calls w)) by (by eapply lookup_lt_Some).
    split; simpl.
    + intros k m Hk. destruct (decide (k = i)) as [->|Hki].
      * rewrite list_lookup_insert_eq in Hk by done. injection Hk as ->.
        destruct t as [| |m0|r], e as [[msg|m1]| |[msg|items]]; try done;
          simpl in Hres; try (by destruct (hit _ _); [|destruct (isCalculating _)]).
        destruct (hit (cache w) m1); [done|].
        destruct (isCalculating (cache w)); [done|]. injection Hres as _ <-.
        exists sched, []. split; [done|]. intros e. apply not_elem_of_nil.
      * rewrite list_lookup_insert_ne in Hk by done.
        apply reading_snoc; [|by apply Hread]. intros e'. congruence.
    + destruct t as [| |m0|r], e as [[msg|m1]| |[msg|items]]; try done;
        simpl in Hres.
      * injection Hres as <- _ _. by apply entry_snoc.
      * destruct (hit (cache w) m1); [|destruct (isCalculating (cache w))];
          injection Hres as <- _ _; by apply entry_snoc.
      * injection Hres as <- _ _. by apply entry_snoc.
      * injection Hres as <- _ _. by apply entry_snoc.
      * injection Hres as <- _ _. simpl. exists items. split; [done|].
        destruct (Hread _ _ Hi) as (before & between & -> & Hno).
        exists i, before, between, []. split; [|done].
        by rewrite <- app_assoc, <- app_comm_cons.
    + intros Hf.
      destruct t as [| |m0|r], e as [[msg|m1]| |[msg|items]]; try done;
        simpl in Hres; try (by injection Hres as <- _ _).
      * destruct (hit (cache w) m1) as [s|].
        -- injection Hres as <- <- _. destruct (Hflag Hf) as (j & m & Hj).
           exists j, m. rewrite list_lookup_insert_ne; [done|congruence].
        -- destruct (isCalculating (cache w)) eqn:Hold; injection Hres as <- <- _.
           ++ destruct (Hflag eq_refl) as (j & m & Hj).
              exists j, m. rewrite list_lookup_insert_ne; [done|congruence].
           ++ exists i, m1. by apply list_lookup_insert_eq.
      * injection Hres as <- <- _. destruct (Hflag Hf) as (j & m & Hj).
        exists j, m. rewrite list_lookup_insert_ne; [done|congruence].
  - (* the watcher *)
    injection Hstep as <-. split; simpl; [|done|done].
    intros i m Hi. apply reading_snoc; [done|]. by apply Hread.
Qed.

Lemma exec_inv sched : forall w, exec init sched = Some w -> inv sched w.
Proof.
  induction sched as [|a sched IH] using rev_ind; intros w Hex.
  - injection Hex as <-. by split.
  - rewrite exec_snoc in Hex.
    destruct (exec init sched) as [w0|] eqn:H0; [|done].
    eapply step_inv; [by apply IH|done].
Qed.

(** C5, as amended. In every state the calls of [getStats] and the watcher
    can reach, the entry is whole: statistics and marker are both absent, or
    both present, the marker being the one read by the call that computed
    those statistics, before the read they were computed from. And the
    in-flight flag is set only while some call is suspended at its read: once
    a call has settled the flag is false, unless another call is at that
    moment in its own computation. *)
Theorem statsCache_entry_whole (sched : list action) (w : world) :
  exec init sched = Some w ->
  (data (cache w) = None <-> lastModified (cache w) = None) /\
  (forall s, data (cache w) = Some s ->
     exists m items,
       lastModified (cache w) = Some m /\ s = calculateStats items /\
       produced sched m items) /\
  (isCalculating (cache w) = true ->
     exists j m, calls w !! j = Some (AwaitRead m)) /\
  ((forall i m, calls w !! i <> Some (AwaitRead m)) ->
     isCalculating (cache w) = false).
Proof.
  intros Hex. destruct (exec_inv sched w Hex) as [Hread Hentry Hflag].
  repeat split.
  - intros Hd. rewrite Hd in Hentry. by destruct (lastModified (cache w)).
  - intros Hm. rewrite Hm in Hentry. by destruct (data (cache w)).
  - intros s Hs. rewrite Hs in Hentry.
    destruct (lastModified (cache w)) as [m|]; [|done].
    destruct Hentry as (items & ? & ?). by exists m, items.
  - exact Hflag.
  - intros Hnone. destruct (isCalculating (cache w)) eqn:Hf; [|done].
    destruct (Hflag eq_refl) as (j & m & Hj). by destruct (Hnone j m).
Qed.

Lemma statsCache_entry_whole_witness :
  exec init (collapse 7%Z tie 3) = Some collapsed /\
  (exists m items,
     lastModified (cache collapsed) = Some m /\
     calculateStats tie = calculateStats items /\
     produced (collapse 7%Z tie 3) m items) /\
  (isCalculating (cache collapsed) = true ->
     exists j m, calls collapsed !! j = Some (AwaitRead m)).
Proof.
  assert (Hex : exec init (collapse 7%Z tie 3) = Some collapsed) by reflexivity.
  split; [exact Hex|].
  destruct (statsCache_entry_whole _ _ Hex) as (_ & Hentry & Hflag & _).
  split; [exact (Hentry _ eq_refl)|exact Hflag].
Defined.

(** C5, the claim as stated fails: a call settles, by a hit on the entry
    stored under marker 1, while the flag set by another call, which read
    marker 2 and is still reading the file, is true. *)
Lemma getStats_settles_with_flag_set :
  exists w0 w,
    exec init [Call; Resume 0 (StatDone (inr 1%Z));
               Resume 0 (ReadDone (Parsed tie));
               Call; Call; Resume 1 (StatDone (inr 2%Z))] = Some w0 /\
    calls w0 !! 2 = Some AwaitStat /\
    step w0 (Resume 2 (StatDone (inr 1%Z))) = Some w /\
    calls w !! 2 = Some (Settled (inr (calculateStats tie))) /\
    isCalculating (cache w) = true.
Proof. do 2 eexists. repeat split. Qed.

(** ** The average *)

(** C6, where the code departs from the claim. The five prices of [tie] are
    exact in binary and sum to 2.875, so their average is 0.575 and the
    claim, a tie going up, asks for 0.58. The code divides in binary floating
    point: the quotient is the double just below 0.575, one hundred times it
    is 57.49999999999999, and [Math.round] of that is 57: the code answers
    0.57. *)
Theorem calculateStats_average_tie :
  total (calculateStats tie) = 5 /\
  (exists m e, exact_sum tie = Some (m, e) /\ (m * 8 = 23 * 2 ^ (- e))%Z /\
               half_up_hundredths (m, e) 5 = 58%Z) /\
  rounded_average tie = Some (of_Z 58 / 100)%float /\
  averagePrice (calculateStats tie) = (of_Z 57 / 100)%float /\
  (of_Z 57 / 100 =? of_Z 58 / 100)%float = false.
Proof.
  split; [reflexivity|]. split.
  - do 2 eexists. split; [vm_compute; reflexivity|]. split; vm_compute; reflexivity.
  - repeat split; vm_compute; reflexivity.
Qed.

(** On the collection of the tests the code and the claim agree: the average
    1700/3 is answered as 566.67. *)
Example calculateStats_average_mock :
  averagePrice (calculateStats mockRecords) = (of_Z 56667 / 100)%float /\
  rounded_average mockRecords = Some (of_Z 56667 / 100)%float /\
  categories (calculateStats mockRecords) !! "Electronics" = Some 2 /\
  categories (calculateStats mockRecords) !! "Furniture" = Some 1 /\
  priceRange (calculateStats mockRecords) = {| min := 200%float; max := 1000%float |}.
Proof. repeat split; vm_compute; reflexivity. Qed.

(** The empty collection (specification, section 8). *)
Example calculateStats_empty :
  calculateStats [] =
  {| total := 0; averagePrice := 0%float; categories := ∅;
     priceRange := {| min := 0%float; max := 0%float |} |}.
Proof. reflexivity. Qed.

End StatsTheory.

(* ===================================================================== *)
(** * Properties of the rest of the JavaScript fragment *)
(* ===================================================================== *)

Module JsLibTheory.
Import Js JsLib.

(** ** Decimal digits *)

Lemma digits_acc d : forall acc : positive,
  digits 10 (DecimalString.NilEmpty.string_of_uint d) (Some (Zpos acc))
  = Some (Zpos (Pos.of_uint_acc d acc)).
Proof.
  induction d as [|d IH|d IH|d IH|d IH|d IH|d IH|d IH|d IH|d IH|d IH];
    intros acc; [reflexivity|..];
    cbn [DecimalString.NilEmpty.string_of_uint Pos.of_uint_acc digits];
    change (digit 10 _) with (Some 0%Z) || change (digit 10 _) with (Some 1%Z)
    || change (digit 10 _) with (Some 2%Z) || change (digit 10 _) with (Some 3%Z)
    || change (digit 10 _) with (Some 4%Z) || change (digit 10 _) with (Some 5%Z)
    || change (digit 10 _) with (Some 6%Z) || change (digit 10 _) with (Some 7%Z)
    || change (digit 10 _) with (Some 8%Z) || change (digit 10 _) with (Some 9%Z);
    cbn [default from_option]; unfold id; rewrite <- IH; do 2 f_equal; lia.
Qed.

Lemma digits_zero d :
  digits 10 (DecimalString.NilEmpty.string_of_uint d) (Some 0%Z)
  = Some (Z.of_N (Pos.of_uint d)).
Proof.
  induction d as [|d IH|d IH|d IH|d IH|d IH|d IH|d IH|d IH|d IH|d IH];
    [reflexivity|exact IH|..];
    cbn [DecimalString.NilEmpty.string_of_uint Pos.of_uint digits];
    (change (digit 10 _) with (Some 1%Z) || change (digit 10 _) with (Some 2%Z)
    || change (digit 10 _) with (Some 3%Z) || change (digit 10 _) with (Some 4%Z)
    || change (digit 10 _) with (Some 5%Z) || change (digit 10 _) with (Some 6%Z)
    || change (digit 10 _) with (Some 7%Z) || change (digit 10 _) with (Some 8%Z)
    || change (digit 10 _) with (Some 9%Z));
    cbn [default from_option]; unfold id; cbn [Z.mul Z.add]; apply digits_acc.
Qed.

Lemma digits_start d :
  d <> Decimal.Nil ->
  digits 10 (DecimalString.NilEmpty.string_of_uint d) None
  = Some (Z.of_N (Pos.of_uint d)).
Proof.
  intros Hd. rewrite <- digits_zero. by destruct d.
Qed.

Lemma parseInt_digits d :
  d <> Decimal.Nil ->
  parseInt (DecimalString.NilEmpty.string_of_uint d)
  = Some (Z.of_N (Pos.of_uint d)) /\
  parseInt (String "-" (DecimalString.NilEmpty.string_of_uint d))
  = Some (- Z.of_N (Pos.of_uint d))%Z.
Proof.
  intros Hd.
  assert (Hpos : parseInt (DecimalString.NilEmpty.string_of_uint d)
                 = (fun n => 1 * n)%Z
                   <$> digits 10 (DecimalString.NilEmpty.string_of_uint d) None)
    by (destruct d as [|d|d|d|d|d|d|d|d|d|d]; [done|..]; destruct d; reflexivity).
  assert (Hneg : parseInt (String "-" (DecimalString.NilEmpty.string_of_uint d))
                 = (fun n => (-1) * n)%Z
                   <$> digits 10 (DecimalString.NilEmpty.string_of_uint d) None)
    by (destruct d as [|d|d|d|d|d|d|d|d|d|d]; [done|..]; destruct d; reflexivity).
  rewrite Hpos, Hneg, digits_start by done. simpl. split; f_equal; lia.
Qed.

(** The text of an integer reads back as that integer: what the client
    prints into a URL is what the routes parse out of it. *)
Lemma parseInt_toString z : parseInt (toString z) = Some z.
Proof.
  destruct z as [|p|p]; [reflexivity|..]; unfold toString; simpl;
    pose proof (DecimalPos.Unsigned.to_uint_nonnil p) as Hnil;
    pose proof (DecimalPos.Unsigned.of_to p) as Hval;
    unfold DecimalString.NilZero.string_of_uint;
    destruct (parseInt_digits (Pos.to_uint p) Hnil) as [Hpos Hneg].
  - destruct (Pos.to_uint p) eqn:E; [done|..]; rewrite <- E in *;
      rewrite Hpos, Hval; reflexivity.
  - destruct (Pos.to_uint p) eqn:E; [done|..]; rewrite <- E in *;
      rewrite Hneg, Hval; reflexivity.
Qed.

(** ** White space *)

Import Create.

Lemma trimStart_ink s : has_ink (trimStart s) = has_ink s.
Proof.
  induction s as [|c s IH]; simpl; [done|].
  destruct (is_space c) eqn:E; simpl; [by rewrite IH|by rewrite E].
Qed.

Lemma trimEnd_empty s : trimEnd s = "" <-> has_ink s = false.
Proof.
  induction s as [|c s IH]; simpl; [done|].
  destruct (trimEnd s) eqn:E.
  - destruct (is_space c); simpl; [tauto|]. split; [done|]. by intros.
  - split; [done|]. intros H. apply orb_false_iff in H as [_ H].
    by apply IH in H.
Qed.

Lemma trimEnd_ink s : has_ink (trimEnd s) = has_ink s.
Proof.
  induction s as [|c s IH]; simpl; [done|].
  destruct (trimEnd s) eqn:E.
  - assert (Hs : has_ink s = false) by (by apply trimEnd_empty).
    rewrite Hs. destruct (is_space c) eqn:Ec; simpl; by rewrite ?Ec.
  - simpl in *. by rewrite IH.
Qed.

Lemma trimEnd_idem s : trimEnd (trimEnd s) = trimEnd s.
Proof.
  induction s as [|c s IH]; simpl; [done|].
  destruct (trimEnd s) eqn:Et.
  - destruct (is_space c) eqn:Ec; simpl; by rewrite ?Ec.
  - simpl in *. by rewrite IH.
Qed.

Lemma trim_ink s : has_ink (trim s) = has_ink s.
Proof. unfold trim. by rewrite trimEnd_ink, trimStart_ink. Qed.

Lemma trim_empty s : String.length (trim s) = 0 <-> has_ink s = false.
Proof.
  rewrite <- trim_ink. destruct (trim s) eqn:E; simpl.
  - done.
  - split; [done|]. intros H.
    assert (Ht : trimEnd (trim s) = "").
    { apply trimEnd_empty. by rewrite E. }
    unfold trim in *.
    rewrite trimEnd_idem in Ht. congruence.
Qed.

Lemma trimStart_head s :
  trimStart s = "" \/ exists c r, trimStart s = String c r /\ is_space c = false.
Proof.
  induction s as [|c s IH]; simpl; [by left|].
  destruct (is_space c) eqn:E; [done|]. right. by exists c, s.
Qed.

Lemma trimStart_idem s : trimStart (trimStart s) = trimStart s.
Proof.
  destruct (trimStart_head s) as [->|(c & r & -> & Hc)]; [done|].
  simpl. by rewrite Hc.
Qed.

(** [trim] leaves no white space at either end. *)
Lemma trim_tidy s : tidy (trim s).
Proof.
  unfold tidy, trim. split; [|apply trimEnd_idem].
  destruct (trimStart_head s) as [->|(c & r & -> & Hc)]; [done|].
  simpl. destruct (trimEnd r); rewrite ?Hc; simpl; by rewrite Hc.
Qed.

Lemma trimStart_cut s :
  exists pre, s = pre +:+ trimStart s /\ has_ink pre = false.
Proof.
  induction s as [|c s (pre & Hs & Hpre)]; simpl; [by exists ""|].
  destruct (is_space c) eqn:E; [|by exists ""].
  exists (String c pre). split; [|simpl; by rewrite E].
  change (String c s = String c (pre +:+ trimStart s)). by f_equal.
Qed.

Lemma trimEnd_cut s :
  exists post, s = trimEnd s +:+ post /\ has_ink post = false.
Proof.
  induction s as [|c s (post & Hs & Hpost)]; simpl; [by exists ""|].
  destruct (trimEnd s) eqn:E.
  - change ("" +:+ post) with post in Hs. subst s.
    destruct (is_space c) eqn:Ec.
    + exists (String c post). split; [done|]. simpl. by rewrite Ec.
    + by exists post.
  - exists post. split; [|done].
    change (String c s = String c (String a s0 +:+ post)). by f_equal.
Qed.

(** [trim] only removes white space, and only at the ends. *)
Lemma trim_cut s :
  exists pre post,
    s = pre +:+ trim s +:+ post /\ has_ink pre = false /\ has_ink post = false.
Proof.
  destruct (trimStart_cut s) as (pre & Hs & Hpre).
  destruct (trimEnd_cut (trimStart s)) as (post & Ht & Hpost).
  exists pre, post. unfold trim. by rewrite <- Ht.
Qed.

End JsLibTheory.

(* ===================================================================== *)
(** * Identifiers *)
(* ===================================================================== *)

Module LookupTheory.
Import Js JsLib Lookup.









(** ** The claim on the lookup *)




End LookupTheory.

(* ===================================================================== *)
(** * Properties of [POST /api/items] *)
(* ===================================================================== *)

Module CreateTheory.
Import Js JsLib Create JsLibTheory.

Lemma rejects_text_good v : rejects_text v = false <-> good_text v.
Proof.
  unfold rejects_text, good_text. destruct v as [| |b|x|s|]; simpl;
    try (split; [by rewrite ?orb_true_r|by intros (? & ? & _)]).
  destruct (String.eqb s "") eqn:Es; simpl.
  - apply String.eqb_eq in Es as ->. split; [done|]. by intros (? & [= <-] & ?).
  - destruct (Nat.eqb_spec (String.length (trim s)) 0) as [Hl|Hl].
    + apply trim_empty in Hl. split; [done|].
      intros (? & [= <-] & ?). congruence.
    + split; [|done]. intros _. exists s. split; [done|].
      destruct (has_ink s) eqn:Hi; [done|]. by apply trim_empty in Hi.
Qed.

Lemma rejects_price_good v : rejects_price v = false <-> good_price v.
Proof.
  unfold rejects_price, good_price. destruct v as [| |b|x|s|];
    try (split; [done|by intros (? & ? & _)]).
  split; [by exists x|by intros (? & [= <-] & ?)].
Qed.

Lemma rejects_text_cases v : rejects_text v = true <-> ~ good_text v.
Proof.
  rewrite <- rejects_text_good. by destruct (rejects_text v).
Qed.

Lemma rejects_price_cases v : rejects_price v = true <-> ~ good_price v.
Proof.
  rewrite <- rejects_price_good. by destruct (rejects_price v).
Qed.

Lemma through_json_idem v : through_json (through_json v) = through_json v.
Proof.
  destruct v as [| |b|x|s|]; simpl; try done.
  destruct (PrimFloat.is_finite x) eqn:Hf; [|done].
  destruct (PrimFloat.is_zero x) eqn:Hz; simpl; [done|]. by rewrite Hf, Hz.
Qed.

Lemma stored_idem it : stored (stored it) = stored it.
Proof. unfold stored. simpl. by rewrite !through_json_idem. Qed.

Lemma sound_text_trimmed v : good_text v -> sound_text (through_json (trimmed v)).
Proof.
  intros (s & -> & Hs). exists (trim s). split; [done|].
  split; [apply trim_tidy|by rewrite trim_ink].
Qed.

Lemma sound_price_through v : good_price v -> sound_price (through_json v).
Proof.
  intros (x & -> & Hx). simpl.
  destruct (PrimFloat.is_finite x) eqn:Hf; [|by left].
  right. destruct (PrimFloat.is_zero x); [by exists 0%float|by exists x].
Qed.

Lemma sound_stored it : sound it -> sound (stored it).
Proof.
  intros ((n & Hn & ?) & (c & Hc & ?) & Hp). unfold sound, stored. simpl.
  rewrite Hn, Hc. simpl. split; [by exists n|]. split; [by exists c|].
  destruct Hp as [->|(x & -> & Hf & Hx)]; [by left|]. simpl. rewrite Hf.
  right. destruct (PrimFloat.is_zero x); [by exists 0%float|by exists x].
Qed.

(** The item of a request that passes the checks. *)
Lemma createItem_passes name category price now data :
  good_text name -> good_text category -> good_price price ->
  exists it,
    createItem name category price now (inr data) None
    = (inr it, Some ((stored <$> data) ++ [it])) /\
    it = stored {| Items.id := JsNum (of_Z now); Items.name := trimmed name;
                   Items.category := trimmed category; Items.price := price |}.
Proof.
  intros Hn Hc Hp. unfold createItem.
  rewrite (proj2 (rejects_text_good name) Hn).
  rewrite (proj2 (rejects_text_good category) Hc).
  rewrite (proj2 (rejects_price_good price) Hp).
  eexists. split; [|reflexivity].
  by rewrite fmap_app.
Qed.

Lemma createItem_written name category price now file write content :
  snd (createItem name category price now file write) = Some content ->
  good_text name /\ good_text category /\ good_price price /\
  write = None /\ exists data, file = inr data.
Proof.
  unfold createItem.
  destruct (rejects_text name) eqn:Hn; [done|].
  destruct (rejects_text category) eqn:Hc; [done|].
  destruct (rejects_price price) eqn:Hp; [done|].
  destruct file as [m|data]; [done|]. destruct write as [m|]; [done|].
  intros _. rewrite <- rejects_text_good, <- rejects_text_good, <- rejects_price_good.
  eauto 10.
Qed.

Lemma sound_created name category price now :
  good_text name -> good_text category -> good_price price ->
  sound (stored {| Items.id := JsNum (of_Z now); Items.name := trimmed name;
                   Items.category := trimmed category; Items.price := price |}).
Proof.
  intros Hn Hc Hp. unfold sound, stored. cbn [Items.name Items.category Items.price].
  split; [by apply sound_text_trimmed|].
  split; [by apply sound_text_trimmed|by apply sound_price_through].
Qed.

(** What a create that writes leaves in the file. *)
Lemma createItem_content name category price now data write content :
  snd (createItem name category price now (inr data) write) = Some content ->
  exists it,
    fst (createItem name category price now (inr data) write) = inr it /\
    content = (stored <$> data) ++ [it] /\
    Items.id it = through_json (JsNum (of_Z now)) /\
    sound it.
Proof.
  intros Hw. pose proof Hw as Hw'.
  apply createItem_written in Hw' as (Hn & Hc & Hp & -> & _).
  destruct (createItem_passes name category price now data Hn Hc Hp)
    as (it & Hit & Hshape).
  rewrite Hit in Hw |- *. simpl in Hw. injection Hw as <-.
  exists it. split; [done|]. split; [done|]. subst it.
  split; [done|]. by apply sound_created.
Qed.

(** ** Validation *)

(** X1. A request is refused with status 400 exactly when a field fails its
    check: the name or the category is not a string with a character that is
    not white space, or the price is not a Number that is not negative. The
    message names the first failing field in the order name, category, price,
    and the answer is given before the store is touched: it is the same
    whether the data file can be read or written or not, and nothing is
    written. *)
Theorem createItem_validation
    (name category price : jsval) (now : Z)
    (file : Items.readData) (write : option string) :
  (~ good_text name ->
   createItem name category price now file write
   = (inl (Invalid "Name is required and must be a non-empty string"), None)) /\
  (good_text name -> ~ good_text category ->
   createItem name category price now file write
   = (inl (Invalid "Category is required and must be a non-empty string"), None)) /\
  (good_text name -> good_text category -> ~ good_price price ->
   createItem name category price now file write
   = (inl (Invalid "Price is required and must be a non-negative number"), None)) /\
  (good_text name -> good_text category -> good_price price ->
   forall e, fst (createItem name category price now file write) = inl e ->
             err_status e = None).
Proof.
  unfold createItem. repeat split.
  - intros Hn. by rewrite (proj2 (rejects_text_cases name) Hn).
  - intros Hn Hc. rewrite (proj2 (rejects_text_good name) Hn).
    by rewrite (proj2 (rejects_text_cases category) Hc).
  - intros Hn Hc Hp. rewrite (proj2 (rejects_text_good name) Hn).
    rewrite (proj2 (rejects_text_good category) Hc).
    by rewrite (proj2 (rejects_price_cases price) Hp).
  - intros Hn Hc Hp e. rewrite (proj2 (rejects_text_good name) Hn).
    rewrite (proj2 (rejects_text_good category) Hc).
    rewrite (proj2 (rejects_price_good price) Hp).
    destruct file as [m|data]; [by intros [= <-]|].
    destruct write as [m|]; [by intros [= <-]|done].
Qed.

Lemma createItem_validation_witness :
  ~ good_text (JsStr "   ") /\
  createItem (JsStr "   ") (JsNum 3) JsNull 5 (inl "ENOENT") (Some "EACCES")
  = (inl (Invalid "Name is required and must be a non-empty string"), None).
Proof.
  assert (Hbad : ~ good_text (JsStr "   "))
    by (intros (s & [= <-] & Hink); discriminate Hink).
  split; [exact Hbad|].
  exact (proj1 (createItem_validation (JsStr "   ") (JsNum 3) JsNull 5
                  (inl "ENOENT") (Some "EACCES")) Hbad).
Defined.

(** ** What a create writes *)

(** X2. The data file is written only by a request that passes the three
    checks on a readable store, and then once: the records it held are kept,
    in order, and one record is added at the end, the one answered to the
    client. That record has the name and the category of the request without
    the white space around them, the price of the request and the clock as
    id. *)
Theorem createItem_appends
    (name category price : jsval) (now : Z)
    (file : Items.readData) (write : option string)
    (content : list Items.item) :
  snd (createItem name category price now file write) = Some content ->
  exists data it n c,
    file = inr data /\ write = None /\
    fst (createItem name category price now file write) = inr it /\
    content = (stored <$> data) ++ [it] /\
    name = JsStr n /\ category = JsStr c /\
    Items.name it = JsStr (trim n) /\ Items.category it = JsStr (trim c) /\
    Items.price it = through_json price /\
    Items.id it = through_json (JsNum (of_Z now)) /\
    sound it.
Proof.
  intros Hw. pose proof Hw as Hw'.
  apply createItem_written in Hw' as (Hn & Hc & Hp & -> & data & ->).
  destruct (createItem_passes name category price now data Hn Hc Hp)
    as (it & Hit & Hshape).
  rewrite Hit in Hw |- *. simpl in Hw. injection Hw as <-.
  pose proof (sound_created name category price now Hn Hc Hp) as Hsound.
  destruct Hn as (n & -> & _), Hc as (c & -> & _).
  exists data, it, n, c. subst it.
  do 10 (split; [done|]). exact Hsound.
Qed.

Lemma createItem_appends_witness :
  snd (createItem (r_name desk) (r_category desk) (r_price desk) (r_now desk)
         (inr Items.mockItems) None)
  = Some (Items.mockItems ++ [desk_item]) /\
  exists it,
    fst (createItem (r_name desk) (r_category desk) (r_price desk) (r_now desk)
           (inr Items.mockItems) None) = inr it /\
    sound it.
Proof.
  split; [reflexivity|].
  destruct (createItem_appends (r_name desk) (r_category desk) (r_price desk)
              (r_now desk) (inr Items.mockItems) None
              (Items.mockItems ++ [desk_item]) eq_refl)
    as (data & it & n & c & _ & _ & Hit & _ & _ & _ & _ & _ & _ & _ & Hsound).
  exists it. split; [exact Hit|exact Hsound].
Defined.

(** ** The store along a history of requests *)

Lemma accepted_good r :
  accepted r = true <->
  good_text (r_name r) /\ good_text (r_category r) /\ good_price (r_price r) /\
  r_write r = None.
Proof.
  unfold accepted.
  rewrite !andb_true_iff, !negb_true_iff, !rejects_text_good, rejects_price_good.
  destruct (r_write r).
  - split; [by intros [_ ?]|by intros (_ & _ & _ & ?)].
  - intuition.
Qed.

Lemma after_accepted data r :
  accepted r = true ->
  exists it,
    createItem (r_name r) (r_category r) (r_price r) (r_now r) (inr data) (r_write r)
    = (inr it, Some ((stored <$> data) ++ [it])) /\
    after data r = (stored <$> data) ++ [it] /\
    sound it /\ stored it = it /\
    it = stored {| Items.id := JsNum (of_Z (r_now r)); Items.name := trimmed (r_name r);
                   Items.category := trimmed (r_category r);
                   Items.price := r_price r |}.
Proof.
  intros Hacc. apply accepted_good in Hacc as (Hn & Hc & Hp & Hw).
  destruct (createItem_passes (r_name r) (r_category r) (r_price r) (r_now r)
              data Hn Hc Hp) as (it & Hit & Hshape).
  exists it. unfold after. rewrite Hw, Hit. simpl.
  split; [done|]. split; [done|]. split; [|split; [|done]].
  - rewrite Hshape. by apply sound_created.
  - rewrite Hshape. apply stored_idem.
Qed.

Lemma after_refused data r : accepted r = false -> after data r = data.
Proof.
  intros Hacc. unfold after.
  destruct (snd (createItem _ _ _ _ _ _)) as [content|] eqn:Hw; [|done].
  apply createItem_written in Hw as (Hn & Hc & Hp & Hw & _).
  assert (accepted r = true) by (by apply accepted_good). congruence.
Qed.

Lemma served_snoc rs r : served (rs ++ [r]) = after (served rs) r.
Proof. unfold served. by rewrite fold_left_app. Qed.

Lemma sound_well_formed it : sound it -> Items.well_formed it.
Proof.
  intros ((n & Hn & _) & (c & Hc & _) & _). unfold Items.well_formed.
  by rewrite Hn, Hc.
Qed.

Lemma search_well_formed data q :
  Forall Items.well_formed data -> exists results, Items.search data q = inr results.
Proof.
  intros Hwf. unfold Items.search. destruct q as [s|]; [|by eauto].
  destruct (String.eqb s ""); [by eauto|].
  destruct (Items.filterE _ data) as [e|results] eqn:E; [|by eauto].
  assert (Hex : exists e, Items.filterE (Items.matches (toLowerCase s)) data = inl e)
    by eauto.
  apply ItemsTheory.filterE_throws in Hex.
  apply Exists_exists in Hex as (x & Hx & e' & He).
  rewrite Forall_forall in Hwf.
  destruct (ItemsTheory.matches_well_formed s x) as [b Hb]; [by apply Hwf|].
  congruence.
Qed.

(** ** Handlers in flight together *)

Lemma serve_app sv l1 l2 :
  serve sv (l1 ++ l2)
  = match serve sv l1 with Some sv' => serve sv' l2 | None => None end.
Proof.
  revert sv. induction l1 as [|h l1 IH]; intros sv; simpl; [done|].
  destruct (handle sv h); [apply IH|done].
Qed.

Lemma arrive_sound name category price now w :
  phase_sound w (arrive name category price now).
Proof.
  unfold arrive.
  destruct (rejects_text name) eqn:Hn; [done|].
  destruct (rejects_text category) eqn:Hc; [done|].
  destruct (rejects_price price) eqn:Hp; [done|].
  simpl. apply sound_created.
  - by apply rejects_text_good.
  - by apply rejects_text_good.
  - by apply rejects_price_good.
Qed.

(** What holds of the file and of the handlers in flight, [w] writes having
    ended. *)
Lemma handle_sound sv h sv' w :
  handle sv h = Some sv' ->
  Forall sound (disk sv) -> length (disk sv) <= w ->
  Forall (phase_sound w) (posts sv) ->
  Forall sound (disk sv') /\
  length (disk sv') <= (if is_write h then S w else w) /\
  Forall (phase_sound (if is_write h then S w else w)) (posts sv').
Proof.
  intros Hh Hdisk Hlen Hposts. destruct h as [name category price now|i failure|i];
    simpl in Hh |- *.
  - injection Hh as <-. simpl. split; [done|]. split; [done|].
    apply Forall_app. split; [done|]. constructor; [|done].
    apply arrive_sound.
  - destruct (posts sv !! i) as [[item|item data|r]|] eqn:Hi; try done.
    injection Hh as <-. simpl. split; [done|]. split; [done|].
    apply Forall_insert; [done|].
    rewrite Forall_lookup in Hposts. specialize (Hposts _ _ Hi). simpl in Hposts.
    destruct failure as [message|]; [done|]. simpl.
    split; [done|]. split.
    + rewrite fmap_app. apply Forall_app. split.
      * apply Forall_fmap. eapply Forall_impl; [exact Hdisk|].
        intros x Hx. by apply sound_stored.
      * by constructor.
    + rewrite length_app. simpl. lia.
  - destruct (posts sv !! i) as [[item|item data|r]|] eqn:Hi; try done.
    injection Hh as <-. simpl.
    rewrite Forall_lookup in Hposts. pose proof (Hposts _ _ Hi) as Hp.
    simpl in Hp. destruct Hp as (Hitem & Hdata & Hl).
    split; [done|]. split; [by rewrite length_fmap|].
    apply Forall_insert; [|done]. apply Forall_lookup. intros k p Hk.
    specialize (Hposts _ _ Hk). destruct p as [x|x d|r]; simpl in *; [done| |done].
    destruct Hposts as (? & ? & ?). split; [done|]. split; [done|lia].
Qed.

Lemma serve_sound hs : forall sv sv' w,
  serve sv hs = Some sv' ->
  Forall sound (disk sv) -> length (disk sv) <= w ->
  Forall (phase_sound w) (posts sv) ->
  Forall sound (disk sv') /\
  length (disk sv') <= w + length (List.filter is_write hs).
Proof.
  induction hs as [|h hs IH]; intros sv sv' w Hs Hdisk Hlen Hposts; simpl in *.
  - injection Hs as <-. split; [done|lia].
  - destruct (handle sv h) as [sv1|] eqn:Hh; [|done].
    destruct (handle_sound sv h sv1 w Hh Hdisk Hlen Hposts) as (Hd1 & Hl1 & Hp1).
    destruct (IH sv1 sv' _ Hs Hd1 Hl1 Hp1) as [Hd Hl].
    split; [done|]. destruct (is_write h); simpl in *; lia.
Qed.

(** One request served alone does what [createItem] does. *)
Lemma serve_turn data ps r :
  r_write r = None ->
  exists p,
    serve {| disk := data; posts := ps |} (turn (length ps) r)
    = Some {| disk := after data r; posts := ps ++ [Answered p] |} /\
    p = fst (createItem (r_name r) (r_category r) (r_price r) (r_now r)
               (inr data) None).
Proof.
  intros Hw. unfold turn, passes, after, arrive. rewrite Hw.
  cbn [serve handle disk posts]. unfold arrive, createItem.
  destruct (rejects_text (r_name r)); [by eexists|].
  destruct (rejects_text (r_category r)); [by eexists|].
  destruct (rejects_price (r_price r)); [by eexists|].
  cbn [negb andb serve handle disk posts].
  rewrite list_lookup_middle by done.
  rewrite insert_app_r_alt by done. rewrite Nat.sub_diag.
  cbn [insert list_insert serve handle disk posts].
  rewrite list_lookup_middle by done.
  rewrite insert_app_r_alt by done. rewrite Nat.sub_diag.
  cbn [insert list_insert default snd fst]. by eexists.
Qed.

Lemma serve_one_by_one rs :
  Forall (fun r => r_write r = None) rs ->
  exists ps,
    serve opened (one_by_one rs) = Some {| disk := served rs; posts := ps |} /\
    length ps = length rs /\
    Forall (fun p => exists a, p = Answered a) ps.
Proof.
  induction rs as [|r rs IH] using rev_ind; intros Hw.
  - by exists [].
  - apply Forall_app in Hw as [Hrs Hr]. apply Forall_cons in Hr as [Hr _].
    destruct (IH Hrs) as (ps & Hserve & Hlen & Hans).
    destruct (serve_turn (served rs) ps r Hr) as (p & Hturn & _).
    exists (ps ++ [Answered p]).
    assert (Hsplit : one_by_one (rs ++ [r])
                     = one_by_one rs ++ turn (length rs) r).
    { unfold one_by_one. rewrite imap_app, concat_app. f_equal.
      cbn [imap concat]. by rewrite app_nil_r, Nat.add_0_r. }
    rewrite Hsplit, serve_app, Hserve, <- Hlen, Hturn, served_snoc.
    split; [done|]. split; [rewrite !length_app; simpl; lia|].
    apply Forall_app. split; [done|]. constructor; [by eexists|done].
Qed.

Lemma accepted_passes r : r_write r = None -> accepted r = passes r.
Proof. intros Hw. unfold accepted, passes. rewrite Hw. by rewrite andb_true_r. Qed.

Lemma served_length rs :
  length (served rs) = length (List.filter accepted rs).
Proof.
  induction rs as [|r' rs IH] using rev_ind; [done|].
  rewrite served_snoc, List.filter_app, length_app. simpl.
  destruct (accepted r') eqn:Hacc.
  - destruct (after_accepted (served rs) r' Hacc) as (it & _ & -> & _).
    rewrite length_app, length_fmap, IH. done.
  - rewrite after_refused by done. simpl. lia.
Qed.

Lemma serve_overlapping sv r1 r2 :
  passes r1 = true -> passes r2 = true ->
  exists it1 it2,
    serve sv (overlapping (length (posts sv)) r1 r2)
    = Some {| disk := (stored <$> disk sv) ++ [it2];
              posts := posts sv ++ [Answered (inr it1); Answered (inr it2)] |} /\
    fst (createItem (r_name r1) (r_category r1) (r_price r1) (r_now r1)
           (inr (disk sv)) None) = inr it1 /\
    fst (createItem (r_name r2) (r_category r2) (r_price r2) (r_now r2)
           (inr (disk sv)) None) = inr it2.
Proof.
  unfold passes. rewrite !andb_true_iff, !negb_true_iff.
  intros [[Hn1 Hc1] Hp1] [[Hn2 Hc2] Hp2]. destruct sv as [data ps].
  unfold overlapping, createItem. cbn [serve handle disk posts].
  unfold arrive. rewrite Hn1, Hc1, Hp1, Hn2, Hc2, Hp2.
  set (i1 := {| Items.id := JsNum (of_Z (r_now r1)) |}).
  set (i2 := {| Items.id := JsNum (of_Z (r_now r2)) |}).
  rewrite <- (app_assoc ps [Reading i1] [Reading i2]).
  cbn [app]. rewrite list_lookup_middle by done.
  rewrite insert_app_r_alt by done. rewrite Nat.sub_diag.
  cbn [insert list_insert serve handle disk posts].
  rewrite (cons_middle (Writing i1 (data ++ [i1])) ps [Reading i2]), app_assoc.
  rewrite list_lookup_middle by (rewrite length_app; simpl; lia).
  rewrite insert_app_r_alt by (rewrite length_app; simpl; lia).
  replace (S (length ps) - length (ps ++ [Writing i1 (data ++ [i1])])) with 0
    by (rewrite length_app; simpl; lia).
  cbn [insert list_insert serve handle disk posts].
  rewrite <- app_assoc. cbn [app].
  rewrite list_lookup_middle by done.
  rewrite insert_app_r_alt by done. rewrite Nat.sub_diag.
  cbn [insert list_insert serve handle disk posts].
  rewrite (cons_middle (Answered (inr (stored i1))) ps), app_assoc.
  rewrite list_lookup_middle by (rewrite length_app; simpl; lia).
  rewrite insert_app_r_alt by (rewrite length_app; simpl; lia).
  replace (S (length ps) - length (ps ++ [Answered (inr (stored i1))])) with 0
    by (rewrite length_app; simpl; lia).
  cbn [insert list_insert serve handle disk posts fst].
  exists (stored i1), (stored i2). rewrite fmap_app, <- app_assoc. done.
Qed.

Lemma opened_sound hs sv :
  serve opened hs = Some sv ->
  Forall sound (disk sv) /\
  length (disk sv) <= length (List.filter is_write hs).
Proof.
  intros Hs. by apply (serve_sound hs opened sv 0 Hs).
Qed.

(** X3. The data file under create requests whose handlers interleave at
    their two [await]s, from the empty collection, no write failing. Every
    record of the file has a name and a category that are not empty and
    carry no white space at either end, and a price that is [null] or a
    finite Number that is not negative; and the file never holds more
    records than writes have ended. When the requests are served one at a
    time, the file is what [createItem] gives request after request: one
    record per accepted request, in the order of the requests. But two
    requests that pass the checks and overlap, both reading the file before
    either writes it, are both answered with their item, and the file ends
    one record longer, not two: the write of the first is lost. *)
Theorem serve_history
    (hs : list happening) (sv : server) (rs : list request) (r1 r2 : request) :
  serve opened hs = Some sv ->
  (Forall sound (disk sv) /\
   length (disk sv) <= length (List.filter is_write hs)) /\
  (Forall (fun r => r_write r = None) rs -> hs = one_by_one rs ->
   disk sv = served rs /\
   length (disk sv) = length (List.filter accepted rs)) /\
  (passes r1 = true -> passes r2 = true ->
   exists sv' it1 it2,
     serve sv (overlapping (length (posts sv)) r1 r2) = Some sv' /\
     posts sv' = posts sv ++ [Answered (inr it1); Answered (inr it2)] /\
     disk sv' = (stored <$> disk sv) ++ [it2] /\
     length (disk sv') = S (length (disk sv))).
Proof.
  intros Hs. split; [by apply opened_sound|]. split.
  - intros Hw ->. destruct (serve_one_by_one rs Hw) as (ps & Hserve & _).
    rewrite Hserve in Hs. injection Hs as <-. simpl.
    split; [done|apply served_length].
  - intros H1 H2.
    destruct (serve_overlapping sv r1 r2 H1 H2) as (it1 & it2 & Hov & _).
    eexists _, it1, it2. split; [exact Hov|]. simpl.
    split; [done|]. split; [done|].
    rewrite length_app, length_fmap. simpl. lia.
Qed.

Lemma serve_history_witness :
  serve opened (one_by_one [desk; lamp]) = Some served_both /\
  Forall (fun r => r_write r = None) [desk; lamp] /\
  passes desk = true /\ passes lamp = true /\
  disk served_both = served [desk; lamp] /\
  length (disk served_both) = 2 /\
  exists sv',
    serve served_both (overlapping 2 desk lamp) = Some sv' /\
    length (disk sv') = 3.
Proof.
  assert (Hs : serve opened (one_by_one [desk; lamp]) = Some served_both)
    by (vm_compute; reflexivity).
  assert (Hw : Forall (fun r => r_write r = None) [desk; lamp])
    by (by repeat constructor).
  split; [exact Hs|]. split; [exact Hw|].
  split; [reflexivity|]. split; [reflexivity|].
  destruct (serve_history (one_by_one [desk; lamp]) served_both [desk; lamp]
              desk lamp Hs) as (_ & Hseq & Hover).
  split; [exact (proj1 (Hseq Hw eq_refl))|]. split; [reflexivity|].
  destruct (Hover eq_refl eq_refl) as (sv' & it1 & it2 & Hs' & _ & _ & Hlen).
  exists sv'. split; [exact Hs'|exact Hlen].
Defined.

(** X4. On a data file written only by create requests, however their
    handlers interleave, no write failing, the listing never fails,
    whatever the search term (a string, or none), the page and the limit:
    every stored name and category is a string. *)
Theorem posted_listing_total
    (hs : list happening) (sv : server) (limit q pageParam : option string) :
  serve opened hs = Some sv ->
  exists resp, Items.listItems (inr (disk sv)) limit q pageParam = inr resp.
Proof.
  intros Hs.
  assert (Hwf : Forall Items.well_formed (disk sv)).
  { eapply Forall_impl; [apply (opened_sound hs sv Hs)|].
    intros x Hx. by apply sound_well_formed. }
  destruct (search_well_formed (disk sv) q Hwf) as [results Hres].
  unfold Items.listItems. rewrite Hres. by eexists.
Qed.

Lemma posted_listing_total_witness :
  serve opened (one_by_one [desk; lamp]) = Some served_both /\
  exists resp,
    Items.listItems (inr (disk served_both)) None (Some "LAMP") None = inr resp.
Proof.
  assert (Hs : serve opened (one_by_one [desk; lamp]) = Some served_both)
    by (vm_compute; reflexivity).
  split; [exact Hs|].
  exact (posted_listing_total (one_by_one [desk; lamp]) served_both
           None (Some "LAMP") None Hs).
Defined.

(** ** Fetching what was created *)

Lemma find_app_found {A} (f : A -> bool) l l' x :
  find f l = Some x -> find f (l ++ l') = Some x.
Proof.
  induction l as [|y l IH]; simpl; [done|]. destruct (f y); [done|exact IH].
Qed.

Lemma find_app_passed {A} (f : A -> bool) l l' :
  Forall (fun y => f y = false) l -> find f (l ++ l') = find f l'.
Proof.
  induction 1 as [|y l Hy _ IH]; simpl; [done|]. by rewrite Hy.
Qed.

Lemma plain_number_eqb x : plain_number x = true -> (x =? x)%float = true.
Proof.
  unfold plain_number, PrimFloat.is_finite, PrimFloat.is_nan.
  destruct (x =? x)%float; [done|]. simpl. done.
Qed.

Lemma plain_number_through x :
  plain_number x = true -> through_json (JsNum x) = JsNum x.
Proof.
  unfold plain_number. intros H. apply andb_true_iff in H as [Hf Hz].
  simpl. rewrite Hf. by destruct (PrimFloat.is_zero x).
Qed.

Lemma created_has_id it now :
  plain_number (of_Z now) = true ->
  Items.id it = through_json (JsNum (of_Z now)) ->
  Items.strict_eq_num (Items.id it) (parseInt (toString now)) = true.
Proof.
  intros Hplain ->. rewrite parseInt_toString, plain_number_through by done.
  simpl. by apply plain_number_eqb.
Qed.

(** X5. A created item can be fetched back: when the clock reading is a
    finite Number other than zero and no record of the file already has it as
    id, [GET /api/items/<id>] on the file the create wrote, with the id
    printed in decimal, answers the item the create answered. *)
Theorem createItem_then_getItem
    (name category price : jsval) (now : Z)
    (data content : list Items.item) (it : Items.item) :
  createItem name category price now (inr data) None = (inr it, Some content) ->
  plain_number (of_Z now) = true ->
  Forall (fun i => ~ Items.has_id i (toString now)) (stored <$> data) ->
  Items.getItem (inr content) (toString now) = inr it.
Proof.
  intros Hcreate Hplain Hfresh.
  assert (Hw : snd (createItem name category price now (inr data) None)
               = Some content) by (by rewrite Hcreate).
  apply createItem_content in Hw as (it' & Hit & -> & Hid & _).
  rewrite Hcreate in Hit. simpl in Hit. injection Hit as <-.
  unfold Items.getItem. rewrite find_app_passed.
  - simpl. by rewrite (created_has_id it now).
  - eapply Forall_impl; [exact Hfresh|]. intros i Hi.
    by apply ItemsTheory.strict_eq_num_no_id.
Qed.

Lemma createItem_then_getItem_witness :
  createItem (r_name desk) (r_category desk) (r_price desk) (r_now desk)
    (inr Items.mockItems) None
  = (inr desk_item, Some (Items.mockItems ++ [desk_item])) /\
  plain_number (of_Z (r_now desk)) = true /\
  Items.getItem (inr (Items.mockItems ++ [desk_item])) "1700000000000"
  = inr desk_item.
Proof.
  split; [reflexivity|]. split; [reflexivity|].
  apply (createItem_then_getItem (r_name desk) (r_category desk) (r_price desk)
           (r_now desk) Items.mockItems); [reflexivity|reflexivity|].
  repeat constructor; intros (x & z & Hx & Hz & Heq);
    injection Hx as <-; injection Hz as <-; discriminate Heq.
Defined.

(** X6. A create never hides a record: whatever an identifier found in the
    file before the create, it finds after it. Ids are not checked for
    being new, so a record created under an id the file already holds (two
    creates within one millisecond) is stored but is not the one its id
    fetches. *)
Theorem createItem_keeps_lookups
    (name category price : jsval) (now : Z)
    (data content : list Items.item) (write : option string)
    (idParam : string) (found : Items.item) :
  snd (createItem name category price now (inr data) write) = Some content ->
  Items.getItem (inr (stored <$> data)) idParam = inr found ->
  Items.getItem (inr content) idParam = inr found.
Proof.
  intros Hw Hfound.
  apply createItem_content in Hw as (it & _ & -> & _).
  unfold Items.getItem in *.
  destruct (find _ (stored <$> data)) as [x|] eqn:E; [|done].
  by rewrite (find_app_found _ _ _ _ E).
Qed.

Lemma createItem_keeps_lookups_witness :
  snd (createItem (r_name lamp) (r_category lamp) (r_price lamp) (r_now lamp)
         (inr (Items.mockItems ++ [desk_item])) None)
  = Some (served_twice) /\
  Items.getItem (inr (Items.mockItems ++ [desk_item])) "1700000000000"
  = inr desk_item /\
  Items.getItem (inr served_twice) "1700000000000" = inr desk_item /\
  length served_twice = 5.
Proof.
  split; [reflexivity|]. split; [reflexivity|]. split; [|reflexivity].
  apply (createItem_keeps_lookups (r_name lamp) (r_category lamp) (r_price lamp)
           (r_now lamp) (Items.mockItems ++ [desk_item]) served_twice None);
    reflexivity.
Defined.

Lemma well_formed_stored it : Items.well_formed it -> Items.well_formed (stored it).
Proof.
  unfold Items.well_formed, stored. simpl.
  destruct (Items.name it), (Items.category it); simpl; intros [? ?]; done.
Qed.

End CreateTheory.

(* ===================================================================== *)
(** * Browsing: the client's requests against the query layer *)
(* ===================================================================== *)

Module BrowseTheory.
Import Js JsLib Client JsLibTheory.

Lemma get_listing data page limit q results :
  Items.search data (sent q) = inr results ->
  limit <> 0%Z ->
  get (inr data) page limit q
  = inr {| Items.items :=
             slice results (Some ((page - 1) * limit)%Z)
                           (Some ((page - 1) * limit + limit)%Z);
           Items.pageInfo :=
             {| Items.page := Some page; Items.pageSize := limit;
                Items.totalItems := Z.of_nat (length results);
                Items.totalPages := ceil_div (Z.of_nat (length results)) limit;
                Items.hasNextPage :=
                  (page <? ceil_div (Z.of_nat (length results)) limit)%Z;
                Items.hasPrevPage := (1 <? page)%Z |} |}.
Proof.
  intros Hs Hl. unfold get, params, Items.listItems. rewrite Hs.
  unfold Items.page_number, parseIntOpt. simpl default.
  rewrite !parseInt_toString. unfold num_or.
  destruct (Z.eqb_spec limit 0); [done|]. reflexivity.
Qed.

Lemma page_items_window data page limit q results :
  Items.search data (sent q) = inr results ->
  (0 < limit)%Z -> (1 <= page)%Z ->
  page_items (inr data) page limit q
  = take (Z.to_nat limit) (drop (Z.to_nat ((page - 1) * limit)) results).
Proof.
  intros Hs Hl Hp. unfold page_items.
  rewrite (get_listing _ _ _ _ _ Hs) by lia. simpl.
  apply ItemsTheory.slice_from_start; nia.
Qed.

Lemma chunks_take {A} (l : list A) (n c : nat) :
  concat ((fun k => take n (drop (k * n) l)) <$> seq 0 c) = take (c * n) l.
Proof.
  induction c as [|c IH]; [by rewrite take_0|].
  rewrite seq_S, fmap_app, concat_app, IH. simpl. rewrite app_nil_r.
  rewrite take_take_drop. f_equal. lia.
Qed.

(** X8. The pages cover the results once: for a positive page size, the
    items of the pages 1 to [totalPages], requested the way the client
    requests them and put end to end, are the post-search results, each
    record once and in order. *)
Theorem pages_cover_results
    (data results : list Items.item) (limit : Z) (q : string) :
  Items.search data (sent q) = inr results ->
  (0 < limit)%Z ->
  concat ((fun page => page_items (inr data) page limit q)
            <$> seqZ 1 (ceil_div (Z.of_nat (length results)) limit))
  = results.
Proof.
  intros Hs Hl. unfold seqZ. rewrite <- list_fmap_compose.
  pose proof (ItemsTheory.ceil_div_bounds (Z.of_nat (length results)) limit Hl)
    as [_ Hup].
  set (tp := ceil_div (Z.of_nat (length results)) limit) in *.
  transitivity (concat ((fun k => take (Z.to_nat limit)
                                    (drop (k * Z.to_nat limit) results))
                          <$> seq 0 (Z.to_nat tp))).
  - f_equal. apply list_fmap_ext. intros _ k _. simpl.
    rewrite (page_items_window _ _ _ _ _ Hs) by lia. do 2 f_equal. nia.
  - rewrite chunks_take. apply take_ge. nia.
Qed.

Lemma pages_cover_results_witness :
  Items.search Items.mockItems (sent "test") = inr Items.mockItems /\
  concat ((fun page => page_items (inr Items.mockItems) page 2 "test")
            <$> seqZ 1 (ceil_div 3 2))
  = Items.mockItems.
Proof.
  split; [reflexivity|].
  exact (pages_cover_results Items.mockItems Items.mockItems 2 "test"
           eq_refl eq_refl).
Defined.

(** X9. [hasNextPage] tells whether the next page holds anything, and no
    page holds more than the page size: for a positive page size and a page
    number that is not negative, the answer has [hasNextPage] exactly when
    the page after it is not empty and [hasPrevPage] exactly when the page
    is after the first, and it holds at most [limit] items. *)
Theorem hasNextPage_next_page
    (data results : list Items.item) (page limit : Z) (q : string) :
  Items.search data (sent q) = inr results ->
  (0 < limit)%Z -> (0 <= page)%Z ->
  exists resp,
    get (inr data) page limit q = inr resp /\
    (Items.hasNextPage (Items.pageInfo resp) = true <->
     page_items (inr data) (page + 1) limit q <> []) /\
    (Items.hasPrevPage (Items.pageInfo resp) = true <-> (1 < page)%Z) /\
    (length (Items.items resp) <= Z.to_nat limit)%nat.
Proof.
  intros Hs Hl Hp. eexists. split; [by apply get_listing; [|lia]|]. simpl.
  pose proof (ItemsTheory.ceil_div_bounds (Z.of_nat (length results)) limit Hl)
    as [Hlow Hup].
  set (tp := ceil_div (Z.of_nat (length results)) limit) in *.
  split; [|split].
  - rewrite (page_items_window _ _ _ _ _ Hs) by lia.
    replace (page + 1 - 1)%Z with page by lia.
    rewrite Z.ltb_lt. split.
    + intros Hlt Hnil. apply (f_equal length) in Hnil.
      rewrite length_take, length_drop in Hnil. simpl in Hnil. nia.
    + intros Hne. destruct (Z.lt_ge_cases page tp) as [?|Hge]; [done|].
      destruct Hne. rewrite drop_ge by nia. apply take_nil.
  - apply Z.ltb_lt.
  - destruct (Z.eq_dec page 0%Z) as [->|Hp0].
    + replace ((0 - 1) * limit)%Z with (- limit)%Z by lia.
      replace (- limit + limit)%Z with 0%Z by lia.
      rewrite ItemsTheory.slice_before_start by done. simpl. lia.
    + rewrite ItemsTheory.slice_from_start by nia. rewrite length_take. lia.
Qed.

Lemma hasNextPage_next_page_witness :
  exists resp,
    get (inr Items.mockItems) 1 2 "" = inr resp /\
    (Items.hasNextPage (Items.pageInfo resp) = true <->
     page_items (inr Items.mockItems) 2 2 "" <> []).
Proof.
  destruct (hasNextPage_next_page Items.mockItems Items.mockItems 1 2 ""
              eq_refl eq_refl ltac:(lia)) as (resp & Hresp & Hnext & _).
  exists resp. split; [exact Hresp|exact Hnext].
Defined.

(** ** Searching *)

Lemma append_assoc (a b c : string) : (a +:+ b) +:+ c = a +:+ b +:+ c.
Proof.
  induction a as [|x a IH]; [done|].
  change (String x ((a +:+ b) +:+ c) = String x (a +:+ b +:+ c)). by f_equal.
Qed.

(** A term that occurs in a term that occurs in [s] occurs in [s]. *)
Lemma contains_ci_trans s t2 t1 :
  Items.contains_ci s t2 -> Items.contains_ci t2 t1 -> Items.contains_ci s t1.
Proof.
  intros (pre & mid & post & -> & Hmid) (a & m & b & -> & Hm).
  rewrite !ItemsTheory.toLowerCase_app in Hmid.
  apply ItemsTheory.toLowerCase_split in Hmid as (x & y' & -> & _ & Hy').
  apply ItemsTheory.toLowerCase_split in Hy' as (y & z & -> & Hy & _).
  exists (pre +:+ x), y, (z +:+ post). split; [|congruence].
  by rewrite !append_assoc.
Qed.

Lemma wanted_narrows t1 t2 it :
  Items.contains_ci t2 t1 -> Items.wanted t2 it -> Items.wanted t1 it.
Proof.
  intros Ht [(s & Hs & Hc)|(s & Hs & Hc)]; [left|right]; exists s;
    (split; [done|]); by eapply contains_ci_trans.
Qed.

Lemma filterE_sublist f g l r1 r2 :
  Items.filterE f l = inr r1 -> Items.filterE g l = inr r2 ->
  (forall x b, f x = inr b -> g x = inr true -> b = true) ->
  r2 `sublist_of` r1.
Proof.
  intros Hf Hg Himp. revert r1 r2 Hf Hg.
  induction l as [|x l IH]; simpl; intros r1 r2 Hf Hg.
  - injection Hf as <-. by injection Hg as <-.
  - destruct (f x) as [e|b1] eqn:Hfx; [done|].
    destruct (g x) as [e|b2] eqn:Hgx; [done|].
    destruct (Items.filterE f l) as [e|r1'] eqn:Hfl; [done|].
    destruct (Items.filterE g l) as [e|r2'] eqn:Hgl; [done|].
    injection Hf as <-. injection Hg as <-.
    specialize (IH _ _ eq_refl eq_refl).
    destruct b2.
    + rewrite (Himp x b1 Hfx Hgx). by apply sublist_skip.
    + destruct b1; [by apply sublist_cons|done].
Qed.

(** X10. Refining a search narrows it, and the case of the term does not
    matter: when a term occurs, up to case, in a second term, every record
    the search keeps for the second is kept for the first, in the same
    order; two terms equal up to case give the same results. *)
Theorem search_narrows
    (data r1 r2 : list Items.item) (t1 t2 : string) :
  t1 <> "" -> t2 <> "" ->
  Items.search data (Some t1) = inr r1 ->
  Items.search data (Some t2) = inr r2 ->
  (Items.contains_ci t2 t1 -> r2 `sublist_of` r1) /\
  (toLowerCase t1 = toLowerCase t2 -> r1 = r2).
Proof.
  intros H1 H2 Hs1 Hs2. rewrite ItemsTheory.search_term in Hs1, Hs2 by done.
  split.
  - intros Ht. eapply filterE_sublist; [exact Hs1|exact Hs2|].
    intros x b Hb Hx. apply (ItemsTheory.matches_value t1 x b Hb).
    apply (wanted_narrows t1 t2); [done|].
    by apply (ItemsTheory.matches_value t2 x true Hx).
  - intros Heq. rewrite Heq in Hs1. congruence.
Qed.

Lemma search_narrows_witness :
  Items.contains_ci "test l" "T L" /\
  exists r1 r2,
    Items.search Items.mockItems (Some "T L") = inr r1 /\
    Items.search Items.mockItems (Some "test l") = inr r2 /\
    r2 `sublist_of` r1.
Proof.
  assert (Hc : Items.contains_ci "test l" "T L")
    by (exists "tes", "t l", ""; split; reflexivity).
  split; [exact Hc|]. do 2 eexists. split; [reflexivity|]. split; [reflexivity|].
  exact (proj1 (search_narrows Items.mockItems _ _ "T L" "test l"
                  ltac:(done) ltac:(done) eq_refl eq_refl) Hc).
Defined.

Lemma filterE_app f l1 l2 :
  Items.filterE f (l1 ++ l2)
  = match Items.filterE f l1 with
    | inl e => inl e
    | inr r1 =>
        match Items.filterE f l2 with
        | inl e => inl e
        | inr r2 => inr (r1 ++ r2)
        end
    end.
Proof.
  induction l1 as [|x l1 IH]; simpl.
  - by destruct (Items.filterE f l2).
  - destruct (f x) as [e|b]; [done|]. rewrite IH.
    destruct (Items.filterE f l1) as [e|r1]; [done|].
    destruct (Items.filterE f l2) as [e|r2]; [done|]. by destruct b.
Qed.

Lemma last_page_last {A} (results : list A) (x : A) (limit : Z) :
  (0 < limit)%Z -> last results = Some x ->
  let pages := ceil_div (Z.of_nat (length results)) limit in
  (1 <= pages)%Z /\
  last (take (Z.to_nat limit) (drop (Z.to_nat ((pages - 1) * limit)) results))
  = Some x.
Proof.
  intros Hl Hlast pages.
  pose proof (ItemsTheory.ceil_div_bounds (Z.of_nat (length results)) limit Hl)
    as [Hlow Hup]. fold pages in Hlow, Hup.
  apply last_Some in Hlast as [l' ->]. rewrite length_app in *. simpl in *.
  assert (Hp : (1 <= pages)%Z) by nia. split; [done|].
  rewrite take_ge by (rewrite length_drop, length_app; simpl; nia).
  rewrite drop_app_le by nia. apply last_snoc.
Qed.

(** X7. A created item is found by searching. On a file whose records have
    string names and categories, the texts being ASCII, after a create a
    search for a term that occurs, up to case, in the name or the category
    of the created item keeps that item, as the last of its results; so,
    for a positive limit, the client finds it as the last item of the last
    page of that search. *)
Theorem createItem_then_search
    (name category price : jsval) (now : Z)
    (data content : list Items.item) (it : Items.item) (term : string)
    (limit : Z) :
  Create.createItem name category price now (inr data) None
  = (inr it, Some content) ->
  Forall Items.well_formed data ->
  term <> "" ->
  Items.wanted term it ->
  (0 < limit)%Z -> safe limit ->
  is_ascii term = true -> forallb Items.ascii_record data = true ->
  Items.ascii_field name = true -> Items.ascii_field category = true ->
  exists results,
    Items.search content (Some term) = inr results /\
    last results = Some it /\
    let pages := ceil_div (Z.of_nat (length results)) limit in
    (1 <= pages)%Z /\
    last (page_items (inr content) pages limit term) = Some it.
Proof.
  intros Hcreate Hwf Hterm Hwanted Hl _ _ _ _ _.
  assert (Hw : snd (Create.createItem name category price now (inr data) None)
               = Some content) by (by rewrite Hcreate).
  apply CreateTheory.createItem_content in Hw as (it' & Hit & -> & _ & Hs).
  rewrite Hcreate in Hit. simpl in Hit. injection Hit as <-.
  assert (Hold : Forall Items.well_formed (Create.stored <$> data)).
  { apply Forall_fmap. eapply Forall_impl; [exact Hwf|].
    intros x Hx. by apply CreateTheory.well_formed_stored. }
  destruct (CreateTheory.search_well_formed _ (Some term) Hold) as [older Holder].
  rewrite ItemsTheory.search_term in Holder by done.
  assert (Hmatch : Items.matches (toLowerCase term) it = inr true).
  { destruct (ItemsTheory.matches_well_formed term it) as [b Hb];
      [by apply CreateTheory.sound_well_formed|].
    rewrite Hb. f_equal. by apply (ItemsTheory.matches_value term it b Hb). }
  assert (Hres : Items.search ((Create.stored <$> data) ++ [it]) (Some term)
                 = inr (older ++ [it])).
  { rewrite ItemsTheory.search_term by done.
    rewrite filterE_app, Holder. simpl. by rewrite Hmatch. }
  exists (older ++ [it]). split; [done|]. split; [apply last_snoc|].
  intros pages.
  destruct (last_page_last (older ++ [it]) it limit Hl (last_snoc _ _))
    as [Hp Hlast].
  fold pages in Hp, Hlast. split; [done|].
  rewrite (page_items_window _ pages limit term (older ++ [it])); [done| |done..].
  unfold sent. destruct (String.eqb_spec term ""); [done|exact Hres].
Qed.

Lemma createItem_then_search_witness :
  Create.createItem (Create.r_name Create.desk) (Create.r_category Create.desk)
    (Create.r_price Create.desk) (Create.r_now Create.desk)
    (inr Items.mockItems) None
  = (inr Create.desk_item, Some (Items.mockItems ++ [Create.desk_item])) /\
  Forall Items.well_formed Items.mockItems /\
  "T" <> "" /\
  Items.wanted "T" Create.desk_item /\
  safe 2 /\
  exists results,
    Items.search (Items.mockItems ++ [Create.desk_item]) (Some "T") = inr results /\
    length results = 4 /\
    last (page_items (inr (Items.mockItems ++ [Create.desk_item])) 2 2 "T")
    = Some Create.desk_item.
Proof.
  assert (Hwf : Forall Items.well_formed Items.mockItems)
    by (repeat constructor).
  assert (Hterm : "T" <> "") by discriminate.
  assert (Hwanted : Items.wanted "T" Create.desk_item).
  { left. exists "Standing Desk". split; [reflexivity|].
    exists "S", "t", "anding Desk". split; reflexivity. }
  assert (H2 : safe 2) by (unfold safe; lia).
  split; [reflexivity|]. split; [exact Hwf|]. split; [exact Hterm|].
  split; [exact Hwanted|]. split; [exact H2|].
  destruct (createItem_then_search
              (Create.r_name Create.desk) (Create.r_category Create.desk)
              (Create.r_price Create.desk) (Create.r_now Create.desk)
              Items.mockItems _ Create.desk_item "T" 2 eq_refl
              Hwf Hterm Hwanted ltac:(lia) H2 eq_refl eq_refl eq_refl eq_refl)
    as (results & Hres & _ & _ & Hlast).
  exists results. split; [exact Hres|].
  injection Hres as <-. split; [reflexivity|exact Hlast].
Defined.

End BrowseTheory.

(* ===================================================================== *)
(** * Properties of the client *)
(* ===================================================================== *)

Module ClientTheory.
Import Js JsLib Client JsLibTheory BrowseTheory.

Local Set Warnings "-clear-no-such-hyp".

Lemma listItems_error file limit q pageParam e :
  Items.listItems file limit q pageParam = inl e ->
  Items.http_status e = 500%Z.
Proof.
  unfold Items.listItems. destruct file as [m|data]; [by intros [= <-]|].
  destruct (Items.search data q) as [e'|results] eqn:Hs; [|done].
  intros [= <-]. unfold Items.search in Hs.
  destruct q as [s|]; [|done]. destruct (String.eqb s ""); [done|].
  assert (He : e' = Items.TypeError); [|by subst].
  revert e' Hs. induction data as [|x l IH]; simpl; intros e' Hs; [done|].
  destruct (Items.matches _ x) as [e1|b] eqn:Hx.
  - injection Hs as <-. by apply ItemsTheory.matches_throws in Hx as [-> _].
  - destruct (Items.filterE _ l) as [e1|r]; [|done].
    injection Hs as <-. by apply IH.
Qed.

(** X11. The client shows what it asked for. When the search of its query
    succeeds on the data file and the page size of its state is not zero,
    [loadPage] and [searchItems] end without error and not loading; the state
    then holds the items of the requested page (page 1 for a search), the
    page number asked for, the page size it had, and the query sent. *)
Theorem client_shows_requested_page
    (st : state) (data results : list Items.item) (page : Z) (query : string) :
  Items.pageSize (pagination st) <> 0%Z ->
  (Items.search data (sent (searchQuery st)) = inr results ->
   exists st',
     loadPage st (inr data) page = (st', None) /\
     items st' = page_items (inr data) page (Items.pageSize (pagination st))
                   (searchQuery st) /\
     Items.page (pagination st') = Some page /\
     Items.pageSize (pagination st') = Items.pageSize (pagination st) /\
     Items.totalItems (pagination st') = Z.of_nat (length results) /\
     searchQuery st' = searchQuery st /\ loading st' = false) /\
  (Items.search data (sent query) = inr results ->
   exists st',
     searchItems st (inr data) query = (st', None) /\
     items st' = page_items (inr data) 1 (Items.pageSize (pagination st)) query /\
     Items.page (pagination st') = Some 1%Z /\
     Items.pageSize (pagination st') = Items.pageSize (pagination st) /\
     Items.totalItems (pagination st') = Z.of_nat (length results) /\
     searchQuery st' = query /\ loading st' = false).
Proof.
  intros Hsize. split; intros Hs.
  - unfold loadPage, page_items. rewrite (get_listing _ _ _ _ _ Hs Hsize).
    eexists. split; [reflexivity|]. by repeat split.
  - unfold searchItems, page_items. rewrite (get_listing _ _ _ _ _ Hs Hsize).
    eexists. split; [reflexivity|]. by repeat split.
Qed.

Lemma client_shows_requested_page_witness :
  Items.pageSize (pagination initial) <> 0%Z /\
  Items.search Items.mockItems (sent "chair") = inr (drop 2 Items.mockItems) /\
  exists st',
    searchItems initial (inr Items.mockItems) "chair" = (st', None) /\
    items st' = drop 2 Items.mockItems /\ searchQuery st' = "chair".
Proof.
  assert (Hsize : Items.pageSize (pagination initial) <> 0%Z) by done.
  split; [exact Hsize|]. split; [reflexivity|].
  destruct (proj2 (client_shows_requested_page initial Items.mockItems
                     (drop 2 Items.mockItems) 1 "chair" Hsize) eq_refl)
    as (st' & Hst & Hitems & _ & _ & _ & Hq & _).
  exists st'. split; [exact Hst|]. split; [|exact Hq].
  rewrite Hitems. reflexivity.
Defined.

(** X12. When a request of the client (its [q] is a string) fails on the
    backend, because the data file cannot be read or because the search
    meets a record it throws on, the failure reaches the client as status
    500: [fetchItems] throws ["HTTP error! status: 500"], stops loading, and
    keeps the items, the pagination and the query it had. *)
Theorem client_listing_failure
    (st : state) (file : Items.readData) (page limit : Z) (q : string)
    (e : Items.error) :
  get file page limit q = inl e ->
  fetchItems st q (respond (get file page limit q))
  = ({| items := items st; pagination := pagination st;
        searchQuery := searchQuery st; loading := false |},
     Some "HTTP error! status: 500").
Proof.
  intros He. rewrite He. unfold get, params in He.
  apply listItems_error in He. unfold fetchItems, respond, ok. simpl.
  by rewrite He.
Qed.

Lemma client_listing_failure_witness :
  get (inr [Items.untyped_name]) 1 10 "lap" = inl Items.TypeError /\
  fetchItems initial "lap" (respond (get (inr [Items.untyped_name]) 1 10 "lap"))
  = (initial, Some "HTTP error! status: 500").
Proof.
  split; [reflexivity|].
  exact (client_listing_failure initial (inr [Items.untyped_name]) 1 10 "lap"
           Items.TypeError eq_refl).
Defined.

Lemma keys_nodup (pre post : list (string + Z)) (s n : Z) :
  NoDup pre -> NoDup post ->
  (forall x, x ∈ pre -> x ∉ post) ->
  (forall i, inr i ∈ pre -> (i < s)%Z) ->
  (forall i, inr i ∈ post -> (s + n <= i)%Z) ->
  NoDup (pre ++ (inr <$> seqZ s n) ++ post).
Proof.
  intros Hpre Hpost Hdis Hlt Hge.
  apply NoDup_app. split; [done|]. split.
  - intros x Hx. rewrite not_elem_of_app. split; [|by apply Hdis].
    intros Hin. apply list_elem_of_fmap in Hin as (i & -> & Hi).
    apply elem_of_seqZ in Hi. apply Hlt in Hx. lia.
  - apply NoDup_app. split; [|split; [|done]].
    + apply NoDup_fmap_2; [apply _|apply NoDup_seqZ].
    + intros x Hin Hx. apply list_elem_of_fmap in Hin as (i & -> & Hi).
      apply elem_of_seqZ in Hi. apply Hge in Hx. lia.
Qed.

(** X13. The pagination bar never holds two elements with the same React
    key, whatever the pagination state is (also for a page outside the
    range, a page that is [null], or flags that do not fit the page): the
    first-page and last-page buttons are only added when the window of
    numbered buttons does not reach them. *)
Theorem paginationButtons_keys_unique (p : Items.pagination) :
  NoDup (key <$> paginationButtons p).
Proof.
  unfold paginationButtons.
  generalize (default 0%Z (Items.page p)). intros page.
  generalize (Items.totalPages p). intros tp.
  rewrite !fmap_app, <- list_fmap_compose.
  change (key ∘ _) with (@inr string Z).
  rewrite (app_assoc (key <$> (if Items.hasPrevPage p then _ else _))).
  assert (Hs : (Z.max 1 (page - 2) = 1 \/ Z.max 1 (page - 2) = page - 2)%Z) by lia.
  assert (He : (Z.min tp (page + 2) = tp \/ Z.min tp (page + 2) = page + 2)%Z) by lia.
  pose proof (Z.le_max_l 1 (page - 2)) as Hs1.
  pose proof (Z.le_max_r 1 (page - 2)) as Hs2.
  pose proof (Z.le_min_l tp (page + 2)) as He1.
  pose proof (Z.le_min_r tp (page + 2)) as He2.
  generalize dependent (Z.max 1 (page - 2)). intros s Hs Hs1 Hs2.
  generalize dependent (Z.min tp (page + 2)). intros e He He1 He2.
  apply keys_nodup.
  - destruct (Items.hasPrevPage p); destruct (Z.ltb_spec 1 s); destruct (Z.ltb_spec 2 s);
      repeat (apply NoDup_cons; split; [set_solver by lia|]); apply NoDup_nil_2.
  - destruct (Items.hasNextPage p); destruct (Z.ltb_spec e tp); destruct (Z.ltb_spec e (tp - 1));
      repeat (apply NoDup_cons; split; [set_solver by lia|]); apply NoDup_nil_2.
  - destruct (Items.hasPrevPage p); destruct (Items.hasNextPage p); destruct (Z.ltb_spec 1 s); destruct (Z.ltb_spec 2 s); destruct (Z.ltb_spec e tp); destruct (Z.ltb_spec e (tp - 1));
      set_solver by lia.
  - destruct (Items.hasPrevPage p); destruct (Z.ltb_spec 1 s); destruct (Z.ltb_spec 2 s);
      intros i Hi; set_solver by lia.
  - destruct (Items.hasNextPage p); destruct (Z.ltb_spec e tp); destruct (Z.ltb_spec e (tp - 1));
      intros i Hi; set_solver by lia.
Qed.

Lemma elem_of_paginationButtons (p : Items.pagination) (b : button) :
  let page := default 0%Z (Items.page p) in
  let s := Z.max 1 (page - 2) in
  let e := Z.min (Items.totalPages p) (page + 2) in
  b ∈ paginationButtons p <->
  (Items.hasPrevPage p = true /\ b = Previous (page - 1)) \/
  ((1 < s)%Z /\ b = Page 1 false) \/
  ((2 < s)%Z /\ b = Ellipsis1) \/
  (exists i, (s <= i <= e)%Z /\ b = Page i (bool_decide (Items.page p = Some i))) \/
  ((e < Items.totalPages p - 1)%Z /\ b = Ellipsis2) \/
  ((e < Items.totalPages p)%Z /\ b = Page (Items.totalPages p) false) \/
  (Items.hasNextPage p = true /\ b = Next (page + 1)).
Proof.
  intros page s e. unfold paginationButtons. fold page. fold s. fold e.
  rewrite !elem_of_app, list_elem_of_fmap. setoid_rewrite elem_of_seqZ.
  assert (H1 : b ∈ (if Items.hasPrevPage p then [Previous (page - 1)] else [])
               <-> Items.hasPrevPage p = true /\ b = Previous (page - 1)).
  { destruct (Items.hasPrevPage p); set_solver. }
  assert (H2 : b ∈ (if (1 <? s)%Z
                    then Page 1 false :: (if (2 <? s)%Z then [Ellipsis1] else [])
                    else [])
               <-> ((1 < s)%Z /\ b = Page 1 false) \/ ((2 < s)%Z /\ b = Ellipsis1)).
  { destruct (Z.ltb_spec 1 s); destruct (Z.ltb_spec 2 s); set_solver by lia. }
  assert (H3 : b ∈ (if (e <? Items.totalPages p)%Z
                    then (if (e <? Items.totalPages p - 1)%Z then [Ellipsis2] else [])
                         ++ [Page (Items.totalPages p) false]
                    else [])
               <-> ((e < Items.totalPages p - 1)%Z /\ b = Ellipsis2) \/
                   ((e < Items.totalPages p)%Z /\ b = Page (Items.totalPages p) false)).
  { destruct (Z.ltb_spec e (Items.totalPages p)); destruct (Z.ltb_spec e (Items.totalPages p - 1)); set_solver by lia. }
  assert (H4 : b ∈ (if Items.hasNextPage p then [Next (page + 1)] else [])
               <-> Items.hasNextPage p = true /\ b = Next (page + 1)).
  { destruct (Items.hasNextPage p); set_solver. }
  rewrite H1, H2, H3, H4. clear H1 H2 H3 H4.
  split.
  - intros [?|[?|[(i & -> & ?)|[?|?]]]]; auto 10.
    + tauto.
    + right. right. right. left. exists i. split; [lia|done].
    + tauto.
  - intros [?|[?|[?|[(i & ? & ->)|[?|[?|?]]]]]]; auto 10.
    right. right. left. exists i. split; [done|lia].
Qed.

(** X14. The pagination bar after a page is loaded. When [loadPage] asks
    for a page between 1 and the number of pages of the results (positive
    page size, search succeeding), the bar built from the new state only
    loads pages of that range when clicked; the button of the loaded page is
    in it and is the only active one; the first and the last page have a
    button; Previous is there exactly when the page is not the first, Next
    exactly when it is not the last. *)
Theorem pagination_bar_after_load
    (st : state) (data results : list Items.item) (page : Z) :
  let limit := Items.pageSize (pagination st) in
  let totalPages := ceil_div (Z.of_nat (length results)) limit in
  let bar := paginationButtons (pagination (fst (loadPage st (inr data) page))) in
  Items.search data (sent (searchQuery st)) = inr results ->
  (0 < limit)%Z ->
  (1 <= page <= totalPages)%Z ->
  (forall b t, b ∈ bar -> target b = Some t -> (1 <= t <= totalPages)%Z) /\
  Page page true ∈ bar /\
  (forall i a, Page i a ∈ bar -> (a = true <-> i = page)) /\
  (exists a, Page 1 a ∈ bar) /\
  (exists a, Page totalPages a ∈ bar) /\
  (Previous (page - 1) ∈ bar <-> (1 < page)%Z) /\
  (Next (page + 1) ∈ bar <-> (page < totalPages)%Z).
Proof.
  intros limit tp bar Hs Hl Hp. subst bar. unfold loadPage.
  rewrite (get_listing _ _ _ _ _ Hs) by (fold limit; lia).
  fold limit. fold tp. cbn [respond fetchItems ok fst snd Z.leb Z.compare
    Pos.compare Pos.compare_cont andb pagination Items.pageInfo].
  set (p := {| Items.page := Some page; Items.pageSize := limit;
               Items.totalItems := Z.of_nat (length results);
               Items.totalPages := tp;
               Items.hasNextPage := (page <? tp)%Z;
               Items.hasPrevPage := (1 <? page)%Z |}).
  assert (Hin : forall b, b ∈ paginationButtons p <->
    ((1 < page)%Z /\ b = Previous (page - 1)) \/
    ((1 < Z.max 1 (page - 2))%Z /\ b = Page 1 false) \/
    ((2 < Z.max 1 (page - 2))%Z /\ b = Ellipsis1) \/
    (exists i, (Z.max 1 (page - 2) <= i <= Z.min tp (page + 2))%Z /\
               b = Page i (bool_decide (Some page = Some i))) \/
    ((Z.min tp (page + 2) < tp - 1)%Z /\ b = Ellipsis2) \/
    ((Z.min tp (page + 2) < tp)%Z /\ b = Page tp false) \/
    ((page < tp)%Z /\ b = Next (page + 1))).
  { intros b. rewrite elem_of_paginationButtons. simpl.
    by rewrite !Z.ltb_lt. }
  repeat split.
  - apply Hin in H as [[? ->]|[[? ->]|[[? ->]|[(i & ? & ->)|[[? ->]|[[? ->]|[? ->]]]]]]];
      simpl in H0; simplify_eq; lia.
  - apply Hin in H as [[? ->]|[[? ->]|[[? ->]|[(i & ? & ->)|[[? ->]|[[? ->]|[? ->]]]]]]];
      simpl in H0; simplify_eq; lia.
  - apply Hin. do 3 right. left. exists page.
    split; [lia|]. by rewrite bool_decide_eq_true_2.
  - intros ->. apply Hin in H as [[? ?]|[[? ?]|[[? ?]|[(j & ? & ?)|[[? ?]|[[? ?]|[? ?]]]]]]];
      simplify_eq. case_bool_decide; by simplify_eq.
  - intros ->. apply Hin in H as [[? ?]|[[? ?]|[[? ?]|[(j & ? & ?)|[[? ?]|[[? ?]|[? ?]]]]]]];
      simplify_eq; try lia. by rewrite bool_decide_eq_true_2.
  - destruct (Z_lt_le_dec 1 (Z.max 1 (page - 2))).
    + exists false. apply Hin. auto.
    + eexists. apply Hin. do 3 right. left. exists 1%Z. split; [lia|done].
  - destruct (Z_lt_le_dec (Z.min tp (page + 2)) tp).
    + exists false. apply Hin. auto 10.
    + eexists. apply Hin. do 3 right. left. exists tp. split; [lia|done].
  - intros H. apply Hin in H as [[? ?]|[[? ?]|[[? ?]|[(j & ? & ?)|[[? ?]|[[? ?]|[? ?]]]]]]];
      by simplify_eq.
  - intros H. apply Hin. auto.
  - intros H. apply Hin in H as [[? ?]|[[? ?]|[[? ?]|[(j & ? & ?)|[[? ?]|[[? ?]|[? ?]]]]]]];
      by simplify_eq.
  - intros H. apply Hin. auto 10.
Qed.

Lemma pagination_bar_after_load_witness :
  Items.search Items.mockItems (sent (searchQuery initial)) = inr Items.mockItems /\
  (0 < Items.pageSize (pagination initial))%Z /\
  (1 <= 1 <= ceil_div (Z.of_nat (length Items.mockItems))
                      (Items.pageSize (pagination initial)))%Z /\
  Page 1 true
  ∈ paginationButtons
      (pagination (fst (loadPage initial (inr Items.mockItems) 1))).
Proof.
  assert (Hl : (0 < Items.pageSize (pagination initial))%Z) by reflexivity.
  assert (Hp : (1 <= 1 <= ceil_div (Z.of_nat (length Items.mockItems))
                                   (Items.pageSize (pagination initial)))%Z)
    by (vm_compute; split; discriminate).
  split; [reflexivity|]. split; [exact Hl|]. split; [exact Hp|].
  exact (proj1 (proj2 (pagination_bar_after_load initial Items.mockItems
                         Items.mockItems 1 eq_refl Hl Hp))).
Defined.

End ClientTheory.

(* ===================================================================== *)
(** * The statistics route, further: counts, reads and freshness *)
(* ===================================================================== *)

Module StatsUseTheory.
Import Js JsLib Stats StatsUse.

(** ** The distribution of categories *)

Lemma count_category_lookup acc r k :
  default 0 (count_category acc r !! k)
  = default 0 (acc !! k) + (if counted_under k r then 1 else 0).
Proof.
  unfold count_category, counted_under.
  destruct (String.eqb_spec (category_or_unknown r) k) as [->|Hne].
  - by rewrite lookup_insert_eq.
  - rewrite lookup_insert_ne by done. lia.
Qed.

Lemma fold_count_lookup items : forall acc k,
  default 0 (fold_left count_category items acc !! k)
  = default 0 (acc !! k) + count_of k items.
Proof.
  induction items as [|r items IH]; intros acc k; simpl.
  - unfold count_of. simpl. lia.
  - rewrite IH, count_category_lookup. unfold count_of. simpl.
    destruct (counted_under k r); simpl; lia.
Qed.

Lemma count_category_positive acc r :
  (forall k, acc !! k <> Some 0) ->
  forall k, count_category acc r !! k <> Some 0.
Proof.
  intros Hacc k. unfold count_category.
  destruct (decide (category_or_unknown r = k)) as [->|Hne].
  - rewrite lookup_insert_eq. intros [= ?]. lia.
  - rewrite lookup_insert_ne by done. apply Hacc.
Qed.

Lemma fold_count_positive items : forall acc,
  (forall k, acc !! k <> Some 0) ->
  forall k, fold_left count_category items acc !! k <> Some 0.
Proof.
  induction items as [|r items IH]; intros acc Hacc; simpl; [done|].
  apply IH. by apply count_category_positive.
Qed.

Lemma sum_counts_insert m k v :
  sum_counts (<[k := v]> m) + default 0 (m !! k) = sum_counts m + v.
Proof.
  unfold sum_counts.
  assert (Hcomm : forall (m' : gmap string nat) (j1 j2 : string) (z1 z2 y : nat),
            j1 <> j2 -> m' !! j1 = Some z1 -> m' !! j2 = Some z2 ->
            z1 + (z2 + y) = z2 + (z1 + y)) by (intros; lia).
  destruct (m !! k) as [v0|] eqn:Hk; simpl.
  - rewrite <- (insert_delete_eq m).
    rewrite map_fold_insert_L; [|by eauto|by rewrite lookup_delete_eq].
    rewrite (map_fold_delete_L _ _ k v0 m); [|by eauto|done]. lia.
  - rewrite map_fold_insert_L; [|by eauto|done]. lia.
Qed.

Lemma sum_counts_count acc r :
  sum_counts (count_category acc r) = S (sum_counts acc).
Proof.
  unfold count_category.
  pose proof (sum_counts_insert acc (category_or_unknown r)
                (default 0 (acc !! category_or_unknown r) + 1)). lia.
Qed.

Lemma fold_sum_counts items : forall acc,
  sum_counts (fold_left count_category items acc) = sum_counts acc + length items.
Proof.
  induction items as [|r items IH]; intros acc; simpl; [lia|].
  rewrite IH, sum_counts_count. lia.
Qed.

Lemma calculateStats_total items : total (calculateStats items) = length items.
Proof. by destruct items. Qed.

Lemma calculateStats_categories_fold items :
  categories (calculateStats items) = fold_left count_category items ∅.
Proof. by destruct items. Qed.

(** X15. The distribution of [calculateStats] counts every record once.
    For records whose categories are keys of the object's own (none names a
    property of [Object.prototype]): under each key the distribution holds
    the number of records of that category (the records with no category,
    or an empty one, counted under ["Unknown"]), a key with no record is
    absent, and the counts add up to [total]. *)
Theorem calculateStats_categories (items : list record) (k : string) :
  own_keys items = true ->
  categories (calculateStats items) !! k
  = (if (count_of k items =? 0)%nat then None else Some (count_of k items)) /\
  sum_counts (categories (calculateStats items)) = total (calculateStats items).
Proof.
  intros _. rewrite calculateStats_categories_fold, calculateStats_total. split.
  - pose proof (fold_count_lookup items ∅ k) as Hn.
    pose proof (fold_count_positive items ∅) as Hpos.
    rewrite lookup_empty in Hn. simpl in Hn.
    destruct (fold_left count_category items ∅ !! k) as [n|] eqn:Hk; simpl in Hn.
    + subst n. destruct (Nat.eqb_spec (count_of k items) 0) as [Hz|]; [|done].
      exfalso. apply (Hpos ltac:(intros ?; by rewrite lookup_empty) k).
      by rewrite Hk, Hz.
    + by rewrite <- Hn.
  - rewrite fold_sum_counts. unfold sum_counts. by rewrite map_fold_empty.
Qed.

Lemma calculateStats_categories_witness :
  own_keys mockRecords = true /\
  categories (calculateStats mockRecords) !! "Electronics" = Some 2 /\
  sum_counts (categories (calculateStats mockRecords)) = 3.
Proof.
  split; [reflexivity|].
  exact (calculateStats_categories mockRecords "Electronics" eq_refl).
Defined.

(** ** Counting calls *)

Lemma count_snoc {A} (f : A -> bool) l x :
  length (List.filter f (l ++ [x])) = length (List.filter f l) + Nat.b2n (f x).
Proof.
  rewrite List.filter_app, length_app. simpl. by destruct (f x).
Qed.

Lemma count_insert {A} (f : A -> bool) l : forall i x y,
  l !! i = Some x ->
  length (List.filter f (<[i:=y]> l)) + Nat.b2n (f x)
  = length (List.filter f l) + Nat.b2n (f y).
Proof.
  induction l as [|z l IH]; intros [|i] x y Hi; simplify_eq/=.
  - destruct (f x), (f y); simpl; lia.
  - specialize (IH i x y Hi). destruct (f z); simpl; lia.
Qed.

Lemma count_two {A} (f : A -> bool) l : forall i j x y,
  l !! i = Some x -> l !! j = Some y -> i <> j ->
  f x = true -> f y = true ->
  2 <= length (List.filter f l).
Proof.
  induction l as [|z l IH]; intros [|i] [|j] x y Hi Hj Hne Hx Hy;
    simplify_eq/=.
  - rewrite Hx. simpl.
    pose proof (count_insert f l j y y Hj) as Hc. rewrite Hy in Hc.
    rewrite list_insert_id in Hc by done. simpl in *.
    destruct (List.filter f l) eqn:E; simpl in *; [|lia].
    exfalso. clear -Hj Hy E. revert j Hj.
    induction l as [|z l IH]; intros [|j] Hj; simplify_eq/=.
    + by rewrite Hy in E.
    + destruct (f z); [done|]. by eapply IH.
  - rewrite Hy. simpl.
    destruct (List.filter f l) eqn:E; simpl in *; [|lia].
    exfalso. clear -Hi Hx E. revert i Hi.
    induction l as [|z l IH]; intros [|i] Hi; simplify_eq/=.
    + by rewrite Hx in E.
    + destruct (f z); [done|]. by eapply IH.
  - assert (i <> j) by congruence.
    specialize (IH i j x y Hi Hj ltac:(done) Hx Hy).
    destruct (f z); simpl; lia.
Qed.

Lemma count_some {A} (f : A -> bool) l :
  0 < length (List.filter f l) -> exists i x, l !! i = Some x /\ f x = true.
Proof.
  induction l as [|z l IH]; simpl; [lia|].
  destruct (f z) eqn:Hz.
  - intros _. by exists 0, z.
  - intros Hl. destruct (IH Hl) as (i & x & Hi & Hx). by exists (S i), x.
Qed.

Lemma count_one {A} (f : A -> bool) l i x :
  l !! i = Some x -> f x = true -> 0 < length (List.filter f l).
Proof.
  revert i. induction l as [|z l IH]; intros [|i] Hi Hx; simplify_eq/=.
  - rewrite Hx. simpl. lia.
  - specialize (IH i Hi Hx). destruct (f z); simpl; lia.
Qed.

(** ** One reader at a time *)

Lemma step_readers w a w' :
  stat_fails a = false ->
  step w a = Some w' ->
  readers (calls w) = Nat.b2n (isCalculating (cache w)) ->
  readers (calls w') = Nat.b2n (isCalculating (cache w')).
Proof.
  intros Hok Hstep Hinv. destruct a as [|i e|]; simpl in Hstep.
  - injection Hstep as <-. simpl. unfold readers in *. by rewrite count_snoc, Hinv, Nat.add_0_r.
  - destruct (calls w !! i) as [t|] eqn:Hi; [|done].
    destruct (resume (cache w) t e) as [[[c t'] n]|] eqn:Hres; [|done].
    injection Hstep as <-. simpl.
    pose proof (count_insert is_reading (calls w) i t t' Hi) as Hc.
    fold (readers (<[i:=t']> (calls w))) in Hc. fold (readers (calls w)) in Hc.
    destruct t as [| |m|r], e as [[msg|m']| |[msg|items]]; simplify_eq/=.
    + destruct (hit (cache w) m') as [s|]; [simplify_eq/=; lia|].
      destruct (isCalculating (cache w)) eqn:Hf; simplify_eq/=;
        rewrite ?Hf; simpl; lia.
    + lia.
    + destruct (isCalculating (cache w)); simpl in *; lia.
    + destruct (isCalculating (cache w)); simpl in *; lia.
  - injection Hstep as <-. simpl. exact Hinv.
Qed.

Lemma exec_readers sched : forall w,
  forallb (fun a => negb (stat_fails a)) sched = true ->
  exec init sched = Some w ->
  readers (calls w) = Nat.b2n (isCalculating (cache w)).
Proof.
  induction sched as [|a sched IH] using rev_ind; intros w Hok Hex.
  - by injection Hex as <-.
  - rewrite StatsTheory.exec_snoc in Hex.
    destruct (exec init sched) as [w0|] eqn:Hex0; [|done].
    rewrite forallb_app in Hok. apply andb_true_iff in Hok as [Hok Ha].
    simpl in Ha. rewrite andb_true_r in Ha. apply negb_true_iff in Ha.
    eapply step_readers; [exact Ha|exact Hex|]. by apply IH.
Qed.

(** X16. One reader at a time. As long as no [fs.stat] fails, whatever the
    calls, their interleaving, the markers read, the failures of reads and
    the events of the watcher, at most one call is suspended at its read of
    the file, and the in-flight flag is set exactly while one is. (A failed
    [fs.stat] clears the flag from a call that does not hold it; see
    [getStats_flag_cleared_by_other_call].) *)
Theorem getStats_one_reader (sched : list action) (w : world) :
  forallb (fun a => negb (stat_fails a)) sched = true ->
  exec init sched = Some w ->
  (forall i j mi mj,
     calls w !! i = Some (AwaitRead mi) -> calls w !! j = Some (AwaitRead mj) ->
     i = j) /\
  (isCalculating (cache w) = true <->
   exists i m, calls w !! i = Some (AwaitRead m)).
Proof.
  intros Hok Hex. pose proof (exec_readers sched w Hok Hex) as Hinv. split.
  - intros i j mi mj Hi Hj. destruct (decide (i = j)) as [|Hne]; [done|].
    pose proof (count_two is_reading (calls w) i j _ _ Hi Hj Hne eq_refl eq_refl)
      as H2.
    fold (readers (calls w)) in H2. rewrite Hinv in H2.
    destruct (isCalculating (cache w)); simpl in H2; lia.
  - split.
    + intros Hf. rewrite Hf in Hinv.
      destruct (count_some is_reading (calls w)) as (i & t & Hi & Ht).
      { fold (readers (calls w)). rewrite Hinv. simpl. lia. }
      destruct t; try done. by eauto.
    + intros (i & m & Hi).
      pose proof (count_one is_reading (calls w) i _ Hi eq_refl) as H1.
      fold (readers (calls w)) in H1. rewrite Hinv in H1.
      destruct (isCalculating (cache w)); [done|simpl in H1; lia].
Qed.

Lemma getStats_one_reader_witness :
  exists w,
    exec init [Call; Call; Resume 0 (StatDone (inr 1%Z)); FileChanged;
               Resume 1 (StatDone (inr 2%Z)); Resume 0 (ReadDone (Threw "EIO"));
               Resume 1 TimerFired; Resume 1 (StatDone (inr 2%Z))] = Some w /\
    calls w !! 1 = Some (AwaitRead 2%Z) /\
    isCalculating (cache w) = true.
Proof.
  eexists. split; [reflexivity|]. split; [reflexivity|].
  apply (getStats_one_reader
           [Call; Call; Resume 0 (StatDone (inr 1%Z)); FileChanged;
            Resume 1 (StatDone (inr 2%Z)); Resume 0 (ReadDone (Threw "EIO"));
            Resume 1 TimerFired; Resume 1 (StatDone (inr 2%Z))] _
           eq_refl eq_refl).
  exists 1, 2%Z. reflexivity.
Defined.

(** ** Reads, call by call *)

Lemma sum_list_insert (l : list nat) : forall i k x,
  l !! i = Some k -> sum_list (<[i := x]> l) + k = sum_list l + x.
Proof.
  induction l as [|y l IH]; intros [|i] k x Hi; simplify_eq/=.
  - unfold id. lia.
  - specialize (IH i k x Hi). lia.
Qed.

Lemma step_fits w ns a w' :
  step w a = Some w' -> fits w ns -> fits w' (tally_step w ns a).
Proof.
  intros Hstep (Hlen & Hsum & Hall). destruct a as [|i e|]; simpl in Hstep.
  - injection Hstep as <-. unfold fits. simpl. rewrite !length_app. simpl.
    split; [lia|]. split.
    + rewrite sum_list_with_app, <- Hsum. cbn. lia.
    + intros i n t Hn Ht.
      apply lookup_app_Some in Hn as [Hn|[Hge Hn]].
      * apply lookup_app_Some in Ht as [Ht|[Hge' _]]; [by eapply Hall|].
        apply lookup_lt_Some in Hn. lia.
      * rewrite Hlen in Hge, Hn. rewrite lookup_app_r in Ht by done.
        destruct (i - length (calls w)) as [|?]; by simplify_eq/=.
  - destruct (calls w !! i) as [t|] eqn:Hi; [|done].
    destruct (resume (cache w) t e) as [[[c t'] n]|] eqn:Hres; [|done].
    injection Hstep as <-. unfold tally_step. rewrite Hi, Hres.
    assert (Hlt : i < length ns) by (rewrite Hlen; by eapply lookup_lt_Some).
    destruct (lookup_lt_is_Some_2 ns i Hlt) as [k Hk].
    rewrite Hk. simpl. unfold fits. simpl. rewrite !length_insert.
    split; [done|]. split.
    + pose proof (sum_list_insert ns i k (k + n) Hk). lia.
    + intros j n' t0 Hn Ht.
      destruct (decide (j = i)) as [->|Hne].
      * rewrite list_lookup_insert_eq in Hn by done.
        rewrite list_lookup_insert_eq in Ht by (by rewrite <- Hlen).
        injection Hn as <-. injection Ht as <-.
        specialize (Hall i k t Hk Hi).
        destruct t as [| |m|r], e as [[msg|m']| |[msg|items]]; simplify_eq/=;
          try lia.
        destruct (hit (cache w) m') as [s|]; [simplify_eq/=; lia|].
        destruct (isCalculating (cache w)); simplify_eq/=; lia.
      * rewrite list_lookup_insert_ne in Hn by done.
        rewrite list_lookup_insert_ne in Ht by done. by eapply Hall.
  - injection Hstep as <-. done.
Qed.

Lemma exec_fits sched : forall w ns w',
  exec w sched = Some w' -> fits w ns -> fits w' (tally w ns sched).
Proof.
  induction sched as [|a sched IH]; intros w ns w' Hex Hfit; simpl in *.
  - by injection Hex as <-.
  - destruct (step w a) as [w1|] eqn:Hstep; [|done].
    eapply IH; [exact Hex|]. by eapply step_fits.
Qed.

(** X17. No call reads the file twice. Counting the [fs.readFile] each call
    has issued, in every state the calls and the watcher can reach: there is
    one count per call made, and the counts add up to the reads issued in
    all; a call still waiting for the marker or for its 100 ms timer has
    issued none, a call suspended at its read has issued one, and a call
    that has settled has issued at most one. *)
Theorem getStats_reads_at_most_calls (sched : list action) (w : world) :
  exec init sched = Some w ->
  length (reads_by sched) = length (calls w) /\
  reads w = sum_list (reads_by sched) /\
  forall i n, reads_by sched !! i = Some n ->
    n <= 1 /\
    (calls w !! i = Some AwaitStat \/ calls w !! i = Some AwaitTimer -> n = 0) /\
    (forall m, calls w !! i = Some (AwaitRead m) -> n = 1).
Proof.
  intros Hex.
  destruct (exec_fits sched init [] w Hex) as (Hlen & Hsum & Hall).
  { split; [done|]. split; [done|]. intros i n t Hn. by destruct i. }
  fold (reads_by sched) in Hlen, Hsum, Hall.
  split; [done|]. split; [done|]. intros i n Hn.
  assert (Hlt : i < length (calls w))
    by (rewrite <- Hlen; by eapply lookup_lt_Some).
  destruct (lookup_lt_is_Some_2 _ _ Hlt) as [t Ht].
  specialize (Hall i n t Hn Ht). rewrite Ht. split; [|split].
  - destruct t; lia.
  - intros [Hw|Hw]; injection Hw as ->; exact Hall.
  - intros m Hr. injection Hr as ->. exact Hall.
Qed.

Lemma getStats_reads_at_most_calls_witness :
  exists w,
    exec init [Call; Call; Call; Resume 0 (StatDone (inr 1%Z));
               Resume 1 (StatDone (inl "EMFILE"));
               Resume 2 (StatDone (inr 1%Z)); Call] = Some w /\
    reads_by [Call; Call; Call; Resume 0 (StatDone (inr 1%Z));
              Resume 1 (StatDone (inl "EMFILE"));
              Resume 2 (StatDone (inr 1%Z)); Call] = [1; 0; 1; 0] /\
    reads w = sum_list
                (reads_by [Call; Call; Call; Resume 0 (StatDone (inr 1%Z));
                           Resume 1 (StatDone (inl "EMFILE"));
                           Resume 2 (StatDone (inr 1%Z)); Call]).
Proof.
  eexists. split; [reflexivity|]. split; [reflexivity|].
  exact (proj1 (proj2 (getStats_reads_at_most_calls
           [Call; Call; Call; Resume 0 (StatDone (inr 1%Z));
            Resume 1 (StatDone (inl "EMFILE"));
            Resume 2 (StatDone (inr 1%Z)); Call] _ eq_refl))).
Defined.

(** ** Requests that do not overlap *)

(** X18. A call made while no other is in flight (the flag is clear) and
    followed to its end never waits: it is resumed at most twice, once with
    the marker and once with the file, never by the 100 ms timer; it issues
    at most one read and leaves the flag clear. If it returns statistics,
    they are then in the cache under the marker it read, so that the next
    call, if the marker is the same, returns the same statistics without
    reading the file. *)
Theorem getStats_alone
    (c c' : statsCache) (es : list event) (r : failure + stats) (n : nat) :
  isCalculating c = false ->
  run c AwaitStat es = Some (c', Settled r, n) ->
  isCalculating c' = false /\
  length es <= 2 /\ (TimerFired ∉ es) /\ n <= 1 /\
  forall s, r = inr s ->
    exists m es',
      es = StatDone (inr m) :: es' /\
      run c' AwaitStat [StatDone (inr m)] = Some (c', Settled (inr s), 0).
Proof.
  intros Hflag Hrun. destruct es as [|e es]; [done|].
  destruct e as [[msg|m]| |out]; simpl in Hrun; try done.
  - destruct (run (clear_flag c) _ es) as [[[c1 t1] n1]|] eqn:Hrest; [|done].
    apply StatsTheory.run_settled in Hrest as (-> & -> & -> & ->).
    injection Hrun as <- <- <-. repeat split; try done; simpl; try lia.
    intros Hin. apply elem_of_cons in Hin as [?|Hin]; [done|].
    by apply elem_of_nil in Hin.
  - destruct (hit c m) as [s|] eqn:Hhit.
    + destruct (run c _ es) as [[[c1 t1] n1]|] eqn:Hrest; [|done].
      apply StatsTheory.run_settled in Hrest as (-> & -> & -> & ->).
      injection Hrun as <- <- <-. repeat split; try done; simpl; try lia.
      * intros Hin. apply elem_of_cons in Hin as [?|Hin]; [done|].
        by apply elem_of_nil in Hin.
      * intros s' [= <-]. exists m, []. split; [done|]. by rewrite Hhit.
    + rewrite Hflag in Hrun.
      destruct es as [|e es]; [done|].
      destruct e as [?| |[msg|items]]; simpl in Hrun; try done.
      * destruct (run (clear_flag (set_flag c)) _ es) as [[[c1 t1] n1]|] eqn:Hrest;
          [|done].
        apply StatsTheory.run_settled in Hrest as (-> & -> & -> & ->).
        injection Hrun as <- <- <-. repeat split; try done; simpl; try lia.
        intros Hin. repeat (apply elem_of_cons in Hin as [?|Hin]; [done|]).
        by apply elem_of_nil in Hin.
      * destruct (run _ (Settled (inr (calculateStats items))) es)
          as [[[c1 t1] n1]|] eqn:Hrest; [|done].
        apply StatsTheory.run_settled in Hrest as (-> & -> & -> & ->).
        injection Hrun as <- <- <-. repeat split; try done; simpl; try lia.
        -- intros Hin. repeat (apply elem_of_cons in Hin as [?|Hin]; [done|]).
           by apply elem_of_nil in Hin.
        -- intros s' [= <-]. exists m, [ReadDone (Parsed items)].
           split; [done|]. unfold hit. simpl. by rewrite Z.eqb_refl.
Qed.

Lemma getStats_alone_witness :
  exists c',
    run empty AwaitStat [StatDone (inr 7%Z); ReadDone (Parsed mockRecords)]
    = Some (c', Settled (inr (calculateStats mockRecords)), 1) /\
    isCalculating c' = false /\
    run c' AwaitStat [StatDone (inr 7%Z)]
    = Some (c', Settled (inr (calculateStats mockRecords)), 0).
Proof.
  eexists. split; [reflexivity|].
  destruct (getStats_alone empty _
              [StatDone (inr 7%Z); ReadDone (Parsed mockRecords)]
              (inr (calculateStats mockRecords)) 1 eq_refl eq_refl)
    as (Hflag & _ & _ & _ & Hnext).
  split; [exact Hflag|].
  destruct (Hnext _ eq_refl) as (m & es' & Hes & Hrun).
  injection Hes as <- _. exact Hrun.
Defined.

(** ** After the watcher has fired *)

(** What was computed from a read that completed within [sched]. *)
Lemma fresh_snoc sched a s :
  (exists i items, Resume i (ReadDone (Parsed items)) ∈ sched /\
                   s = calculateStats items) ->
  exists i items, Resume i (ReadDone (Parsed items)) ∈ sched ++ [a] /\
                  s = calculateStats items.
Proof.
  intros (i & items & Hin & Hs). exists i, items. split; [|done].
  apply elem_of_app. by left.
Qed.

Lemma step_fresh w0 sched w a w' :
  step w a = Some w' ->
  ((forall s, data (cache w) = Some s ->
      exists i items, Resume i (ReadDone (Parsed items)) ∈ sched /\
                      s = calculateStats items) /\
   (forall i s, calls w !! i = Some (Settled (inr s)) ->
      calls w0 !! i = Some (Settled (inr s)) \/
      exists j items, Resume j (ReadDone (Parsed items)) ∈ sched /\
                      s = calculateStats items)) ->
  (forall s, data (cache w') = Some s ->
      exists i items, Resume i (ReadDone (Parsed items)) ∈ sched ++ [a] /\
                      s = calculateStats items) /\
  (forall i s, calls w' !! i = Some (Settled (inr s)) ->
      calls w0 !! i = Some (Settled (inr s)) \/
      exists j items, Resume j (ReadDone (Parsed items)) ∈ sched ++ [a] /\
                      s = calculateStats items).
Proof.
  intros Hstep [Hdata Hcalls].
  assert (Hold : forall i s, calls w !! i = Some (Settled (inr s)) ->
            calls w0 !! i = Some (Settled (inr s)) \/
            exists j items, Resume j (ReadDone (Parsed items)) ∈ sched ++ [a] /\
                            s = calculateStats items).
  { intros i s Hi. destruct (Hcalls i s Hi) as [?|?]; [by left|].
    right. by apply fresh_snoc. }
  destruct a as [|i e|]; simpl in Hstep.
  - injection Hstep as <-. simpl. split.
    + intros s Hs. by apply fresh_snoc, Hdata.
    + intros i s Hi. apply lookup_app_Some in Hi as [Hi|[_ Hi]]; [by apply Hold|].
      destruct (i - length (calls w)) as [|?]; simplify_eq/=.
  - destruct (calls w !! i) as [t|] eqn:Hi; [|done].
    destruct (resume (cache w) t e) as [[[c t'] n]|] eqn:Hres; [|done].
    injection Hstep as <-. simpl.
    assert (Hkeep : data c = data (cache w) \/
              exists items, e = ReadDone (Parsed items) /\
                            data c = Some (calculateStats items)).
    { destruct t as [| |m|r], e as [[msg|m']| |[msg|items]]; simplify_eq/=;
        try by left.
      - destruct (hit (cache w) m') as [s|]; [simplify_eq/=; by left|].
        destruct (isCalculating (cache w)); simplify_eq/=; by left.
      - right. by exists items. }
    assert (Hnew : forall s, t' = Settled (inr s) ->
              exists j items, Resume j (ReadDone (Parsed items)) ∈ sched ++ [Resume i e] /\
                              s = calculateStats items).
    { intros s ->.
      destruct t as [| |m|r], e as [[msg|m']| |[msg|items]]; simplify_eq/=.
      - destruct (hit (cache w) m') as [s'|] eqn:Hhit.
        + simplify_eq/=. apply StatsTheory.hit_Some in Hhit as [Hd _].
          by apply fresh_snoc, Hdata.
        + destruct (isCalculating (cache w)); simplify_eq/=.
      - exists i, items. split; [|done]. apply elem_of_app. right.
        by apply list_elem_of_singleton. }
    split.
    + intros s Hs. destruct Hkeep as [Heq|(items & -> & Heq)].
      * rewrite Heq in Hs. by apply fresh_snoc, Hdata.
      * rewrite Heq in Hs. injection Hs as <-. exists i, items.
        split; [|done]. apply elem_of_app. right. by apply list_elem_of_singleton.
    + intros k s Hk. apply list_lookup_insert_Some in Hk as [(-> & -> & _)|[_ Hk]].
      * right. by apply Hnew.
      * by apply Hold.
  - injection Hstep as <-. simpl. split; [done|exact Hold].
Qed.

(** X19. After the watcher has fired, nothing computed before is served
    again. Whatever the state the listener of [fs.watchFile] runs in and
    whatever follows, statistics held by the cache afterwards, and
    statistics returned by a call that had not returned when the listener
    ran, were computed from a read of the file that completed after it. *)
Theorem watcher_invalidates (w0 w : world) (sched : list action) :
  exec w0 (FileChanged :: sched) = Some w ->
  (forall s, data (cache w) = Some s ->
     exists i items, Resume i (ReadDone (Parsed items)) ∈ sched /\
                     s = calculateStats items) /\
  (forall i s, calls w !! i = Some (Settled (inr s)) ->
     calls w0 !! i = Some (Settled (inr s)) \/
     exists j items, Resume j (ReadDone (Parsed items)) ∈ sched /\
                     s = calculateStats items).
Proof.
  revert w. induction sched as [|a sched IH] using rev_ind; intros w Hex.
  - simpl in Hex. injection Hex as <-. simpl. split; [done|]. intros i s Hi. by left.
  - rewrite app_comm_cons, StatsTheory.exec_snoc in Hex.
    destruct (exec w0 (FileChanged :: sched)) as [w1|] eqn:Hex1; [|done].
    eapply step_fresh; [exact Hex|]. by apply IH.
Qed.

Lemma watcher_invalidates_witness :
  exec init [Call; Resume 0 (StatDone (inr 1%Z));
             Resume 0 (ReadDone (Parsed tie)); Call] = Some served_once /\
  exec served_once [FileChanged; Resume 1 (StatDone (inr 1%Z));
                    Resume 1 (ReadDone (Parsed mockRecords))]
  = Some served_again /\
  exists i items,
    Resume i (ReadDone (Parsed items))
    ∈ [Resume 1 (StatDone (inr 1%Z)); Resume 1 (ReadDone (Parsed mockRecords))] /\
    calculateStats mockRecords = calculateStats items.
Proof.
  split; [reflexivity|]. split; [reflexivity|].
  exact (proj1 (watcher_invalidates served_once served_again
                  [Resume 1 (StatDone (inr 1%Z));
                   Resume 1 (ReadDone (Parsed mockRecords))] eq_refl)
           _ eq_refl).
Defined.

(** ** A create, seen from the statistics *)

Lemma has_ink_not_empty s : Create.has_ink s = true -> s <> "".
Proof. by destruct s. Qed.

Lemma as_record_sound it :
  Create.sound it ->
  exists c r, Items.category it = JsStr c /\ as_record it = Some r /\
              category_or_unknown r = c.
Proof.
  intros (_ & (c & Hc & _ & Hink) & Hp). exists c. unfold as_record.
  rewrite Hc. simpl.
  assert (Hkey : forall p, category_or_unknown {| category := Some c; price := p |} = c).
  { intros p. unfold category_or_unknown. simpl.
    destruct (String.eqb_spec c "") as [->|]; [done|done]. }
  destruct Hp as [->|(x & -> & _)]; simpl; eexists; (split; [done|]);
    (split; [done|]); apply Hkey.
Qed.

Lemma count_category_other acc r k :
  k <> category_or_unknown r -> count_category acc r !! k = acc !! k.
Proof. intros Hk. unfold count_category. by rewrite lookup_insert_ne. Qed.

(** X20. A created item is counted. When the records of the data file are
    ones the model of [calculateStats] covers (categories that are strings
    or absent and keys of the object's own, prices that are Numbers or
    absent), and so is the category of the new item, the file a create
    writes has one record more: its statistics have a [total] greater by
    one, the count under the category of the new item (that of the request,
    trimmed; it is not empty, so the item is never counted under ["Unknown"]
    for want of a category) greater by one, and every other count
    unchanged. *)
Theorem createItem_then_stats
    (name category price : jsval) (now : Z)
    (data content : list Items.item) (it : Items.item) (rs : list record) :
  Create.createItem name category price now (inr data) None
  = (inr it, Some content) ->
  as_records (Create.stored <$> data) = Some rs ->
  own_keys rs = true ->
  (forall c, Items.category it = JsStr c -> own_key c = true) ->
  exists r c,
    as_records content = Some (rs ++ [r]) /\
    own_keys (rs ++ [r]) = true /\
    Items.category it = JsStr c /\ category_or_unknown r = c /\
    total (calculateStats (rs ++ [r])) = S (total (calculateStats rs)) /\
    default 0 (categories (calculateStats (rs ++ [r])) !! c)
    = S (default 0 (categories (calculateStats rs) !! c)) /\
    forall k, k <> c ->
      categories (calculateStats (rs ++ [r])) !! k
      = categories (calculateStats rs) !! k.
Proof.
  intros Hcreate Hrs Hown Hnew.
  assert (Hw : snd (Create.createItem name category price now (inr data) None)
               = Some content) by (by rewrite Hcreate).
  apply CreateTheory.createItem_content in Hw as (it' & Hit & -> & _ & Hsound).
  rewrite Hcreate in Hit. simpl in Hit. injection Hit as <-.
  destruct (as_record_sound it Hsound) as (c & r & Hc & Hr & Hkey).
  exists r, c. split; [|split; [|split; [done|split; [done|]]]].
  - unfold as_records in *. apply mapM_Some. apply mapM_Some in Hrs.
    apply Forall2_app; [done|]. by constructor.
  - unfold own_keys in *. rewrite forallb_app, Hown. simpl.
    by rewrite Hkey, (Hnew c Hc).
  - rewrite !calculateStats_total, !calculateStats_categories_fold.
    rewrite fold_left_app, length_app. simpl. split; [lia|]. split.
    + rewrite count_category_lookup. unfold counted_under.
      rewrite Hkey, String.eqb_refl. lia.
    + intros k Hk. apply count_category_other. by rewrite Hkey.
Qed.

Lemma createItem_then_stats_witness :
  Create.createItem (Create.r_name Create.desk) (Create.r_category Create.desk)
    (Create.r_price Create.desk) (Create.r_now Create.desk)
    (inr Items.mockItems) None
  = (inr Create.desk_item, Some (Items.mockItems ++ [Create.desk_item])) /\
  as_records (Create.stored <$> Items.mockItems) = Some mockRecords /\
  own_keys mockRecords = true /\
  (forall c, Items.category Create.desk_item = JsStr c -> own_key c = true) /\
  exists r c,
    as_records (Items.mockItems ++ [Create.desk_item]) = Some (mockRecords ++ [r]) /\
    Items.category Create.desk_item = JsStr c /\
    default 0 (categories (calculateStats (mockRecords ++ [r])) !! c)
    = S (default 0 (categories (calculateStats mockRecords) !! c)).
Proof.
  assert (Hnew : forall c, Items.category Create.desk_item = JsStr c ->
                           own_key c = true)
    by (intros c Hc; injection Hc as <-; reflexivity).
  split; [reflexivity|]. split; [reflexivity|]. split; [reflexivity|].
  split; [exact Hnew|].
  destruct (createItem_then_stats
              (Create.r_name Create.desk) (Create.r_category Create.desk)
              (Create.r_price Create.desk) (Create.r_now Create.desk)
              Items.mockItems (Items.mockItems ++ [Create.desk_item])
              Create.desk_item mockRecords eq_refl eq_refl eq_refl Hnew)
    as (r & c & Hrs & _ & Hc & _ & _ & Hcount & _).
  exists r, c. split; [exact Hrs|]. split; [exact Hc|exact Hcount].
Defined.

(** ** The range of prices *)

Lemma SFcompare_rank a b :
  a <> S754_nan -> b <> S754_nan ->
  SFcompare a b
  = Some (if decide (lex_lt (rank a) (rank b)) then Lt
          else if decide (lex_lt (rank b) (rank a)) then Gt else Eq).
Proof.
  intros Ha Hb.
  destruct a as [sa|sa| |sa ma ea], b as [sb|sb| |sb mb eb]; try done;
    try (destruct sa; try destruct sb; simpl;
         repeat case_decide; unfold lex_lt in *; simpl in *; (done || lia)).
  destruct sa, sb; simpl; try (repeat case_decide; unfold lex_lt in *; (done || lia)).
  - destruct (Z.compare_spec ea eb) as [->|?|?];
      [|repeat case_decide; unfold lex_lt in *; (done || lia)..].
    change (Pos.compare_cont Eq ma mb) with (Pos.compare ma mb).
    destruct (Pos.compare_spec ma mb) as [->|?|?]; simpl;
      repeat case_decide; unfold lex_lt in *; (done || lia).
  - destruct (Z.compare_spec ea eb) as [->|?|?];
      [|repeat case_decide; unfold lex_lt in *; (done || lia)..].
    change (Pos.compare_cont Eq ma mb) with (Pos.compare ma mb).
    destruct (Pos.compare_spec ma mb) as [->|?|?]; simpl;
      repeat case_decide; unfold lex_lt in *; (done || lia).
Qed.

Lemma is_nan_false x : PrimFloat.is_nan x = false -> Prim2SF x <> S754_nan.
Proof.
  unfold PrimFloat.is_nan. rewrite FloatAxioms.eqb_spec. intros H Hnan.
  rewrite Hnan in H. done.
Qed.

Lemma ltb_rank x y :
  PrimFloat.is_nan x = false -> PrimFloat.is_nan y = false ->
  (x <? y)%float = true <-> lex_lt (rank (Prim2SF x)) (rank (Prim2SF y)).
Proof.
  intros Hx%is_nan_false Hy%is_nan_false.
  rewrite FloatAxioms.ltb_spec. unfold SFltb.
  rewrite (SFcompare_rank _ _ Hx Hy). repeat case_decide; split; done.
Qed.

Lemma leb_rank x y :
  PrimFloat.is_nan x = false -> PrimFloat.is_nan y = false ->
  (x <=? y)%float = true <-> ~ lex_lt (rank (Prim2SF y)) (rank (Prim2SF x)).
Proof.
  intros Hx%is_nan_false Hy%is_nan_false.
  rewrite FloatAxioms.leb_spec. unfold SFleb.
  rewrite (SFcompare_rank _ _ Hx Hy).
  destruct (rank (Prim2SF x)) as [[a1 a2] a3], (rank (Prim2SF y)) as [[b1 b2] b3].
  repeat case_decide; unfold lex_lt in *; split; (done || lia).
Qed.


Lemma price_or_0_number r : PrimFloat.is_nan (price_or_0 r) = false.
Proof.
  unfold price_or_0. destruct (price r) as [x|]; [|reflexivity].
  unfold truthy_num. destruct (PrimFloat.is_zero x); [reflexivity|].
  destruct (PrimFloat.is_nan x) eqn:Hx; [reflexivity|exact Hx].
Qed.

Lemma leb_refl x : PrimFloat.is_nan x = false -> (x <=? x)%float = true.
Proof.
  intros Hx. apply leb_rank; [done..|].
  destruct (rank (Prim2SF x)) as [[a1 a2] a3]. unfold lex_lt. lia.
Qed.

Lemma ltb_leb x y :
  PrimFloat.is_nan x = false -> PrimFloat.is_nan y = false ->
  (x <? y)%float = true -> (x <=? y)%float = true.
Proof.
  intros Hx Hy Hlt. apply leb_rank; [done..|]. apply ltb_rank in Hlt; [|done..].
  revert Hlt.
  destruct (rank (Prim2SF x)) as [[a1 a2] a3], (rank (Prim2SF y)) as [[b1 b2] b3].
  unfold lex_lt. lia.
Qed.

Lemma not_ltb_leb x y :
  PrimFloat.is_nan x = false -> PrimFloat.is_nan y = false ->
  (y <? x)%float = false -> (x <=? y)%float = true.
Proof.
  intros Hx Hy Hlt. apply leb_rank; [done..|]. intros Hr.
  apply ltb_rank in Hr; [|done..]. congruence.
Qed.

Lemma min2_cases a b :
  PrimFloat.is_nan a = false -> PrimFloat.is_nan b = false ->
  (min2 a b = a \/ min2 a b = b) /\
  (min2 a b <=? a)%float = true /\ (min2 a b <=? b)%float = true.
Proof.
  intros Ha Hb. unfold min2. rewrite Ha, Hb. simpl.
  destruct (b <? a)%float eqn:Hba.
  { split; [by right|]. split; [by apply ltb_leb|by apply leb_refl]. }
  destruct (a <? b)%float eqn:Hab.
  { split; [by left|]. split; [by apply leb_refl|by apply ltb_leb]. }
  destruct (PrimFloat.get_sign a).
  - split; [by left|]. split; [by apply leb_refl|by apply not_ltb_leb].
  - split; [by right|]. split; [by apply not_ltb_leb|by apply leb_refl].
Qed.

Lemma max2_cases a b :
  PrimFloat.is_nan a = false -> PrimFloat.is_nan b = false ->
  (max2 a b = a \/ max2 a b = b) /\
  (a <=? max2 a b)%float = true /\ (b <=? max2 a b)%float = true.
Proof.
  intros Ha Hb. unfold max2. rewrite Ha, Hb. simpl.
  destruct (a <? b)%float eqn:Hab.
  { split; [by right|]. split; [by apply ltb_leb|by apply leb_refl]. }
  destruct (b <? a)%float eqn:Hba.
  { split; [by left|]. split; [by apply leb_refl|by apply ltb_leb]. }
  destruct (PrimFloat.get_sign a).
  - split; [by right|]. split; [by apply not_ltb_leb|by apply leb_refl].
  - split; [by left|]. split; [by apply leb_refl|by apply not_ltb_leb].
Qed.

Lemma leb_trans x y z :
  PrimFloat.is_nan x = false -> PrimFloat.is_nan y = false ->
  PrimFloat.is_nan z = false ->
  (x <=? y)%float = true -> (y <=? z)%float = true -> (x <=? z)%float = true.
Proof.
  intros Hx Hy Hz. rewrite !leb_rank by done.
  destruct (rank (Prim2SF x)) as [[a1 a2] a3], (rank (Prim2SF y)) as [[b1 b2] b3],
    (rank (Prim2SF z)) as [[c1 c2] c3].
  unfold lex_lt. intuition lia.
Qed.

Lemma fold_min2 l : forall acc,
  PrimFloat.is_nan acc = false ->
  Forall (fun x => PrimFloat.is_nan x = false) l ->
  (fold_left min2 l acc = acc \/ fold_left min2 l acc ∈ l) /\
  PrimFloat.is_nan (fold_left min2 l acc) = false /\
  (fold_left min2 l acc <=? acc)%float = true /\
  Forall (fun x => (fold_left min2 l acc <=? x)%float = true) l.
Proof.
  induction l as [|b l IH]; intros acc Hacc Hl; simpl.
  - split; [by left|]. split; [done|]. split; [by apply leb_refl|done].
  - apply Forall_cons in Hl as [Hb Hl].
    destruct (min2_cases acc b Hacc Hb) as (Hcase & Hle1 & Hle2).
    assert (Hacc' : PrimFloat.is_nan (min2 acc b) = false)
      by (destruct Hcase as [-> | ->]; done).
    destruct (IH (min2 acc b) Hacc' Hl) as (Hin & Hnan & Hle & Hall).
    split; [|split; [done|split]].
    + destruct Hin as [Hin|Hin].
      * rewrite Hin. destruct Hcase as [-> | ->]; [by left|right; by left].
      * right. by right.
    + by apply (leb_trans _ (min2 acc b)).
    + constructor; [|done]. by apply (leb_trans _ (min2 acc b)).
Qed.

Lemma fold_max2 l : forall acc,
  PrimFloat.is_nan acc = false ->
  Forall (fun x => PrimFloat.is_nan x = false) l ->
  (fold_left max2 l acc = acc \/ fold_left max2 l acc ∈ l) /\
  PrimFloat.is_nan (fold_left max2 l acc) = false /\
  (acc <=? fold_left max2 l acc)%float = true /\
  Forall (fun x => (x <=? fold_left max2 l acc)%float = true) l.
Proof.
  induction l as [|b l IH]; intros acc Hacc Hl; simpl.
  - split; [by left|]. split; [done|]. split; [by apply leb_refl|done].
  - apply Forall_cons in Hl as [Hb Hl].
    destruct (max2_cases acc b Hacc Hb) as (Hcase & Hle1 & Hle2).
    assert (Hacc' : PrimFloat.is_nan (max2 acc b) = false)
      by (destruct Hcase as [-> | ->]; done).
    destruct (IH (max2 acc b) Hacc' Hl) as (Hin & Hnan & Hle & Hall).
    split; [|split; [done|split]].
    + destruct Hin as [Hin|Hin].
      * rewrite Hin. destruct Hcase as [-> | ->]; [by left|right; by left].
      * right. by right.
    + by apply (leb_trans _ (max2 acc b)).
    + constructor; [|done]. by apply (leb_trans _ (max2 acc b)).
Qed.

(** The infinities are the ends of the order. *)
Lemma infinity_top x :
  PrimFloat.is_nan x = false -> (PrimFloat.infinity <=? x)%float = true ->
  x = PrimFloat.infinity.
Proof.
  intros Hx Hle. apply leb_rank in Hle; [|done..].
  apply is_nan_false in Hx. apply Prim2SF_inj.
  change (Prim2SF PrimFloat.infinity) with (S754_infinity false) in *.
  destruct (Prim2SF x) as [s|s| |s m e]; try done; simpl in Hle;
    try destruct s; try done; exfalso; apply Hle; unfold lex_lt; lia.
Qed.

Lemma neg_infinity_bottom x :
  PrimFloat.is_nan x = false -> (x <=? PrimFloat.neg_infinity)%float = true ->
  x = PrimFloat.neg_infinity.
Proof.
  intros Hx Hle. apply leb_rank in Hle; [|done..].
  apply is_nan_false in Hx. apply Prim2SF_inj.
  change (Prim2SF PrimFloat.neg_infinity) with (S754_infinity true) in *.
  destruct (Prim2SF x) as [s|s| |s m e]; try done; simpl in Hle;
    try destruct s; try done; exfalso; apply Hle; unfold lex_lt; lia.
Qed.

(** X21. The price range of a collection that is not empty is the least and
    the greatest of its prices, a price that is absent, zero or [NaN]
    counting as 0: [min] and [max] are each the price of some record, no
    price is below [min], and none is above [max]. (The collection is taken
    small enough for [Math.min(...prices)] to be called: an engine refuses
    a spread of too many arguments, and [getStats] then fails.) *)
Theorem calculateStats_priceRange (items : list record) :
  items <> [] ->
  (exists r, r ∈ items /\ min (priceRange (calculateStats items)) = price_or_0 r) /\
  (exists r, r ∈ items /\ max (priceRange (calculateStats items)) = price_or_0 r) /\
  forall r, r ∈ items ->
    (min (priceRange (calculateStats items)) <=? price_or_0 r)%float = true /\
    (price_or_0 r <=? max (priceRange (calculateStats items)))%float = true.
Proof.
  intros Hne.
  assert (Hprices : Forall (fun x => PrimFloat.is_nan x = false)
                      (map price_or_0 items)).
  { apply Forall_fmap, Forall_forall. intros r _. apply price_or_0_number. }
  assert (Hrange : priceRange (calculateStats items)
                   = {| min := math_min (map price_or_0 items);
                        max := math_max (map price_or_0 items) |})
    by (by destruct items).
  rewrite Hrange. simpl. unfold math_min, math_max.
  destruct (fold_min2 (map price_or_0 items) PrimFloat.infinity eq_refl Hprices)
    as (Hmin & _ & _ & Hlow).
  destruct (fold_max2 (map price_or_0 items) PrimFloat.neg_infinity eq_refl Hprices)
    as (Hmax & _ & _ & Hhigh).
  rewrite Forall_forall in Hlow, Hhigh.
  assert (Hfirst : exists r0, r0 ∈ items) by (destruct items as [|r0 ?]; [done|exists r0; by left]).
  destruct Hfirst as [r0 Hr0].
  assert (Hp0 : price_or_0 r0 ∈ map price_or_0 items) by (by apply list_elem_of_fmap_2).
  repeat split.
  - destruct Hmin as [Hmin|Hmin].
    + exists r0. split; [done|]. rewrite Hmin. symmetry.
      apply infinity_top; [apply price_or_0_number|].
      specialize (Hlow _ Hp0). by rewrite Hmin in Hlow.
    + apply list_elem_of_fmap in Hmin as (r & Hr & Hin). by exists r.
  - destruct Hmax as [Hmax|Hmax].
    + exists r0. split; [done|]. rewrite Hmax. symmetry.
      apply neg_infinity_bottom; [apply price_or_0_number|].
      specialize (Hhigh _ Hp0). by rewrite Hmax in Hhigh.
    + apply list_elem_of_fmap in Hmax as (r & Hr & Hin). by exists r.
  - apply Hlow. by apply list_elem_of_fmap_2.
  - apply Hhigh. by apply list_elem_of_fmap_2.
Qed.

Lemma calculateStats_priceRange_witness :
  mockRecords <> [] /\
  exists r, r ∈ mockRecords /\
            min (priceRange (calculateStats mockRecords)) = price_or_0 r.
Proof.
  assert (Hne : mockRecords <> []) by discriminate.
  split; [exact Hne|].
  exact (proj1 (calculateStats_priceRange mockRecords Hne)).
Defined.

End StatsUseTheory.
